(** * photo_captcha: a shallow embedding of the slider-captcha package

    The Go package [captcha] cuts a shaped hole into a background picture,
    extracts the matching puzzle piece and later checks the offset a client
    submits.  This development embeds the session store ([store.go]), the
    verification and placement code ([slider.go], [service.go]), the bilinear
    resampler ([image.go]) and the mask, hole and piece code ([puzzle.go]),
    and states the properties of the specification against that embedding.

    Conventions.
    - A Go [int] is a 64-bit two's-complement integer: a [Z] together with
      [wrap64] wherever the source can leave the range.  [uint32] and [uint8]
      values are [Z] reduced modulo 2^32 and 2^8.
    - A Go [float64] is a primitive binary64 float ([PrimFloat.float]); the
      operations [+ - * /] and [math.Sqrt] are the IEEE ones of the kernel.
      [math.Pow] is a parameter.  The star predicate alone, which rests on
      [math.Atan2], is stated over the real numbers.
    - A panic is an explicit outcome, never a default value. *)

From Stdlib Require Import ZArith Lia Bool List String.
From Stdlib Require Import Floats Uint63.
From Stdlib Require Import Reals Lra.
From stdpp Require Import base option strings gmap.

Set Warnings "-inexact-float".
Open Scope Z_scope.

(* ===================================================================== *)
(** ** Machine integers *)

Module GoInt.

Definition minInt : Z := - 2 ^ 63.
Definition maxInt : Z := 2 ^ 63 - 1.

(** Wrap-around of a 64-bit signed integer. *)
Definition wrap64 (z : Z) : Z := (z + 2 ^ 63) mod 2 ^ 64 - 2 ^ 63.

Definition in_int (z : Z) : Prop := minInt <= z <= maxInt.

Definition sub (a b : Z) : Z := wrap64 (a - b).
Definition add (a b : Z) : Z := wrap64 (a + b).
Definition neg (a : Z) : Z := wrap64 (- a).

Definition uint32 (z : Z) : Z := z mod 2 ^ 32.
Definition uint8 (z : Z) : Z := z mod 2 ^ 8.

End GoInt.

(* ===================================================================== *)
(** ** Floating point *)

Module Float64.

(** [float64(n)] for an [int] [n]: rounded to nearest, ties to even. *)
Definition of_int (n : Z) : float :=
  if n <? 0 then PrimFloat.opp (PrimFloat.of_uint63 (Uint63.of_Z (- n)))
  else PrimFloat.of_uint63 (Uint63.of_Z n).

(** [int(f)]: the fractional part is discarded.  Outside the range of
    int64, and on NaN and the infinities, the Go specification leaves the
    value to the implementation; amd64 yields the least int64. *)
Definition to_int (f : float) : Z :=
  match Prim2SF f with
  | S754_zero _ => 0
  | S754_finite s m e =>
      let v := if 0 <=? e then Z.shiftl (Zpos m) e
               else Z.shiftr (Zpos m) (- e) in
      if 2 ^ 63 <=? v then GoInt.minInt else if s then - v else v
  | _ => GoInt.minInt
  end.

(** [uint32(f)] and [uint8(f)]. *)
Definition to_uint32 (f : float) : Z := GoInt.uint32 (to_int f).
Definition to_uint8 (f : float) : Z := GoInt.uint8 (to_int f).

End Float64.

(** Integers as binary64 numbers, in the terms of [SpecFloat]. *)
Module Binary64.

(** The canonical binary64 form of [c * 2^k], for [c] of at most 53
    digits. *)
Definition canon (s : bool) (c : positive) (k : Z) : spec_float :=
  S754_finite s
    (Z.to_pos (Zpos c * 2 ^ (53 - Zpos (digits2_pos c))))
    (k - (53 - Zpos (digits2_pos c))).

(** The float that holds the integer [n], for [|n| < 2^53]. *)
Definition SFofZ (n : Z) : spec_float :=
  match n with
  | Z0 => S754_zero false
  | Zpos p => canon false p 0
  | Zneg p => canon true p 0
  end.

End Binary64.

(* ===================================================================== *)
(** ** Outcomes of a call *)

(** A Go call either returns, returns a non-nil [error], or panics. *)
Inductive outcome (A : Type) : Type :=
  | Returns (a : A)
  | Fails (msg : string)
  | Panics.
Arguments Returns {A} a.
Arguments Fails {A} msg.
Arguments Panics {A}.

#[global] Instance outcome_ret : MRet outcome := fun A a => Returns a.
#[global] Instance outcome_bind : MBind outcome :=
  fun A B f m =>
    match m with
    | Returns a => f a
    | Fails e => Fails e
    | Panics => Panics
    end.

(* ===================================================================== *)
(** ** store.go: the session store *)

Module Store.

(** [CaptchaData]; [CreatedAt] is a reading of the clock in nanoseconds. *)
Record CaptchaData : Type := mkData {
  ID : string;
  PositionX : Z;
  PositionY : Z;
  CreatedAt : Z
}.

(** [MemoryStore]: the map and the time-to-live (a [time.Duration], in
    nanoseconds).  The lock and the stop channel carry no data. *)
Record MemoryStore : Type := mkStore {
  data : gmap string CaptchaData;
  ttl : Z
}.

Definition NewMemoryStore (ttl : Z) : MemoryStore :=
  {| data := ∅; ttl := ttl |}.

(** [time.Minute] and the default store of the package, five minutes. *)
Definition Minute : Z := 60 * 1000000000.
Definition defaultStore : MemoryStore := NewMemoryStore (5 * Minute).

(** [t.Sub(u)]: a [Duration] saturates at the ends of int64. *)
Definition Sub (t u : Z) : Z :=
  Z.max GoInt.minInt (Z.min GoInt.maxInt (t - u)).

(** [Set]: stamps the entry with the current time and stores it. *)
Definition Set_ (m : MemoryStore) (now : Z) (id : string) (d : CaptchaData)
  : MemoryStore :=
  let d' := {| ID := ID d; PositionX := PositionX d;
               PositionY := PositionY d; CreatedAt := now |} in
  {| data := <[ id := d' ]> (data m); ttl := ttl m |}.

(** [Get]: the entry, unless it is absent or older than the ttl. *)
Definition Get (m : MemoryStore) (now : Z) (id : string)
  : option CaptchaData :=
  match data m !! id with
  | None => None
  | Some d => if Sub now (CreatedAt d) >? ttl m then None else Some d
  end.

(** [Delete]. *)
Definition Delete (m : MemoryStore) (id : string) : MemoryStore :=
  {| data := delete id (data m); ttl := ttl m |}.

(** [CleanExpired]: drops every entry older than the ttl. *)
Definition CleanExpired (m : MemoryStore) (now : Z) : MemoryStore :=
  {| data := filter (fun kv => negb (Sub now (CreatedAt (snd kv)) >? ttl m) = true)
                    (data m);
     ttl := ttl m |}.

End Store.

(* ===================================================================== *)
(** ** slider.go: verification *)

Module Slider.
Import Store.

(** [abs]: the negation wraps, as the Go operator does. *)
Definition abs (x : Z) : Z := if x <? 0 then GoInt.neg x else x.

(** [Verify(id, userX, tolerance)] on the store [m] at time [now]: the pair
    of the result and the store afterwards.  The result is [Fails] when the
    entry is not found or has expired, and [Returns success] otherwise. *)
Definition Verify (m : MemoryStore) (now : Z) (id : string)
           (userX tolerance : Z) : outcome bool * MemoryStore :=
  match Get m now id with
  | None => (Fails "captcha not found or expired", m)
  | Some d =>
      let diff := abs (GoInt.sub userX (PositionX d)) in
      let success := diff <=? tolerance in
      let m' := if success then Delete m id else m in
      (Returns success, m')
  end.

(** [VerifyWithTolerance]: the default tolerance of five pixels. *)
Definition VerifyWithTolerance (m : MemoryStore) (now : Z) (id : string)
           (userX : Z) : outcome bool * MemoryStore :=
  Verify m now id userX 5.

End Slider.

(* ===================================================================== *)
(** ** service.go, slider.go: choosing the placement *)

(** [PuzzleWidth] and [PuzzleHeight], the size of the puzzle piece. *)
Definition PuzzleWidth : Z := 70.
Definition PuzzleHeight : Z := 70.

Module Placement.

(** [rand.Intn(n)]: panics when [n <= 0]; otherwise some value of
    [0 <= v < n].  The generator is not modelled: [draw] is the raw value
    it produces, reduced into the range. *)
Definition Intn (n : Z) (draw : Z) : outcome Z :=
  if n <=? 0 then Panics else Returns (draw mod n).

(** The horizontal window [(minX, maxX)] computed by [Generate]. *)
Definition windowX (imgWidth : Z) : Z * Z :=
  let centerX := Z.quot imgWidth 2 in
  let offsetRangeX :=
    Float64.to_int (PrimFloat.mul (Float64.of_int imgWidth) 0.25%float) in
  let minX := centerX - offsetRangeX in
  let maxX := centerX + offsetRangeX - PuzzleWidth in
  let minX := if minX <? 0 then 0 else minX in
  let maxX := if maxX >? imgWidth - PuzzleWidth
              then imgWidth - PuzzleWidth else maxX in
  let maxX := if maxX <? minX then minX + PuzzleWidth else maxX in
  (minX, maxX).

(** The vertical window [(minY, maxY)]. *)
Definition windowY (imgHeight : Z) : Z * Z :=
  let centerY := Z.quot imgHeight 2 in
  let offsetRangeY :=
    Float64.to_int (PrimFloat.mul (Float64.of_int imgHeight) 0.15%float) in
  let minY := centerY - offsetRangeY in
  let maxY := centerY + offsetRangeY - PuzzleHeight in
  let minY := if minY <? 0 then 0 else minY in
  let maxY := if maxY >? imgHeight - PuzzleHeight
              then imgHeight - PuzzleHeight else maxY in
  let maxY := if maxY <? minY then minY + PuzzleHeight else maxY in
  (minY, maxY).

(** The placement step of [Generate]: [positionX] and [positionY], from
    the two values [drawX] and [drawY] of the random source. *)
Definition choosePlacement (imgWidth imgHeight : Z) (drawX drawY : Z)
  : outcome (Z * Z) :=
  let '(minX, maxX) := windowX imgWidth in
  let '(minY, maxY) := windowY imgHeight in
  match Intn (maxX - minX) drawX with
  | Returns rx =>
      match Intn (maxY - minY) drawY with
      | Returns ry => Returns (rx + minX, ry + minY)
      | Fails e => Fails e
      | Panics => Panics
      end
  | Fails e => Fails e
  | Panics => Panics
  end.

(** The mask placed at [(x, y)] lies inside a canvas of the given size. *)
Definition fits (canvasW canvasH x y : Z) : Prop :=
  0 <= x <= canvasW - PuzzleWidth /\ 0 <= y <= canvasH - PuzzleHeight.

End Placement.

(* ===================================================================== *)
(** ** Pixels, rectangles and image buffers (Go's [image] package) *)

(** [color.RGBA]: four uint8 channels, alpha-premultiplied. *)
Module RGBA.
Record t : Type := mk { R : Z; G : Z; B : Z; A : Z }.
Definition zero : t := mk 0 0 0 0.
Definition white : t := mk 255 255 255 255.
End RGBA.

Module Img.

(** [image.Rectangle]. *)
Record Rectangle : Type := mkRect { MinX : Z; MinY : Z; MaxX : Z; MaxY : Z }.

(** [image.Rect(x0, y0, x1, y1)]: the corners are put in order. *)
Definition Rect (x0 y0 x1 y1 : Z) : Rectangle :=
  let '(x0, x1) := if x0 >? x1 then (x1, x0) else (x0, x1) in
  let '(y0, y1) := if y0 >? y1 then (y1, y0) else (y0, y1) in
  mkRect x0 y0 x1 y1.

Definition Dx (r : Rectangle) : Z := MaxX r - MinX r.
Definition Dy (r : Rectangle) : Z := MaxY r - MinY r.

(** [Point{x, y}.In(r)]. *)
Definition In_ (x y : Z) (r : Rectangle) : bool :=
  (MinX r <=? x) && (x <? MaxX r) && (MinY r <=? y) && (y <? MaxY r).

(** [image.RGBA]: the bounds and the pixel buffer, read as a map from
    coordinates to pixels. *)
Record RGBAImage : Type := mkRGBAImage {
  Bounds : Rectangle;
  Pix : Z -> Z -> RGBA.t
}.

(** The channels of a pixel are values of type uint8. *)
Definition uint8s (c : RGBA.t) : Prop :=
  0 <= RGBA.R c <= 255 /\ 0 <= RGBA.G c <= 255
  /\ 0 <= RGBA.B c <= 255 /\ 0 <= RGBA.A c <= 255.

(** A buffer all of whose pixels have uint8 channels. *)
Definition wellFormed (p : RGBAImage) : Prop :=
  forall x y, uint8s (Pix p x y).

(** [image.NewRGBA(r)]: every pixel is zero. *)
Definition NewRGBA (r : Rectangle) : RGBAImage :=
  mkRGBAImage r (fun _ _ => RGBA.zero).

(** [p.RGBAAt(x, y)]: the zero colour outside the bounds. *)
Definition RGBAAt (p : RGBAImage) (x y : Z) : RGBA.t :=
  if In_ x y (Bounds p) then Pix p x y else RGBA.zero.

(** [p.SetRGBA(x, y, c)]: nothing happens outside the bounds. *)
Definition SetRGBA (p : RGBAImage) (x y : Z) (c : RGBA.t) : RGBAImage :=
  if In_ x y (Bounds p)
  then mkRGBAImage (Bounds p)
         (fun x' y' => if (x' =? x) && (y' =? y) then c else Pix p x' y')
  else p.

(** [draw.Draw(dst, dst.Bounds(), src, image.Point{}, draw.Src)]: the
    rectangle is clipped against the source, whose point [(0, 0)] is
    aligned with the top-left corner of [dst]; the pixels left are copied. *)
Definition DrawSrc (dst src : RGBAImage) : RGBAImage :=
  mkRGBAImage (Bounds dst)
    (fun x y =>
       let sx := x - MinX (Bounds dst) in
       let sy := y - MinY (Bounds dst) in
       if In_ x y (Bounds dst) && In_ sx sy (Bounds src)
       then Pix src sx sy else Pix dst x y).

(** The same call with [image.Transparent] as the source. *)
Definition DrawTransparent (dst : RGBAImage) : RGBAImage :=
  mkRGBAImage (Bounds dst)
    (fun x y => if In_ x y (Bounds dst) then RGBA.zero else Pix dst x y).

(** [image.Alpha]: one uint8 channel. *)
Record AlphaImage : Type := mkAlphaImage {
  ABounds : Rectangle;
  APix : Z -> Z -> Z
}.

Definition NewAlpha (r : Rectangle) : AlphaImage :=
  mkAlphaImage r (fun _ _ => 0).

(** [m.AlphaAt(x, y).A]. *)
Definition AlphaAt (m : AlphaImage) (x y : Z) : Z :=
  if In_ x y (ABounds m) then APix m x y else 0.

(** [m.SetAlpha(x, y, color.Alpha{a})]. *)
Definition SetAlpha (m : AlphaImage) (x y : Z) (a : Z) : AlphaImage :=
  if In_ x y (ABounds m)
  then mkAlphaImage (ABounds m)
         (fun x' y' => if (x' =? x) && (y' =? y) then a else APix m x' y')
  else m.

End Img.

(* ===================================================================== *)
(** ** Loops *)

Module Loop.
Import Img.

(** The index pairs [(x, y)] of
    [for y := y0; y < y1; y++ { for x := x0; x < x1; x++ { ... } }],
    in the order the loop visits them. *)
Definition grid (y0 y1 x0 x1 : Z) : list (Z * Z) :=
  y ← seqZ y0 (y1 - y0); x ← seqZ x0 (x1 - x0); [(x, y)].

(** A doubly nested loop whose body updates the state. *)
Definition for_each {S : Type} (l : list (Z * Z)) (body : Z -> Z -> S -> S)
  (s : S) : S :=
  fold_left (fun s p => body (fst p) (snd p) s) l s.

(** The same with a body that may panic: the loop stops at the first one. *)
Fixpoint for_each_m {S : Type} (l : list (Z * Z))
  (body : Z -> Z -> S -> outcome S) (s : S) : outcome S :=
  match l with
  | [] => Returns s
  | p :: l' =>
      match body (fst p) (snd p) s with
      | Returns s' => for_each_m l' body s'
      | Fails e => Fails e
      | Panics => Panics
      end
  end.

(** A loop whose body, at the index [(px, py)], either leaves the buffer
    alone or rewrites the one pixel [(x + px, y + py)] from its old value. *)
Definition pointwise (bnd : Rectangle) (x y : Z) (l : list (Z * Z))
  (W : Z -> Z -> bool) (V : Z -> Z -> RGBA.t -> RGBA.t)
  (body : Z -> Z -> RGBAImage -> RGBAImage) : Prop :=
  forall px py s, (px, py) ∈ l -> Bounds s = bnd ->
    body px py s
    = if W px py
      then SetRGBA s (x + px) (y + py) (V px py (RGBAAt s (x + px) (y + py)))
      else s.

End Loop.

(* ===================================================================== *)
(** ** puzzle.go: the hole in the background *)

Module Hole.
Import Img Loop.

(** The 70x70 frame, row by row. *)
Definition frame : list (Z * Z) := grid 0 PuzzleHeight 0 PuzzleWidth.

(** The eight neighbours, in the order of
    [for dy := -1; dy <= 1; dy++ { for dx := -1; dx <= 1; dx++ {...} }]
    with [(0, 0)] skipped.  Pairs are [(dx, dy)]. *)
Definition neighbours8 : list (Z * Z) :=
  filter (fun d => d <> (0, 0)) (grid (-1) 2 (-1) 2).

(** The 3x3 window including the centre. *)
Definition window3 : list (Z * Z) := grid (-1) 2 (-1) 2.

Definition inFrame (x y : Z) : bool :=
  (0 <=? x) && (x <? PuzzleWidth) && (0 <=? y) && (y <? PuzzleHeight).

(** The white wash of [CreatePuzzleHoleWithMask].  The constants [255*0.5]
    and [255*0.4] are evaluated exactly by the compiler. *)
Definition washPixel (c : RGBA.t) : RGBA.t :=
  RGBA.mk
    (Float64.to_uint8 (Float64.of_int (RGBA.R c) * 0.5 + 127.5)%float)
    (Float64.to_uint8 (Float64.of_int (RGBA.G c) * 0.6 + 102)%float)
    (Float64.to_uint8 (Float64.of_int (RGBA.B c) * 0.6 + 102)%float)
    255.

(** The wash of the older [CreatePuzzleHole] (60% white in the red channel). *)
Definition washPixelShape (c : RGBA.t) : RGBA.t :=
  RGBA.mk
    (Float64.to_uint8 (Float64.of_int (RGBA.R c) * 0.4 + 153)%float)
    (Float64.to_uint8 (Float64.of_int (RGBA.G c) * 0.6 + 102)%float)
    (Float64.to_uint8 (Float64.of_int (RGBA.B c) * 0.6 + 102)%float)
    255.

(** The target of mask pixel [(px, py)] lies outside the canvas. *)
Definition offCanvas (result : RGBAImage) (targetX targetY : Z) : bool :=
  (targetX <? 0) || (targetX >=? Dx (Bounds result))
  || (targetY <? 0) || (targetY >=? Dy (Bounds result)).

(** The first loop of [CreatePuzzleHoleWithMask]. *)
Definition washBody (wash : RGBA.t -> RGBA.t) (mask : AlphaImage) (x y : Z)
  (px py : Z) (result : RGBAImage) : RGBAImage :=
  let targetX := GoInt.add x px in
  let targetY := GoInt.add y py in
  if offCanvas result targetX targetY then result
  else
    let alpha := AlphaAt mask px py in
    if alpha >? 0
    then SetRGBA result targetX targetY (wash (RGBAAt result targetX targetY))
    else result.

Definition washLoop (wash : RGBA.t -> RGBA.t) (mask : AlphaImage) (x y : Z)
  (result : RGBAImage) : RGBAImage :=
  for_each frame (washBody wash mask x y) result.

(** [isHoleEdge]: some neighbour is outside the frame or transparent. *)
Definition isHoleEdge (x y : Z) (mask : AlphaImage) : bool :=
  existsb (fun d =>
             let nx := GoInt.add x (fst d) in
             let ny := GoInt.add y (snd d) in
             negb (inFrame nx ny) || (AlphaAt mask nx ny =? 0))
          neighbours8.

(** The border colour of [addHoleBorder]. *)
Definition holeBorderColor : RGBA.t := RGBA.mk 0 0 0 0.

Definition addHoleBorderBody (mask : AlphaImage) (x y : Z) (px py : Z)
  (result : RGBAImage) : RGBAImage :=
  if AlphaAt mask px py >? 0 then
    if isHoleEdge px py mask then
      let targetX := GoInt.add x px in
      let targetY := GoInt.add y py in
      if (targetX >=? 0) && (targetX <? Dx (Bounds result))
         && (targetY >=? 0) && (targetY <? Dy (Bounds result))
      then SetRGBA result targetX targetY holeBorderColor
      else result
    else result
  else result.

(** [addHoleBorder]. *)
Definition addHoleBorder (mask : AlphaImage) (x y : Z) (result : RGBAImage)
  : RGBAImage :=
  for_each frame (addHoleBorderBody mask x y) result.

(** The 3x3 Gaussian kernel, [kernel[ky+1][kx+1]]. *)
Definition kernel (ky kx : Z) : float :=
  if (ky =? 0) && (kx =? 0) then 4%float
  else if (ky =? 0) || (kx =? 0) then 2%float
  else 1%float.

Definition kernelSum : float := 16%float.

(** Three running sums of type float64. *)
Record sums : Type := mkSums { sumR : float; sumG : float; sumB : float }.
Definition sums0 : sums := mkSums 0%float 0%float 0%float.

Definition addTap (c : RGBA.t) (weight : float) (a : sums) : sums :=
  mkSums (sumR a + Float64.of_int (RGBA.R c) * weight)%float
         (sumG a + Float64.of_int (RGBA.G c) * weight)%float
         (sumB a + Float64.of_int (RGBA.B c) * weight)%float.

Definition blurColor (a : sums) : RGBA.t :=
  RGBA.mk (Float64.to_uint8 (sumR a / kernelSum)%float)
          (Float64.to_uint8 (sumG a / kernelSum)%float)
          (Float64.to_uint8 (sumB a / kernelSum)%float)
          255.

(** A coordinate clamped to [0 <= v < n]. *)
Definition clampCoord (v n : Z) : Z :=
  let v := if v <? 0 then 0 else v in
  if v >=? n then n - 1 else v.

(** The sums of one pixel of [applyGaussianBlurToHole]: every tap counts,
    taken from the copy [blurred] at a coordinate clamped to the canvas. *)
Definition holeTaps (blurred : RGBAImage) (w h : Z) (targetX targetY : Z)
  : sums :=
  fold_left
    (fun a k =>
       let nx := clampCoord (GoInt.add targetX (fst k)) w in
       let ny := clampCoord (GoInt.add targetY (snd k)) h in
       addTap (RGBAAt blurred nx ny) (kernel (snd k) (fst k)) a)
    window3 sums0.

Definition blurHoleBody (blurred : RGBAImage) (mask : AlphaImage)
  (offsetX offsetY : Z) (px py : Z) (result : RGBAImage) : RGBAImage :=
  if AlphaAt mask px py >? 0 then
    let targetX := GoInt.add offsetX px in
    let targetY := GoInt.add offsetY py in
    if offCanvas result targetX targetY then result
    else
      SetRGBA result targetX targetY
        (blurColor (holeTaps blurred (Dx (Bounds result)) (Dy (Bounds result))
                             targetX targetY))
  else result.

(** One iteration of [applyGaussianBlurToHole]: the pixels of the hole are
    recomputed from the copy [blurred]; the copy is refreshed afterwards. *)
Definition blurHoleIteration (mask : AlphaImage) (offsetX offsetY : Z)
  (st : RGBAImage * RGBAImage) : RGBAImage * RGBAImage :=
  let '(result, blurred) := st in
  let result := for_each frame (blurHoleBody blurred mask offsetX offsetY)
                         result in
  (result, DrawSrc blurred result).

(** [applyGaussianBlurToHole]: the copy [blurred] is a buffer of its own. *)
Definition applyGaussianBlurToHole (mask : AlphaImage) (offsetX offsetY : Z)
  (result : RGBAImage) : RGBAImage :=
  let blurred := DrawSrc (NewRGBA (Bounds result)) result in
  let st := blurHoleIteration mask offsetX offsetY (result, blurred) in
  let st := blurHoleIteration mask offsetX offsetY st in
  fst st.

(** The passes of [CreatePuzzleHoleWithMask] on the buffer [result], after
    the canvas has been copied into it. *)
Definition cutHole (wash : RGBA.t -> RGBA.t) (mask : AlphaImage) (x y : Z)
  (result : RGBAImage) : RGBAImage :=
  let result := washLoop wash mask x y result in
  let result := addHoleBorder mask x y result in
  applyGaussianBlurToHole mask x y result.

(** The same passes with the border pass left out. *)
Definition cutHoleNoBorder (wash : RGBA.t -> RGBA.t) (mask : AlphaImage)
  (x y : Z) (result : RGBAImage) : RGBAImage :=
  let result := washLoop wash mask x y result in
  applyGaussianBlurToHole mask x y result.

(** *** The passes, pixel by pixel

    What each pass leaves at the point [(tx, ty)], as a function of the
    buffer it starts from.  The loops above are shown to compute these. *)

(** The point [(tx, ty)] of the canvas lies under an opaque mask pixel. *)
Definition inHole (mask : AlphaImage) (bnd : Rectangle) (x y tx ty : Z)
  : bool :=
  inFrame (tx - x) (ty - y) && (AlphaAt mask (tx - x) (ty - y) >? 0)
  && In_ tx ty bnd.

Definition washed (wash : RGBA.t -> RGBA.t) (mask : AlphaImage) (x y : Z)
  (s : RGBAImage) : RGBAImage :=
  mkRGBAImage (Bounds s)
    (fun tx ty =>
       if inHole mask (Bounds s) x y tx ty then wash (RGBAAt s tx ty)
       else RGBAAt s tx ty).

Definition bordered (mask : AlphaImage) (x y : Z) (s : RGBAImage)
  : RGBAImage :=
  mkRGBAImage (Bounds s)
    (fun tx ty =>
       if inHole mask (Bounds s) x y tx ty
          && isHoleEdge (tx - x) (ty - y) mask
       then holeBorderColor else RGBAAt s tx ty).

Definition blurredOnce (mask : AlphaImage) (x y : Z) (s : RGBAImage)
  : RGBAImage :=
  mkRGBAImage (Bounds s)
    (fun tx ty =>
       if inHole mask (Bounds s) x y tx ty
       then blurColor (holeTaps s (Dx (Bounds s)) (Dy (Bounds s)) tx ty)
       else RGBAAt s tx ty).

Definition cutHolePixels (wash : RGBA.t -> RGBA.t) (mask : AlphaImage)
  (x y : Z) (s : RGBAImage) : RGBAImage :=
  blurredOnce mask x y
    (blurredOnce mask x y (bordered mask x y (washed wash mask x y s))).

Definition cutHoleNoBorderPixels (wash : RGBA.t -> RGBA.t)
  (mask : AlphaImage) (x y : Z) (s : RGBAImage) : RGBAImage :=
  blurredOnce mask x y (blurredOnce mask x y (washed wash mask x y s)).

(** Two buffers with the same bounds and the same pixels. *)
Definition samePixels (a b : RGBAImage) : Prop :=
  Bounds a = Bounds b /\ forall x y, RGBAAt a x y = RGBAAt b x y.

(** A canvas as the pipeline produces it: bounds at the origin, sizes that
    are values of type [int]. *)
Definition atOrigin (w h : Z) (p : RGBAImage) : Prop :=
  Bounds p = mkRect 0 0 w h /\ 0 <= w <= GoInt.maxInt /\ 0 <= h <= GoInt.maxInt.

(** Image buffers live in a heap; a [*image.RGBA] is a location. *)
Definition loc : Type := positive.
Definition heap : Type := gmap loc RGBAImage.

(** Allocation of a new buffer. *)
Definition alloc (h : heap) (im : RGBAImage) : loc * heap :=
  let l := fresh (dom h) in (l, <[ l := im ]> h).

(** [CreatePuzzleHoleWithMask(bgImage, x, y, mask)]: allocates [result],
    copies the canvas into it and runs the passes on it.  Returns the
    location of [result] and the heap afterwards; a dangling [bgImage]
    panics. *)
Definition CreatePuzzleHoleWithMask (bgImage : loc) (x y : Z)
  (mask : AlphaImage) (h : heap) : outcome (loc * heap) :=
  match h !! bgImage with
  | None => Panics
  | Some bg =>
      let '(result, h) := alloc h (NewRGBA (Bounds bg)) in
      let h := alter (fun r => DrawSrc r bg) result h in
      let h := alter (cutHole washPixel mask x y) result h in
      Returns (result, h)
  end.

(** The variant without [addHoleBorder], for comparison. *)
Definition CreatePuzzleHoleNoBorder (bgImage : loc) (x y : Z)
  (mask : AlphaImage) (h : heap) : outcome (loc * heap) :=
  match h !! bgImage with
  | None => Panics
  | Some bg =>
      let '(result, h) := alloc h (NewRGBA (Bounds bg)) in
      let h := alter (fun r => DrawSrc r bg) result h in
      let h := alter (cutHoleNoBorder washPixel mask x y) result h in
      Returns (result, h)
  end.

(** The bounds of the frame. *)
Definition frameRect : Rectangle := mkRect 0 0 70 70.

End Hole.

(* ===================================================================== *)
(** ** puzzle.go: the puzzle piece *)

Module Piece.
Import Img Loop Hole.

Section WithPow.

(** [math.Pow], a function of Go's library. *)
Variable Pow : float -> float -> float.

(** The test [c.R == 255 && c.G == 255 && c.B == 255]. *)
Definition isWhite (c : RGBA.t) : bool :=
  (RGBA.R c =? 255) && (RGBA.G c =? 255) && (RGBA.B c =? 255).

(** The first loop of [ExtractPuzzlePieceWithMask]: the masked pixels of
    the canvas are copied. *)
Definition copyBody (bgImage : RGBAImage) (mask : AlphaImage) (x y : Z)
  (px py : Z) (piece : RGBAImage) : RGBAImage :=
  let alpha := AlphaAt mask px py in
  if alpha >? 0 then
    let srcX := GoInt.add x px in
    let srcY := GoInt.add y py in
    if (srcX >=? 0) && (srcX <? Dx (Bounds bgImage))
       && (srcY >=? 0) && (srcY <? Dy (Bounds bgImage))
    then SetRGBA piece px py (RGBAAt bgImage srcX srcY)
    else piece
  else piece.

(** [isEdgeSimple]. *)
Definition isEdgeSimple (x y : Z) (mask : AlphaImage) : bool :=
  existsb (fun d =>
             let nx := GoInt.add x (fst d) in
             let ny := GoInt.add y (snd d) in
             negb (inFrame nx ny) || (AlphaAt mask nx ny =? 0))
          neighbours8.

(** [countTransparentNeighbors]: neighbours outside the frame do not count. *)
Definition countTransparentNeighbors (x y : Z) (mask : AlphaImage) : Z :=
  fold_left (fun count d =>
               let nx := GoInt.add x (fst d) in
               let ny := GoInt.add y (snd d) in
               if inFrame nx ny && (AlphaAt mask nx ny =? 0)
               then count + 1 else count)
            neighbours8 0.

Definition borderBody (mask : AlphaImage) (px py : Z) (piece : RGBAImage)
  : RGBAImage :=
  if AlphaAt mask px py >? 0 then
    if isEdgeSimple px py mask then SetRGBA piece px py RGBA.white
    else piece
  else piece.

(** Three running sums of type uint32 and the total weight. *)
Record wsums : Type := mkWsums {
  wR : Z; wG : Z; wB : Z; totalWeight : float
}.
Definition wsums0 : wsums := mkWsums 0 0 0 0%float.

Definition addWeighted (c : RGBA.t) (weight : float) (a : wsums) : wsums :=
  mkWsums
    (GoInt.uint32 (wR a + Float64.to_uint32 (Float64.of_int (RGBA.R c) * weight)%float))
    (GoInt.uint32 (wG a + Float64.to_uint32 (Float64.of_int (RGBA.G c) * weight)%float))
    (GoInt.uint32 (wB a + Float64.to_uint32 (Float64.of_int (RGBA.B c) * weight)%float))
    (totalWeight a + weight)%float.

(** The neighbours within [radius], the pixel itself left out. *)
Definition around (radius : Z) : list (Z * Z) :=
  filter (fun d => d <> (0, 0))
         (grid (- radius) (radius + 1) (- radius) (radius + 1)).

(** The weighted sums over the masked pixels around [(px, py)] that are
    not white. *)
Definition gather (radius : Z) (weightOf : float -> float)
  (piece : RGBAImage) (mask : AlphaImage) (px py : Z) : wsums :=
  fold_left
    (fun a d =>
       let nx := GoInt.add px (fst d) in
       let ny := GoInt.add py (snd d) in
       if inFrame nx ny then
         if AlphaAt mask nx ny >? 0 then
           let c := RGBAAt piece nx ny in
           if negb (isWhite c) then
             let distance :=
               PrimFloat.sqrt
                 (Float64.of_int (fst d * fst d + snd d * snd d)) in
             addWeighted c (weightOf distance) a
           else a
         else a
       else a)
    (around radius) wsums0.

(** The mix of [current] and the average, with alpha 255. *)
Definition mix (current : RGBA.t) (avgR avgG avgB : Z) (keep ratio : float)
  : RGBA.t :=
  RGBA.mk
    (Float64.to_uint8 (Float64.of_int (RGBA.R current) * keep
                       + Float64.of_int avgR * ratio)%float)
    (Float64.to_uint8 (Float64.of_int (RGBA.G current) * keep
                       + Float64.of_int avgG * ratio)%float)
    (Float64.to_uint8 (Float64.of_int (RGBA.B current) * keep
                       + Float64.of_int avgB * ratio)%float)
    255.

(** The averages [sum / uint32(totalWeight)]: an integer division, which
    panics on a zero divisor. *)
Definition averages (a : wsums) : outcome (Z * Z * Z) :=
  let d := Float64.to_uint32 (totalWeight a) in
  if d =? 0 then Panics
  else Returns (wR a / d, wG a / d, wB a / d).

(** The first pass of [antiAliasEdges]. *)
Definition antiAliasBody (mask : AlphaImage) (px py : Z) (piece : RGBAImage)
  : outcome RGBAImage :=
  if AlphaAt mask px py >? 0 then
    let transparentNeighbors := countTransparentNeighbors px py mask in
    if transparentNeighbors >? 0 then
      let current := RGBAAt piece px py in
      if isWhite current then Returns piece
      else
        let a := gather 3 (fun distance => 1 / Pow (distance + 1) 1.5)%float
                        piece mask px py in
        if (0 <? totalWeight a)%float then
          avg ← averages a;
          let '(avgR, avgG, avgB) := avg in
          let mixRatio :=
            (0.5 + Float64.of_int transparentNeighbors / 9 * 0.4)%float in
          Returns (SetRGBA piece px py
                     (mix current avgR avgG avgB (1 - mixRatio)%float mixRatio))
        else Returns piece
    else Returns piece
  else Returns piece.

(** The interior of the frame, [1 <= px, py < 69]. *)
Definition interior : list (Z * Z) :=
  grid 1 (PuzzleHeight - 1) 1 (PuzzleWidth - 1).

(** [smoothDiagonalEdges]. *)
Definition smoothDiagonalBody (mask : AlphaImage) (px py : Z)
  (piece : RGBAImage) : outcome RGBAImage :=
  if AlphaAt mask px py >? 0 then
    let current := RGBAAt piece px py in
    if isWhite current then Returns piece
    else
      let hasHorizontalTransparent :=
        (AlphaAt mask (px - 1) py =? 0) || (AlphaAt mask (px + 1) py =? 0) in
      let hasVerticalTransparent :=
        (AlphaAt mask px (py - 1) =? 0) || (AlphaAt mask px (py + 1) =? 0) in
      if hasHorizontalTransparent && hasVerticalTransparent then
        let a := gather 2 (fun distance => 1 / (distance + 1))%float
                        piece mask px py in
        if (0 <? totalWeight a)%float then
          avg ← averages a;
          let '(avgR, avgG, avgB) := avg in
          Returns (SetRGBA piece px py
                     (mix current avgR avgG avgB 0.4%float 0.6%float))
        else Returns piece
      else Returns piece
  else Returns piece.

Definition smoothDiagonalEdges (mask : AlphaImage) (piece : RGBAImage)
  : outcome RGBAImage :=
  for_each_m interior (smoothDiagonalBody mask) piece.

(** The plain sums and the count of [globalSmooth], all of type uint32. *)
Definition gatherPlain (piece : RGBAImage) (mask : AlphaImage) (px py : Z)
  : Z * Z * Z * Z :=
  fold_left
    (fun a d =>
       let '(sR, sG, sB, count) := a in
       let nx := px + fst d in
       let ny := py + snd d in
       if AlphaAt mask nx ny >? 0 then
         let c := RGBAAt piece nx ny in
         if negb (isWhite c)
         then (GoInt.uint32 (sR + RGBA.R c), GoInt.uint32 (sG + RGBA.G c),
               GoInt.uint32 (sB + RGBA.B c), GoInt.uint32 (count + 1))
         else a
       else a)
    window3 (0, 0, 0, 0).

Definition globalSmoothBody (mask : AlphaImage) (px py : Z)
  (piece : RGBAImage) : RGBAImage :=
  if AlphaAt mask px py >? 0 then
    let current := RGBAAt piece px py in
    if isWhite current then piece
    else
      let '(sR, sG, sB, count) := gatherPlain piece mask px py in
      if count >? 0 then
        SetRGBA piece px py
          (mix current (sR / count) (sG / count) (sB / count)
               0.8%float 0.2%float)
      else piece
  else piece.

(** [globalSmooth]. *)
Definition globalSmooth (mask : AlphaImage) (piece : RGBAImage) : RGBAImage :=
  for_each interior (globalSmoothBody mask) piece.

(** [antiAliasEdges]: the three passes in order. *)
Definition antiAliasEdges (mask : AlphaImage) (piece : RGBAImage)
  : outcome RGBAImage :=
  piece ← for_each_m frame (antiAliasBody mask) piece;
  piece ← smoothDiagonalEdges mask piece;
  Returns (globalSmooth mask piece).

(** [addSimpleBorder]: the white border, then the anti-aliasing. *)
Definition addSimpleBorder (mask : AlphaImage) (piece : RGBAImage)
  : outcome RGBAImage :=
  antiAliasEdges mask (for_each frame (borderBody mask) piece).

(** [clamp255]. *)
Definition clamp255 (v : Z) : Z :=
  if v <? 0 then 0 else if v >? 255 then 255 else GoInt.uint8 v.

Definition add3DBody (mask : AlphaImage) (px py : Z) (piece : RGBAImage)
  : RGBAImage :=
  if AlphaAt mask px py >? 0 then
    let transparentNeighbors := countTransparentNeighbors px py mask in
    if transparentNeighbors >? 0 then
      let current := RGBAAt piece px py in
      if isWhite current then piece
      else
        let highlightRatio :=
          (0.05 + Float64.of_int transparentNeighbors / 9 * 0.15)%float in
        SetRGBA piece px py
          (RGBA.mk
             (clamp255 (Float64.to_int
                (Float64.of_int (RGBA.R current) * (1 + highlightRatio))%float))
             (clamp255 (Float64.to_int
                (Float64.of_int (RGBA.G current) * (1 + highlightRatio))%float))
             (clamp255 (Float64.to_int
                (Float64.of_int (RGBA.B current) * (1 + highlightRatio))%float))
             255)
    else piece
  else piece.

(** [add3DEffect]. *)
Definition add3DEffect (mask : AlphaImage) (piece : RGBAImage) : RGBAImage :=
  for_each frame (add3DBody mask) piece.

(** The sums of one pixel of [applyGaussianBlurOnce]: a tap is moved to the
    nearest pixel of the frame, and counts only if that pixel is masked. *)
Definition pieceTaps (piece : RGBAImage) (mask : AlphaImage) (px py : Z)
  : sums :=
  fold_left
    (fun a k =>
       let nx := clampCoord (GoInt.add px (fst k)) PuzzleWidth in
       let ny := clampCoord (GoInt.add py (snd k)) PuzzleHeight in
       if AlphaAt mask nx ny >? 0
       then addTap (RGBAAt piece nx ny) (kernel (snd k) (fst k)) a
       else a)
    window3 sums0.

Definition blurOnceBody (piece : RGBAImage) (mask : AlphaImage) (px py : Z)
  (blurred : RGBAImage) : RGBAImage :=
  if AlphaAt mask px py >? 0
  then SetRGBA blurred px py (blurColor (pieceTaps piece mask px py))
  else SetRGBA blurred px py (RGBA.mk 0 0 0 0).

(** [applyGaussianBlurOnce]: the blurred image is built in a new buffer and
    copied back. *)
Definition applyGaussianBlurOnce (mask : AlphaImage) (piece : RGBAImage)
  : RGBAImage :=
  let blurred :=
    for_each frame (blurOnceBody piece mask) (NewRGBA (Bounds piece)) in
  DrawSrc piece blurred.

(** [applyGaussianBlur]: two iterations. *)
Definition applyGaussianBlur (mask : AlphaImage) (piece : RGBAImage)
  : RGBAImage :=
  applyGaussianBlurOnce mask (applyGaussianBlurOnce mask piece).

(** *** The blur in integers

    The kernel weights as integers, and the weighted sum of one channel
    over the taps that count: those whose coordinate, moved into the
    frame, is a masked pixel. *)
Definition kernelWeight (ky kx : Z) : Z :=
  if (ky =? 0) && (kx =? 0) then 4
  else if (ky =? 0) || (kx =? 0) then 2
  else 1.

Definition tapSum (channel : RGBA.t -> Z) (piece : RGBAImage)
  (mask : AlphaImage) (px py : Z) : Z :=
  fold_left
    (fun a k =>
       let nx := clampCoord (GoInt.add px (fst k)) PuzzleWidth in
       let ny := clampCoord (GoInt.add py (snd k)) PuzzleHeight in
       if AlphaAt mask nx ny >? 0
       then a + channel (RGBAAt piece nx ny) * kernelWeight (snd k) (fst k)
       else a)
    window3 0.

(** The blur as the specification words it: a tap outside the frame or
    outside the mask is left out, and the sum is divided by the total
    weight of the taps that are left. *)
Definition validTap (mask : AlphaImage) (px py : Z) (k : Z * Z) : bool :=
  inFrame (px + fst k) (py + snd k)
  && (AlphaAt mask (px + fst k) (py + snd k) >? 0).

Definition renormalizedChannel (channel : RGBA.t -> Z) (piece : RGBAImage)
  (mask : AlphaImage) (px py : Z) : Z :=
  let valid := filter (fun k => validTap mask px py k = true) window3 in
  let total :=
    fold_left (fun a k => a + kernelWeight (snd k) (fst k)) valid 0 in
  let sum :=
    fold_left
      (fun a k =>
         a + channel (RGBAAt piece (px + fst k) (py + snd k))
             * kernelWeight (snd k) (fst k))
      valid 0 in
  sum / total.

Definition renormalizedBlur (piece : RGBAImage) (mask : AlphaImage)
  (px py : Z) : RGBA.t :=
  RGBA.mk (renormalizedChannel RGBA.R piece mask px py)
          (renormalizedChannel RGBA.G piece mask px py)
          (renormalizedChannel RGBA.B piece mask px py)
          255.

(** [ExtractPuzzlePieceWithMask]. *)
Definition ExtractPuzzlePieceWithMask (bgImage : RGBAImage) (x y : Z)
  (mask : AlphaImage) : outcome RGBAImage :=
  let piece := NewRGBA (Rect 0 0 PuzzleWidth PuzzleHeight) in
  let piece := DrawTransparent piece in
  let piece := for_each frame (copyBody bgImage mask x y) piece in
  piece ← addSimpleBorder mask piece;
  let piece := add3DEffect mask piece in
  Returns (applyGaussianBlur mask piece).

End WithPow.

(** *** Predicates of the analysis *)

(** Every edge pixel of the mask is white. *)
Definition edgesWhite (mask : AlphaImage) (p : RGBAImage) : Prop :=
  Bounds p = frameRect
  /\ forall px py, inFrame px py = true -> (AlphaAt mask px py >? 0) = true ->
       isEdgeSimple px py mask = true -> isWhite (RGBAAt p px py) = true.

(** The three float sums hold the integers [r], [g], [b]. *)
Definition holds (a : sums) (r g b : Z) : Prop :=
  Prim2SF (sumR a) = Binary64.SFofZ r
  /\ Prim2SF (sumG a) = Binary64.SFofZ g
  /\ Prim2SF (sumB a) = Binary64.SFofZ b.

(** One step of the loop over the taps, on floats and on integers. *)
Definition stepF (piece : RGBAImage) (mask : AlphaImage) (px py : Z)
  (a : sums) (k : Z * Z) : sums :=
  let nx := clampCoord (GoInt.add px (fst k)) PuzzleWidth in
  let ny := clampCoord (GoInt.add py (snd k)) PuzzleHeight in
  if AlphaAt mask nx ny >? 0
  then addTap (RGBAAt piece nx ny) (kernel (snd k) (fst k)) a
  else a.

Definition stepZ (piece : RGBAImage) (mask : AlphaImage) (px py : Z)
  (channel : RGBA.t -> Z) (a : Z) (k : Z * Z) : Z :=
  let nx := clampCoord (GoInt.add px (fst k)) PuzzleWidth in
  let ny := clampCoord (GoInt.add py (snd k)) PuzzleHeight in
  if AlphaAt mask nx ny >? 0
  then a + channel (RGBAAt piece nx ny) * kernelWeight (snd k) (fst k)
  else a.

(** The weights of the taps of a list. *)
Definition weights (l : list (Z * Z)) : Z :=
  fold_right (fun k a => kernelWeight (snd k) (fst k) + a) 0 l.

End Piece.

(* ===================================================================== *)
(** ** image.go: the bilinear resampler *)

Module Resize.
Import Img Loop.

(** An [image.Image]: its bounds, and for every point the four values of
    [At(x, y).RGBA()], each a uint32 holding a 16-bit channel. *)
Record Image : Type := mkImage {
  IBounds : Rectangle;
  AtRGBA : Z -> Z -> Z * Z * Z * Z
}.

(** [color.RGBA.RGBA()]: every channel [c] becomes [c | c << 8]. *)
Definition RGBA16 (c : RGBA.t) : Z * Z * Z * Z :=
  (RGBA.R c * 257, RGBA.G c * 257, RGBA.B c * 257, RGBA.A c * 257).

(** An [*image.RGBA] seen as an [image.Image]. *)
Definition ofRGBA (p : RGBAImage) : Image :=
  mkImage (Bounds p) (fun x y => RGBA16 (RGBAAt p x y)).

(** uint32 arithmetic. *)
Definition mul32 (a b : Z) : Z := GoInt.uint32 (a * b).
Definition add32 (a b : Z) : Z := GoInt.uint32 (a + b).
Definition sub32 (a b : Z) : Z := GoInt.uint32 (a - b).

(** One channel of the blend:
    [(c00*wx_inv+c10*wx)/65535*wy_inv/65535 + (c01*wx_inv+c11*wx)/65535*wy/65535]. *)
Definition blend (c00 c10 c01 c11 wx wy wx_inv wy_inv : Z) : Z :=
  add32 (mul32 (add32 (mul32 c00 wx_inv) (mul32 c10 wx) / 65535) wy_inv / 65535)
        (mul32 (add32 (mul32 c01 wx_inv) (mul32 c11 wx) / 65535) wy / 65535).

(** The colour that the body of the two loops of [ResizeImage] computes
    for the pixel [(x, y)] of the destination. *)
Definition resizeColor (src : Image) (srcW srcH width height : Z) (x y : Z)
  : RGBA.t :=
  let srcX := (Float64.of_int x * Float64.of_int srcW
               / Float64.of_int width)%float in
  let srcY := (Float64.of_int y * Float64.of_int srcH
               / Float64.of_int height)%float in
  let x0 := Float64.to_int srcX in
  let y0 := Float64.to_int srcY in
  let x1 := GoInt.add x0 1 in
  let y1 := GoInt.add y0 1 in
  let x1 := if x1 >=? srcW then srcW - 1 else x1 in
  let y1 := if y1 >=? srcH then srcH - 1 else y1 in
  let '(r00, g00, b00, a00) := AtRGBA src x0 y0 in
  let '(r01, g01, b01, a01) := AtRGBA src x0 y1 in
  let '(r10, g10, b10, a10) := AtRGBA src x1 y0 in
  let '(r11, g11, b11, a11) := AtRGBA src x1 y1 in
  let fx := (srcX - Float64.of_int x0)%float in
  let fy := (srcY - Float64.of_int y0)%float in
  let wx := Float64.to_uint32 (fx * 65535)%float in
  let wy := Float64.to_uint32 (fy * 65535)%float in
  let wx_inv := sub32 65535 wx in
  let wy_inv := sub32 65535 wy in
  let r := blend r00 r10 r01 r11 wx wy wx_inv wy_inv in
  let g := blend g00 g10 g01 g11 wx wy wx_inv wy_inv in
  let b := blend b00 b10 b01 b11 wx wy wx_inv wy_inv in
  let a := blend a00 a10 a01 a11 wx wy wx_inv wy_inv in
  RGBA.mk (GoInt.uint8 (Z.shiftr r 8)) (GoInt.uint8 (Z.shiftr g 8))
          (GoInt.uint8 (Z.shiftr b 8)) (GoInt.uint8 (Z.shiftr a 8)).

(** The body of the two loops of [ResizeImage]: the colour is stored with
    [dst.SetRGBA(x, y, ...)]. *)
Definition resizeBody (src : Image) (srcW srcH width height : Z) (x y : Z)
  (dst : RGBAImage) : RGBAImage :=
  SetRGBA dst x y (resizeColor src srcW srcH width height x y).

(** [ResizeImage(src, width, height)]. *)
Definition ResizeImage (src : Image) (width height : Z) : RGBAImage :=
  let dst := NewRGBA (Rect 0 0 width height) in
  let srcW := Dx (IBounds src) in
  let srcH := Dy (IBounds src) in
  for_each (grid 0 height 0 width)
           (resizeBody src srcW srcH width height) dst.

End Resize.

(* ===================================================================== *)
(** ** puzzle.go: the shape masks *)

#[global] Instance Rle_decision (a b : R) : Decision (a <= b)%R := Rle_dec a b.
#[global] Instance Rlt_decision (a b : R) : Decision (a < b)%R := Rlt_dec a b.

Module Mask.
Import Img Loop Hole Resize.

(** [PuzzleType], an [int] with four named values. *)
Definition PuzzleType : Type := Z.
Definition PuzzleTypeTriangle : PuzzleType := 0.
Definition PuzzleTypeHexagon : PuzzleType := 1.
Definition PuzzleTypeTrapezoid : PuzzleType := 2.
Definition PuzzleTypeStar : PuzzleType := 3.

(** [PuzzleShape]; only the field [Type] is ever read. *)
Record PuzzleShape : Type := mkShape { Type_ : PuzzleType }.

(** [isInsideTriangle]. *)
Definition isInsideTriangle (x y : Z) : bool :=
  let centerX := Z.quot PuzzleWidth 2 in
  let marginBottom := 8 in
  let marginSide := 8 in
  if (x <? marginSide) || (x >=? PuzzleWidth - marginSide) then false
  else if y >=? PuzzleHeight - marginBottom then false
  else
    let height := Float64.of_int (PuzzleHeight - marginBottom) in
    let relativeY := (Float64.of_int y / height)%float in
    let topWidth := 0%float in
    let bottomWidth := Float64.of_int (PuzzleWidth - 2 * marginSide) in
    let currentWidth :=
      (topWidth + (bottomWidth - topWidth) * relativeY)%float in
    let dx := Float64.of_int (x - centerX) in
    (PrimFloat.abs dx <=? currentWidth / 2)%float.

(** The six vertices of the hexagon, from [radius]. *)
Definition hexVertices (radius : float) : list (float * float) :=
  let s3 := PrimFloat.sqrt 3 in
  [ (radius, 0);
    (radius / 2, radius * s3 / 2);
    (- radius / 2, radius * s3 / 2);
    (- radius, 0);
    (- radius / 2, - radius * s3 / 2);
    (radius / 2, - radius * s3 / 2) ]%float.

(** [isInsideHexagon]: the loop leaves at the first edge with a negative
    cross product. *)
Definition isInsideHexagon (x y : Z) : bool :=
  let centerX := Z.quot PuzzleWidth 2 in
  let centerY := Z.quot PuzzleHeight 2 in
  let radius := Float64.of_int (Z.quot PuzzleWidth 2 - 10) in
  let px := Float64.of_int (x - centerX) in
  let py := Float64.of_int (y - centerY) in
  let vertices := hexVertices radius in
  forallb
    (fun i : nat =>
       let j := ((i + 1) mod 6)%nat in
       let vi := nth i vertices (0, 0)%float in
       let vj := nth j vertices (0, 0)%float in
       let edgeX := (fst vj - fst vi)%float in
       let edgeY := (snd vj - snd vi)%float in
       let pointX := (px - fst vi)%float in
       let pointY := (py - snd vi)%float in
       let cross := (edgeX * pointY - edgeY * pointX)%float in
       negb (cross <? 0)%float)
    (seq 0 6).

(** [isInsideTrapezoid]. *)
Definition isInsideTrapezoid (x y : Z) : bool :=
  let centerX := Z.quot PuzzleWidth 2 in
  let centerY := Z.quot PuzzleHeight 2 in
  let height := Float64.of_int (PuzzleHeight - 20) in
  let topWidth := Float64.of_int (PuzzleWidth - 40) in
  let bottomWidth := Float64.of_int (PuzzleWidth - 20) in
  let dx := Float64.of_int (x - centerX) in
  let dy := Float64.of_int (y - centerY) in
  if (height / 2 <? PrimFloat.abs dy)%float then false
  else
    let normalizedY := ((dy + height / 2) / height)%float in
    let currentWidth :=
      (topWidth + (bottomWidth - topWidth) * normalizedY)%float in
    (PrimFloat.abs dx <=? currentWidth / 2)%float.

(** [math.Atan2(y, x)] over the reals, by the cases of its documentation. *)
Definition Atan2 (y x : R) : R :=
  if decide (0 < x)%R then atan (y / x)
  else if decide (x < 0)%R then
    (if decide (0 <= y)%R then atan (y / x) + PI else atan (y / x) - PI)%R
  else if decide (0 < y)%R then (PI / 2)%R
  else if decide (y < 0)%R then (- PI / 2)%R
  else 0%R.

(** [int(r)] for a real [r]: rounding towards zero. *)
Definition truncR (r : R) : Z :=
  if decide (0 <= r)%R then Int_part r else - Int_part (- r).

(** [isInsideStar], over the real numbers. *)
Definition isInsideStar (x y : Z) : bool :=
  let centerX := Z.quot PuzzleWidth 2 in
  let centerY := Z.quot PuzzleHeight 2 in
  let outerRadius := IZR (Z.quot PuzzleWidth 2 - 8) in
  let innerRadius := (outerRadius * 0.4)%R in
  let dx := IZR (x - centerX) in
  let dy := IZR (y - centerY) in
  let dist := sqrt (dx * dx + dy * dy) in
  let angle := Atan2 dy dx in
  let angle := if decide (angle < 0)%R then (angle + 2 * PI)%R else angle in
  let segmentAngle := (2 * PI / 5)%R in
  let halfAngle := (PI / 5)%R in
  let normalizedAngle := (angle + PI / 2)%R in
  let normalizedAngle :=
    if decide (normalizedAngle < 0)%R then (normalizedAngle + 2 * PI)%R
    else normalizedAngle in
  let normalizedAngle :=
    if decide (2 * PI <= normalizedAngle)%R then (normalizedAngle - 2 * PI)%R
    else normalizedAngle in
  let segmentIndex := truncR (normalizedAngle / segmentAngle) in
  let angleInSegment :=
    (normalizedAngle - IZR segmentIndex * segmentAngle)%R in
  let centerOffset := Rabs (angleInSegment - halfAngle) in
  let maxDist :=
    (innerRadius
     + (outerRadius - innerRadius) * (1 - centerOffset / halfAngle))%R in
  bool_decide (dist <= maxDist)%R.

(** [isInsidePuzzle]. *)
Definition isInsidePuzzle (x y : Z) (shape : PuzzleShape) : bool :=
  if Type_ shape =? PuzzleTypeTriangle then isInsideTriangle x y
  else if Type_ shape =? PuzzleTypeHexagon then isInsideHexagon x y
  else if Type_ shape =? PuzzleTypeTrapezoid then isInsideTrapezoid x y
  else if Type_ shape =? PuzzleTypeStar then isInsideStar x y
  else isInsideTriangle x y.

(** [getMaskFile]. *)
Definition getMaskFile (shapeType : PuzzleType) : string :=
  if shapeType =? PuzzleTypeTriangle then "mask/triangle.png"
  else if shapeType =? PuzzleTypeHexagon then "mask/hexagon.png"
  else if shapeType =? PuzzleTypeTrapezoid then "mask/trapezoid.png"
  else if shapeType =? PuzzleTypeStar then "mask/star.png"
  else "".

(** The mask drawn by the program, the fallback of [GeneratePuzzleMask]. *)
Definition proceduralMask (shape : PuzzleShape) : AlphaImage :=
  for_each frame
    (fun x y mask =>
       if isInsidePuzzle x y shape then SetAlpha mask x y 255
       else SetAlpha mask x y 0)
    (NewAlpha (Rect 0 0 PuzzleWidth PuzzleHeight)).

Section WithFiles.

(** [os.Open] followed by [image.Decode]: the decoded picture, or [None]
    when either fails. *)
Variable decodeFile : string -> option Image.

(** [loadMaskFromFile]: the picture is scaled to the frame and its alpha
    channel is kept. *)
Definition loadMaskFromFile (filename : string) : option AlphaImage :=
  match decodeFile filename with
  | None => None
  | Some img =>
      let resizedImg := ResizeImage img PuzzleWidth PuzzleHeight in
      Some (for_each frame
              (fun x y mask =>
                 let '(_, _, _, a) := AtRGBA (ofRGBA resizedImg) x y in
                 let alpha8 := GoInt.uint8 (Z.shiftr a 8) in
                 SetAlpha mask x y alpha8)
              (NewAlpha (Rect 0 0 PuzzleWidth PuzzleHeight)))
  end.

(** [GeneratePuzzleMask]: the file of the shape if it loads, the drawn
    mask otherwise. *)
Definition GeneratePuzzleMask (shape : PuzzleShape) : AlphaImage :=
  let maskFile := getMaskFile (Type_ shape) in
  if negb (String.eqb maskFile "") then
    match loadMaskFromFile maskFile with
    | Some mask => mask
    | None => proceduralMask shape
    end
  else proceduralMask shape.

End WithFiles.

(** The opaque footprint of a mask: the pixels of the frame with a positive
    alpha. *)
Definition inFootprint (mask : AlphaImage) (x y : Z) : bool :=
  inFrame x y && (AlphaAt mask x y >? 0).

(** The outer one-pixel border of the frame. *)
Definition onFrameBorder (x y : Z) : bool :=
  (x =? 0) || (x =? PuzzleWidth - 1) || (y =? 0) || (y =? PuzzleHeight - 1).

(** On the border of the frame the predicate [f] holds at most at the
    points of [allowed]. *)
Definition borderCheck (f allowed : Z -> Z -> bool) : bool :=
  forallb (fun p => negb (onFrameBorder (fst p) (snd p) && f (fst p) (snd p))
                    || allowed (fst p) (snd p))
          frame.

Definition apexOnly (x y : Z) : bool := (x =? 35) && (y =? 0).
Definition nowhere (x y : Z) : bool := false.

End Mask.

(* ===================================================================== *)
(** ** puzzle.go: the older entry points, which draw the mask themselves *)

Module Shape.
Import Img Loop Hole Piece Resize Mask.

Section WithLibrary.

Variable decodeFile : string -> option Image.
Variable Pow : float -> float -> float.

(** [CreatePuzzleHole]: as [CreatePuzzleHoleWithMask], with the mask of
    [GeneratePuzzleMask] and a stronger wash of the red channel. *)
Definition CreatePuzzleHole (bgImage : loc) (x y : Z) (shape : PuzzleShape)
  (h : heap) : outcome (loc * heap) :=
  match h !! bgImage with
  | None => Panics
  | Some bg =>
      let '(result, h) := alloc h (NewRGBA (Bounds bg)) in
      let h := alter (fun r => DrawSrc r bg) result h in
      let mask := GeneratePuzzleMask decodeFile shape in
      let h := alter (cutHole washPixelShape mask x y) result h in
      Returns (result, h)
  end.

(** [ExtractPuzzlePiece]. *)
Definition ExtractPuzzlePiece (bgImage : RGBAImage) (x y : Z)
  (shape : PuzzleShape) : outcome RGBAImage :=
  ExtractPuzzlePieceWithMask Pow bgImage x y
    (GeneratePuzzleMask decodeFile shape).

End WithLibrary.

End Shape.

(* ===================================================================== *)
(** ** service.go: the preloading service *)

Module Service.
Import Img Loop Hole Piece Resize Mask Store Placement.

(** [CaptchaService]; the lock carries no data. *)
Record CaptchaService : Type := mkService {
  backgroundImages : list Image;
  puzzleMasks : gmap Z AlphaImage;
  backgroundURLs : list string;
  initialized : bool
}.

(** [NewCaptchaService]. *)
Definition NewCaptchaService : CaptchaService := mkService [] ∅ [] false.

(** [SetBackgroundURLs]. *)
Definition SetBackgroundURLs (s : CaptchaService) (urls : list string)
  : CaptchaService :=
  mkService (backgroundImages s) (puzzleMasks s) urls (initialized s).

(** [SliderCaptcha], the value handed to the client. *)
Record SliderCaptcha : Type := mkCaptcha {
  CaptchaID : string;
  Background : string;
  Slider : string;
  CaptchaPositionY : Z
}.

(** What one call of [Generate] takes from outside: four values of the
    random source, the identifier [uuid.New()] produces, and the time. *)
Record Env : Type := mkEnv {
  drawBackground : Z;
  drawX : Z;
  drawY : Z;
  drawShape : Z;
  newID : string;
  now : Z
}.

Section WithWorld.

(** [DownloadImage]: the decoded picture or an error. *)
Variable DownloadImage : string -> outcome Image.
(** The package variable [BackgroundURLs]. *)
Variable BackgroundURLs : list string.
Variable decodeFile : string -> option Image.
Variable Pow : float -> float -> float.
(** [ImageToBase64], which rests on the PNG encoder of Go's library. *)
Variable ImageToBase64 : RGBAImage -> string -> outcome string.

(** [loadBackgroundImages]: stops at the first picture that fails; the
    pictures loaded before it stay in the service. *)
Fixpoint loadBackgroundImages (urls : list string) (s : CaptchaService)
  : outcome unit * CaptchaService :=
  match urls with
  | [] => (Returns tt, s)
  | imgURL :: rest =>
      match DownloadImage imgURL with
      | Returns img =>
          loadBackgroundImages rest
            (mkService (backgroundImages s ++ [img]) (puzzleMasks s)
                       (backgroundURLs s) (initialized s))
      | Fails e => (Fails ("load image " +:+ imgURL +:+ ": " +:+ e), s)
      | Panics => (Panics, s)
      end
  end.

(** [generatePuzzleMasks]. *)
Definition generatePuzzleMasks (s : CaptchaService) : CaptchaService :=
  let shapeTypes := [PuzzleTypeTriangle; PuzzleTypeHexagon;
                     PuzzleTypeTrapezoid; PuzzleTypeStar] in
  fold_left
    (fun s shapeType =>
       let mask := GeneratePuzzleMask decodeFile (mkShape shapeType) in
       mkService (backgroundImages s) (<[ shapeType := mask ]> (puzzleMasks s))
                 (backgroundURLs s) (initialized s))
    shapeTypes s.

(** [Init]: the error it returns, and the service afterwards. *)
Definition Init (s : CaptchaService) : outcome unit * CaptchaService :=
  if initialized s then (Returns tt, s)
  else
    let s := if (length (backgroundURLs s) =? 0)%nat
             then mkService (backgroundImages s) (puzzleMasks s)
                            BackgroundURLs (initialized s)
             else s in
    match loadBackgroundImages (backgroundURLs s) s with
    | (Returns _, s) =>
        let s := generatePuzzleMasks s in
        (Returns tt,
         mkService (backgroundImages s) (puzzleMasks s) (backgroundURLs s) true)
    | (Fails e, s) => (Fails ("load background images: " +:+ e), s)
    | (Panics, s) => (Panics, s)
    end.

(** [GetRandomBackground]: [None] stands for the nil image. *)
Definition GetRandomBackground (s : CaptchaService) (draw : Z)
  : option Image :=
  if (length (backgroundImages s) =? 0)%nat then None
  else
    match Intn (Z.of_nat (length (backgroundImages s))) draw with
    | Returns index => backgroundImages s !! Z.to_nat index
    | _ => None
    end.

(** [GetPuzzleMask]. *)
Definition GetPuzzleMask (s : CaptchaService) (shapeType : PuzzleType)
  : option AlphaImage :=
  puzzleMasks s !! shapeType.

(** A placement scaled to the delivered size. *)
Definition scaled (target img v : Z) : Z :=
  let scale := (Float64.of_int target / Float64.of_int img)%float in
  Float64.to_int (Float64.of_int v * scale)%float.

(** [GenerateCaptchaImagesWithMask]. *)
Definition GenerateCaptchaImagesWithMask (bgImage : Image) (x y : Z)
  (mask : AlphaImage) : outcome (string * string) :=
  let targetWidth := 350 in
  let targetHeight := 200 in
  let resizedImage := ResizeImage bgImage targetWidth targetHeight in
  let scaledX := scaled targetWidth (Dx (IBounds bgImage)) x in
  let scaledY := scaled targetHeight (Dy (IBounds bgImage)) y in
  let '(resized, h) := alloc ∅ resizedImage in
  r ← CreatePuzzleHoleWithMask resized scaledX scaledY mask h;
  match snd r !! fst r with
  | None => Panics
  | Some holeImage =>
      pieceImage ← ExtractPuzzlePieceWithMask Pow resizedImage scaledX scaledY mask;
      match ImageToBase64 holeImage "png" with
      | Returns bgBase64 =>
          match ImageToBase64 pieceImage "png" with
          | Returns sliderBase64 => Returns (bgBase64, sliderBase64)
          | Fails e => Fails ("failed to encode slider: " +:+ e)
          | Panics => Panics
          end
      | Fails e => Fails ("failed to encode background: " +:+ e)
      | Panics => Panics
      end
  end.

(** [CaptchaService.Generate]: the result, and the session store
    afterwards. *)
Definition Generate (s : CaptchaService) (env : Env) (store : MemoryStore)
  : outcome SliderCaptcha * MemoryStore :=
  if negb (initialized s)
  then (Fails "captcha service not initialized, call Init() first", store)
  else
    match GetRandomBackground s (drawBackground env) with
    | None => (Fails "no background images available", store)
    | Some bgImage =>
        let imgWidth := Dx (IBounds bgImage) in
        let imgHeight := Dy (IBounds bgImage) in
        match choosePlacement imgWidth imgHeight (drawX env) (drawY env) with
        | Returns (positionX, positionY) =>
            match Intn 4 (drawShape env) with
            | Returns shapeType =>
                match GetPuzzleMask s shapeType with
                | None => (Fails "mask not found for shape type", store)
                | Some mask =>
                    match GenerateCaptchaImagesWithMask
                            bgImage positionX positionY mask with
                    | Returns (bgWithHole, sliderPiece) =>
                        let scaledPositionX := scaled 350 imgWidth positionX in
                        let scaledPositionY := scaled 200 imgHeight positionY in
                        let id := newID env in
                        let captchaData :=
                          mkData id scaledPositionX scaledPositionY 0 in
                        (Returns (mkCaptcha id bgWithHole sliderPiece
                                            scaledPositionY),
                         Set_ store (now env) id captchaData)
                    | Fails e =>
                        (Fails ("failed to generate captcha images: " +:+ e),
                         store)
                    | Panics => (Panics, store)
                    end
                end
            | Fails e => (Fails e, store)
            | Panics => (Panics, store)
            end
        | Fails e => (Fails e, store)
        | Panics => (Panics, store)
        end
    end.

(** The services on which [Init] has not completed successfully: a new
    one, one whose list of pictures was set, and one on which [Init]
    returned an error or panicked. *)
Inductive notInitialized : CaptchaService -> Prop :=
  | ni_new : notInitialized NewCaptchaService
  | ni_urls s urls :
      notInitialized s -> notInitialized (SetBackgroundURLs s urls)
  | ni_failed s e s' :
      notInitialized s -> Init s = (Fails e, s') -> notInitialized s'
  | ni_panicked s s' :
      notInitialized s -> Init s = (Panics, s') -> notInitialized s'.

End WithWorld.

End Service.

(* ===================================================================== *)
(** ** Concrete inputs *)

Module Examples.
Import Img Hole Mask Resize Store.

(** A canvas of the delivered size, 350x200, of one colour. *)
Definition plainCanvas : RGBAImage :=
  mkRGBAImage (mkRect 0 0 350 200) (fun _ _ => RGBA.mk 200 120 40 255).

(** The trapezoid as a 70x70 mask. *)
Definition trapezoidMask : AlphaImage :=
  mkAlphaImage (mkRect 0 0 70 70)
    (fun x y => if isInsideTrapezoid x y then 255 else 0).

(** A mask with the single opaque pixel [(10, 10)]. *)
Definition dotMask : AlphaImage :=
  mkAlphaImage (mkRect 0 0 70 70)
    (fun x y => if (x =? 10) && (y =? 10) then 255 else 0).

(** A 70x70 piece of one colour. *)
Definition flatPiece : RGBAImage :=
  mkRGBAImage (mkRect 0 0 70 70) (fun _ _ => RGBA.mk 160 80 40 255).

(** An image of one row, 26388279066625 pixels wide, black but for the
    white pixel of column 26032801117082. *)
Definition wideWidth : Z := 26388279066625.
Definition wideColumn : Z := 26032801117082.
Definition wideImage : RGBAImage :=
  mkRGBAImage (mkRect 0 0 wideWidth 1)
    (fun x _ => if x =? wideColumn then RGBA.mk 255 255 255 255
                else RGBA.mk 0 0 0 255).

(** A heap that holds the plain canvas at location 1. *)
Definition canvasHeap : heap := {[ 1%positive := plainCanvas ]}.

(** A store holding one session, created at time 0 with true offset 150. *)
Definition oneSession : MemoryStore :=
  Set_ defaultStore 0 "s1" (mkData "s1" 150 60 0).

(** A world without network: every download fails. *)
Definition offline (url : string) : outcome Image := Fails "no route to host".

End Examples.

(* ===================================================================== *)
(** ** The window of a placement *)

Module Frame.
Import Img.

(** The point [(tx, ty)] lies in the 70x70 window placed at [(x, y)]. *)
Definition inWindow (x y tx ty : Z) : Prop :=
  x <= tx < x + PuzzleWidth /\ y <= ty < y + PuzzleHeight.

(** Two buffers with the same bounds that agree outside the window. *)
Definition sameOutside (x y : Z) (a b : RGBAImage) : Prop :=
  Bounds a = Bounds b
  /\ forall tx ty, ~ inWindow x y tx ty -> RGBAAt a tx ty = RGBAAt b tx ty.

End Frame.

(* ===================================================================== *)
(** ** A canvas whose bounds do not start at the origin *)

Module OffOrigin.
Import Img Hole.

(** A 350x200 canvas with the bounds (10, 10)-(360, 210), as
    [SubImage] returns it; the colour of a pixel tells its coordinates. *)
Definition shiftedCanvas : RGBAImage :=
  mkRGBAImage (mkRect 10 10 360 210)
    (fun x y => RGBA.mk (x mod 256) (y mod 256) 40 255).

(** A heap that holds the shifted canvas at location 1. *)
Definition shiftedHeap : heap := {[ 1%positive := shiftedCanvas ]}.

End OffOrigin.

(* ===================================================================== *)
(** ** store.go with its pointers

    [MemoryStore.data] maps an id to a [*CaptchaData].  [Store] keeps the
    record itself under each id, which is what a caller sees as long as no
    record is stored twice.  Here the records live in a heap and the map
    holds their locations, so that a record stored under two ids is one
    record. *)

Module PointerStore.
Import Store.

(** A [*CaptchaData] that is not nil is a location, a [positive]; the
    records they lead to form a heap, a [gmap positive CaptchaData].  The
    map of the store holds locations. *)
Record MemoryStore : Type := mkStore {
  data : gmap string positive;
  ttl : Z
}.

(** [data.CreatedAt = now]. *)
Definition stamp (d : CaptchaData) (now : Z) : CaptchaData :=
  {| ID := ID d; PositionX := PositionX d; PositionY := PositionY d;
     CreatedAt := now |}.

(** [Set(id, data)]: the time is written through the pointer, then the
    pointer is stored.  A pointer that leads to no record is nil, and
    writing through it panics. *)
Definition Set_ (m : MemoryStore) (now : Z) (id : string) (p : positive)
  (h : gmap positive CaptchaData)
  : outcome (gmap positive CaptchaData * MemoryStore) :=
  match h !! p with
  | None => Panics
  | Some d =>
      Returns (<[ p := stamp d now ]> h,
               {| data := <[ id := p ]> (data m); ttl := ttl m |})
  end.

(** [Get(id)]: the pointer, unless the id is absent or its record is older
    than the ttl. *)
Definition Get (m : MemoryStore) (now : Z) (id : string)
  (h : gmap positive CaptchaData) : outcome (option positive) :=
  match data m !! id with
  | None => Returns None
  | Some p =>
      match h !! p with
      | None => Panics
      | Some d =>
          Returns (if Sub now (CreatedAt d) >? ttl m then None else Some p)
      end
  end.

(** [Delete(id)]. *)
Definition Delete (m : MemoryStore) (id : string) : MemoryStore :=
  {| data := delete id (data m); ttl := ttl m |}.

(** The store as [Store] has it: under each id the record that its pointer
    leads to. *)
Definition view (h : gmap positive CaptchaData) (m : MemoryStore)
  : Store.MemoryStore :=
  {| Store.data := omap (fun p => h !! p) (data m); Store.ttl := ttl m |}.

(** No id holds the pointer [p]. *)
Definition unused (m : MemoryStore) (p : positive) : Prop :=
  forall id, data m !! id <> Some p.

End PointerStore.
(* ===================================================================== *)
(** ** Checking the placement windows *)

Module Window.
Import Placement.

(** A window [(lo, hi)] from which [rand.Intn(hi - lo) + lo] can be drawn
    and yields only placements at which the piece, 70 pixels long, lies
    inside a side of the given length. *)
Definition sound (side : Z) (win : Z * Z) : bool :=
  (0 <=? fst win) && (fst win <? snd win) && (snd win <=? side - 70).

(** The windows of the [n] sides from [lo] on are sound: a loop that keeps
    the next side and the verdict so far. *)
Definition allSound (window : Z -> Z * Z) (lo : Z) (n : N) : bool :=
  snd (N.iter n
         (fun st : Z * bool =>
            (fst st + 1, snd st && sound (fst st) (window (fst st))))
         (lo, true)).

End Window.

(* ===================================================================== *)
(** ** Checking a shape for mirror symmetry *)

Module Mirror.
Import Hole.

(** The predicate [f] takes the same value at [(x, y)] and at
    [(70 - x, y)], for every pixel of the frame that has a mirror image in
    the frame. *)
Definition mirrored (f : Z -> Z -> bool) : bool :=
  forallb (fun p => (fst p =? 0)
                    || Bool.eqb (f (fst p) (snd p)) (f (70 - fst p) (snd p)))
          frame.

End Mirror.

(* ===================================================================== *)
(** ** States of the service *)

Module ServiceState.
Import Img Resize Service.

(** The URLs that [Init] loads: those of the service, or the package's
    list [BackgroundURLs] when the service has none. *)
Definition effectiveURLs (BackgroundURLs : list string) (s : CaptchaService)
  : list string :=
  if (length (backgroundURLs s) =? 0)%nat then BackgroundURLs
  else backgroundURLs s.

(** A service that is initialised and holds at least one picture, only
    pictures from 144x240 to 65535x65535, and a mask for each of the four
    shape types. *)
Definition ready (s : CaptchaService) : Prop :=
  initialized s = true
  /\ backgroundImages s <> []
  /\ Forall (fun img =>
               144 <= Dx (IBounds img) <= 65535
               /\ 240 <= Dy (IBounds img) <= 65535)
            (backgroundImages s)
  /\ forall shapeType, 0 <= shapeType <= 3 ->
       is_Some (GetPuzzleMask s shapeType).

End ServiceState.

(* ===================================================================== *)
(** ** A small world *)

Module Scenario.
Import Img Resize Mask Store Service.

(** A picture of 640x480 pixels of one colour. *)
Definition photo : RGBAImage :=
  mkRGBAImage (mkRect 0 0 640 480) (fun _ _ => RGBA.mk 90 140 200 255).

(** A network on which every URL yields that picture. *)
Definition online (url : string) : outcome Image := Returns (ofRGBA photo).

(** No mask file can be opened. *)
Definition noFiles (filename : string) : option Image := None.

(** An encoder that always returns. *)
Definition encoder (img : RGBAImage) (format : string) : outcome string :=
  Returns "data:image/png;base64,".

(** [math.Pow] is never reached; any function will do. *)
Definition pow (x y : float) : float := x.

(** A service that holds the picture and the trapezoid mask under each of
    the four shape types. *)
Definition readyService : CaptchaService :=
  mkService [ofRGBA photo]
    (<[ 3 := Examples.trapezoidMask ]>
       (<[ 2 := Examples.trapezoidMask ]>
          (<[ 1 := Examples.trapezoidMask ]>
             (<[ 0 := Examples.trapezoidMask ]> ∅))))
    [] true.

(** An initialised service without pictures. *)
Definition emptyService : CaptchaService := mkService [] ∅ [] true.

Definition env : Env := mkEnv 0 12345 67890 2 "id-1" 1000.

End Scenario.

(* ===================================================================== *)
(** ** image.go: encoding a picture *)

Module Encode.
Import Img.

Section WithCodecs.

(** What [png.Encoder.Encode] and [jpeg.Encode] (at quality 90) write to
    the buffer, one call of [Write] after the other, and the error they
    return at the end ([None] is nil). *)
Variable pngEncoder : RGBAImage -> list (list Byte.byte) * option string.
Variable jpegEncoder : RGBAImage -> list (list Byte.byte) * option string.
(** [base64.StdEncoding.EncodeToString]. *)
Variable EncodeToString : list Byte.byte -> string.

(** [writerBuffer.Write]: the bytes are appended; the call returns their
    number and no error. *)
Definition Write (buf p : list Byte.byte) : list Byte.byte * Z :=
  (buf ++ p, Z.of_nat (length p)).

(** [encodePNG] and [encodeJPEG]: the buffer is returned with the error. *)
Definition encodePNG (img : RGBAImage) : list Byte.byte * option string :=
  (fold_left (fun buf p => fst (Write buf p)) (fst (pngEncoder img)) [],
   snd (pngEncoder img)).

Definition encodeJPEG (img : RGBAImage) : list Byte.byte * option string :=
  (fold_left (fun buf p => fst (Write buf p)) (fst (jpegEncoder img)) [],
   snd (jpegEncoder img)).

(** [ImageToBase64]. *)
Definition ImageToBase64 (img : RGBAImage) (format : string)
  : outcome string :=
  let '(buf, err, format) :=
    if String.eqb format "png" then (encodePNG img, format)
    else if String.eqb format "jpeg" || String.eqb format "jpg"
         then (encodeJPEG img, format)
    else (encodePNG img, "png") in
  match err with
  | Some e => Fails e
  | None =>
      let base64Str := EncodeToString buf in
      let mimeType :=
        if String.eqb format "jpeg" || String.eqb format "jpg"
        then "image/jpeg" else "image/png" in
      Returns ("data:" +:+ mimeType +:+ ";base64," +:+ base64Str)
  end.

End WithCodecs.

End Encode.

(* ===================================================================== *)
(** ** slider.go, image.go: the package-level [Generate] *)

Module Legacy.
Import Img Loop Hole Piece Resize Mask Shape Store Placement Service.

Section WithWorld.

Variable DownloadImage : string -> outcome Image.
Variable BackgroundURLs : list string.
Variable decodeFile : string -> option Image.
Variable Pow : float -> float -> float.
Variable ImageToBase64 : RGBAImage -> string -> outcome string.

(** [GenerateRandomPuzzleShape]: only the field [Type] is set. *)
Definition GenerateRandomPuzzleShape (draw : Z) : outcome PuzzleShape :=
  shapeType ← Intn 4 draw; Returns (mkShape shapeType).

(** [GenerateCaptchaImages]. *)
Definition GenerateCaptchaImages (bgImage : Image) (x y : Z)
  (shape : PuzzleShape) : outcome (string * string) :=
  let targetWidth := 350 in
  let targetHeight := 200 in
  let resizedImage := ResizeImage bgImage targetWidth targetHeight in
  let scaledX := scaled targetWidth (Dx (IBounds bgImage)) x in
  let scaledY := scaled targetHeight (Dy (IBounds bgImage)) y in
  let '(resized, h) := alloc ∅ resizedImage in
  r ← CreatePuzzleHole decodeFile resized scaledX scaledY shape h;
  match snd r !! fst r with
  | None => Panics
  | Some holeImage =>
      pieceImage ← ExtractPuzzlePiece decodeFile Pow resizedImage
                     scaledX scaledY shape;
      match ImageToBase64 holeImage "png" with
      | Returns bgBase64 =>
          match ImageToBase64 pieceImage "png" with
          | Returns sliderBase64 => Returns (bgBase64, sliderBase64)
          | Fails e => Fails ("failed to encode slider: " +:+ e)
          | Panics => Panics
          end
      | Fails e => Fails ("failed to encode background: " +:+ e)
      | Panics => Panics
      end
  end.

(** [Generate]: the result, and the session store afterwards.  Indexing
    [BackgroundURLs] cannot fail after [rand.Intn]. *)
Definition Generate (env : Env) (store : MemoryStore)
  : outcome SliderCaptcha * MemoryStore :=
  match Intn (Z.of_nat (length BackgroundURLs)) (drawBackground env) with
  | Returns bgIndex =>
      match BackgroundURLs !! Z.to_nat bgIndex with
      | None => (Panics, store)
      | Some bgURL =>
          match DownloadImage bgURL with
          | Returns bgImage =>
              let imgWidth := Dx (IBounds bgImage) in
              let imgHeight := Dy (IBounds bgImage) in
              match choosePlacement imgWidth imgHeight
                      (drawX env) (drawY env) with
              | Returns (positionX, positionY) =>
                  match GenerateRandomPuzzleShape (drawShape env) with
                  | Returns puzzleShape =>
                      match GenerateCaptchaImages
                              bgImage positionX positionY puzzleShape with
                      | Returns (bgWithHole, sliderPiece) =>
                          let scaledPositionX :=
                            scaled 350 imgWidth positionX in
                          let scaledPositionY :=
                            scaled 200 imgHeight positionY in
                          let id := newID env in
                          let captchaData :=
                            mkData id scaledPositionX scaledPositionY 0 in
                          (Returns (mkCaptcha id bgWithHole sliderPiece
                                              scaledPositionY),
                           Set_ store (now env) id captchaData)
                      | Fails e =>
                          (Fails ("failed to generate captcha images: "
                                  +:+ e), store)
                      | Panics => (Panics, store)
                      end
                  | Fails e => (Fails e, store)
                  | Panics => (Panics, store)
                  end
              | Fails e => (Fails e, store)
              | Panics => (Panics, store)
              end
          | Fails e =>
              (Fails ("failed to download background image: " +:+ e), store)
          | Panics => (Panics, store)
          end
      end
  | Fails e => (Fails e, store)
  | Panics => (Panics, store)
  end.

End WithWorld.

End Legacy.

(* ===================================================================== *)
(** ** handler.go: the two handlers *)

Module Handler.
Import Store Slider Service.

(** [VerifyCaptchaRequest]. *)
Record VerifyCaptchaRequest : Type := mkRequest {
  ReqID : string;
  ReqX : string
}.

(** The field ["data"] of a response body. *)
Inductive Payload : Type :=
  | NoData
  | SuccessData (success : bool)
  | CaptchaPayload (id background slider : string) (positionY : Z).

(** What [c.JSON(status, gin.H{...})] sends: the HTTP status, and the
    fields ["code"], ["message"] and ["data"] of the body. *)
Record Response : Type := mkResponse {
  Status : Z;
  Code : Z;
  Message : string;
  Data_ : Payload
}.

Section WithGin.

(** [c.ShouldBindJSON(&req)] on the body of the request, and
    [strconv.Atoi]. *)
Variable ShouldBindJSON : string -> outcome VerifyCaptchaRequest.
Variable Atoi : string -> outcome Z.
(** [captcha.Generate]. *)
Variable Generate : Env -> MemoryStore -> outcome SliderCaptcha * MemoryStore.

(** [GenerateCaptchaHandler]. *)
Definition GenerateCaptchaHandler (env : Env) (m : MemoryStore)
  : outcome Response * MemoryStore :=
  match Generate env m with
  | (Returns sliderCaptcha, m') =>
      (Returns (mkResponse 200 200 "success"
                  (CaptchaPayload (CaptchaID sliderCaptcha)
                                  (Background sliderCaptcha)
                                  (Slider sliderCaptcha)
                                  (CaptchaPositionY sliderCaptcha))),
       m')
  | (Fails e, m') =>
      (Returns (mkResponse 500 500 ("Failed to generate captcha: " +:+ e)
                  NoData),
       m')
  | (Panics, m') => (Panics, m')
  end.

(** [VerifyCaptchaHandler], on the body of the request. *)
Definition VerifyCaptchaHandler (body : string) (m : MemoryStore) (now : Z)
  : outcome Response * MemoryStore :=
  match ShouldBindJSON body with
  | Returns req =>
      match Atoi (ReqX req) with
      | Returns userX =>
          match VerifyWithTolerance m now (ReqID req) userX with
          | (Returns success, m') =>
              if success
              then (Returns (mkResponse 200 200 "Verification successful"
                               (SuccessData true)), m')
              else (Returns (mkResponse 200 200 "Verification failed"
                               (SuccessData false)), m')
          | (Fails e, m') =>
              (Returns (mkResponse 200 400 e (SuccessData false)), m')
          | (Panics, m') => (Panics, m')
          end
      | Fails _ =>
          (Returns (mkResponse 400 400 "Invalid x coordinate" NoData), m)
      | Panics => (Panics, m)
      end
  | Fails e =>
      (Returns (mkResponse 400 400 ("Invalid request: " +:+ e) NoData), m)
  | Panics => (Panics, m)
  end.

End WithGin.

End Handler.

(* ===================================================================== *)
(** ** Checking a wash on every channel value *)

Module WashCheck.
Import Hole.

(** One channel of a wash, as a function of the channel value. *)
Definition channelR (wash : RGBA.t -> RGBA.t) (v : Z) : Z :=
  RGBA.R (wash (RGBA.mk v 0 0 0)).
Definition channelG (wash : RGBA.t -> RGBA.t) (v : Z) : Z :=
  RGBA.G (wash (RGBA.mk 0 v 0 0)).
Definition channelB (wash : RGBA.t -> RGBA.t) (v : Z) : Z :=
  RGBA.B (wash (RGBA.mk 0 0 v 0)).

(** The function [f] maps every uint8 [v] into [v .. 255]. *)
Definition towardsWhite (f : Z -> Z) : bool :=
  forallb (fun v => (v <=? f v) && (f v <=? 255)) (seqZ 0 256).

End WashCheck.

(* ********************************************************************* *)
(** * Properties *)
(* ********************************************************************* *)

Module GoIntFacts.
Import GoInt.

Lemma wrap64_id z : in_int z -> wrap64 z = z.
Proof.
  unfold in_int, minInt, maxInt, wrap64. intros H.
  rewrite Z.mod_small; lia.
Qed.

Lemma wrap64_range z : in_int (wrap64 z).
Proof.
  unfold in_int, minInt, maxInt, wrap64.
  pose proof (Z.mod_pos_bound (z + 2 ^ 63) (2 ^ 64)). lia.
Qed.

End GoIntFacts.

(* ===================================================================== *)
(** ** Verification *)

Module SliderFacts.
Import Store Slider Examples.

Lemma Get_Set_fresh m now id d :
  0 <= ttl m ->
  Get (Set_ m now id d) now id
  = Some (mkData (ID d) (PositionX d) (PositionY d) now).
Proof.
  intros Httl. unfold Get, Set_; simpl.
  rewrite lookup_insert_eq. simpl.
  unfold Sub. replace (now - now) with 0 by lia.
  unfold GoInt.minInt, GoInt.maxInt.
  destruct (Z.gtb_spec (Z.max (- 2 ^ 63) (Z.min (2 ^ 63 - 1) 0)) (ttl m)); [lia | reflexivity].
Qed.

(** C1: a failed attempt leaves the session in the store.  On the store
    [oneSession] the call [Verify("s1", 10, 5)] returns [false] and the
    store is unchanged, so the next call [Verify("s1", 150, 5)] finds the
    session and returns [true] instead of the not-found error. *)
Theorem Verify_failed_attempt_keeps_session :
  Verify oneSession 1 "s1" 10 5 = (Returns false, oneSession)
  /\ fst (Verify (snd (Verify oneSession 1 "s1" 10 5)) 2 "s1" 150 5)
     = Returns true.
Proof.
  assert (E : forall now, 0 <= now <= 2 ->
              Get oneSession now "s1" = Some (mkData "s1" 150 60 0)).
  { intros now Hn. unfold Get, oneSession, Set_; simpl.
    rewrite lookup_insert_eq. simpl.
    unfold Sub, GoInt.minInt, GoInt.maxInt, Minute.
    destruct (Z.gtb_spec (Z.max (- 2 ^ 63) (Z.min (2 ^ 63 - 1) (now - 0)))
                         (5 * (60 * 1000000000))); [lia | reflexivity]. }
  assert (E1 : Verify oneSession 1 "s1" 10 5 = (Returns false, oneSession)).
  { unfold Verify. rewrite E by lia. reflexivity. }
  split; [exact E1 |].
  rewrite E1. simpl snd. unfold Verify. rewrite E by lia. reflexivity.
Qed.

(** C3: the absolute value wraps at the least int64.  For the session of
    [oneSession] (true offset 150) the submitted offset
    [150 - 2^63] differs from the true one by 2^63, yet
    [VerifyWithTolerance] accepts it. *)
Theorem VerifyWithTolerance_accepts_wrapped_difference :
  fst (VerifyWithTolerance oneSession 1 "s1" (-9223372036854775658))
  = Returns true
  /\ GoInt.in_int (-9223372036854775658)
  /\ Z.abs (-9223372036854775658 - 150) = 2 ^ 63.
Proof.
  split; [| split; [unfold GoInt.in_int, GoInt.minInt, GoInt.maxInt; lia | lia]].
  unfold VerifyWithTolerance, Verify.
  replace (Get oneSession 1 "s1") with (Some (mkData "s1" 150 60 0)).
  - reflexivity.
  - unfold Get, oneSession, Set_; simpl.
    rewrite lookup_insert_eq. reflexivity.
Qed.

(** X9: away from the wrap of [abs] the test is the intended one: on a
    session that has not expired, with both offsets 32-bit values, [Verify]
    succeeds exactly when the offsets differ by at most the tolerance. *)
Lemma Verify_in_range m now id d userX tol :
  Get m now id = Some d ->
  - 2 ^ 31 <= userX < 2 ^ 31 ->
  - 2 ^ 31 <= PositionX d < 2 ^ 31 ->
  fst (Verify m now id userX tol)
  = Returns (Z.abs (userX - PositionX d) <=? tol).
Proof.
  intros HG Hu Hp. unfold Verify. rewrite HG. simpl.
  unfold abs, GoInt.sub, GoInt.neg.
  rewrite (GoIntFacts.wrap64_id (userX - PositionX d))
    by (unfold GoInt.in_int, GoInt.minInt, GoInt.maxInt; lia).
  destruct (Z.ltb_spec (userX - PositionX d) 0).
  - rewrite GoIntFacts.wrap64_id
      by (unfold GoInt.in_int, GoInt.minInt, GoInt.maxInt; lia).
    rewrite Z.abs_neq by lia. reflexivity.
  - rewrite Z.abs_eq by lia. reflexivity.
Qed.

End SliderFacts.

(* ===================================================================== *)
(** ** Placement *)

Module PlacementFacts.
Import Placement.

(** C2: the placement step does not always return a fitting placement.
    On a canvas 140 pixels wide the window is empty without being
    inverted ([minX = maxX = 35]), so [rand.Intn(0)] panics.  On a canvas
    70 pixels wide the inverted window is widened to [18 <= x < 88]: every
    placement returned overhangs the right edge, as only [x = 0] fits. *)
Theorem choosePlacement_panics_and_overhangs :
  (forall drawX drawY, choosePlacement 140 1000 drawX drawY = Panics)
  /\ (forall drawX drawY, exists x y,
        choosePlacement 70 1000 drawX drawY = Returns (x, y)
        /\ 70 - PuzzleWidth < x).
Proof.
  split.
  - intros drawX drawY. unfold choosePlacement.
    replace (windowX 140) with (35, 35) by (vm_compute; reflexivity).
    destruct (windowY 1000) as [minY maxY]. reflexivity.
  - intros drawX drawY. unfold choosePlacement.
    replace (windowX 70) with (18, 88) by (vm_compute; reflexivity).
    replace (windowY 1000) with (350, 580) by (vm_compute; reflexivity).
    unfold Intn. simpl Z.leb. cbv iota.
    eexists _, _. split; [reflexivity |].
    pose proof (Z.mod_pos_bound drawX (88 - 18)).
    unfold PuzzleWidth. lia.
Qed.

End PlacementFacts.

Module ImgFacts.
Import Img.

Lemma In_true x y r :
  In_ x y r = true <-> MinX r <= x < MaxX r /\ MinY r <= y < MaxY r.
Proof. unfold In_. rewrite !andb_true_iff, !Z.leb_le, !Z.ltb_lt. lia. Qed.

Lemma In_origin x y w h :
  In_ x y (mkRect 0 0 w h) = (0 <=? x) && (x <? w) && (0 <=? y) && (y <? h).
Proof. reflexivity. Qed.

Lemma Rect_origin w h : 0 <= w -> 0 <= h -> Rect 0 0 w h = mkRect 0 0 w h.
Proof.
  intros Hw Hh. unfold Rect.
  destruct (Z.gtb_spec 0 w); [lia |]. destruct (Z.gtb_spec 0 h); [lia |].
  reflexivity.
Qed.

Lemma Bounds_SetRGBA p x y c : Bounds (SetRGBA p x y c) = Bounds p.
Proof. unfold SetRGBA. destruct (In_ x y (Bounds p)); reflexivity. Qed.

Lemma RGBAAt_SetRGBA p x y c x' y' :
  RGBAAt (SetRGBA p x y c) x' y'
  = if (x' =? x) && (y' =? y) && In_ x y (Bounds p) then c
    else RGBAAt p x' y'.
Proof.
  unfold SetRGBA, RGBAAt.
  destruct (In_ x y (Bounds p)) eqn:Hin; simpl.
  - destruct ((x' =? x) && (y' =? y)) eqn:E; simpl.
    + apply andb_true_iff in E as [->%Z.eqb_eq ->%Z.eqb_eq].
      rewrite Hin. reflexivity.
    + reflexivity.
  - rewrite andb_false_r. reflexivity.
Qed.

Lemma Bounds_DrawSrc dst src : Bounds (DrawSrc dst src) = Bounds dst.
Proof. reflexivity. Qed.

Lemma RGBAAt_DrawSrc_origin dst src w h x y :
  Bounds dst = mkRect 0 0 w h -> Bounds src = mkRect 0 0 w h ->
  RGBAAt (DrawSrc dst src) x y = RGBAAt src x y.
Proof.
  intros Hd Hs. unfold RGBAAt, DrawSrc; simpl. rewrite Hd, Hs; simpl.
  rewrite !Z.sub_0_r.
  destruct (In_ x y (mkRect 0 0 w h)); reflexivity.
Qed.

Lemma RGBAAt_NewRGBA r x y : RGBAAt (NewRGBA r) x y = RGBA.zero.
Proof. unfold RGBAAt, NewRGBA; simpl. destruct (In_ x y r); reflexivity. Qed.

Lemma RGBAAt_outside p x y : In_ x y (Bounds p) = false -> RGBAAt p x y = RGBA.zero.
Proof. unfold RGBAAt. intros ->. reflexivity. Qed.

Lemma ABounds_SetAlpha m x y a : ABounds (SetAlpha m x y a) = ABounds m.
Proof. unfold SetAlpha. destruct (In_ x y (ABounds m)); reflexivity. Qed.

Lemma AlphaAt_SetAlpha m x y a x' y' :
  AlphaAt (SetAlpha m x y a) x' y'
  = if (x' =? x) && (y' =? y) && In_ x y (ABounds m) then a
    else AlphaAt m x' y'.
Proof.
  unfold SetAlpha, AlphaAt.
  destruct (In_ x y (ABounds m)) eqn:Hin; simpl.
  - destruct ((x' =? x) && (y' =? y)) eqn:E; simpl.
    + apply andb_true_iff in E as [->%Z.eqb_eq ->%Z.eqb_eq].
      rewrite Hin. reflexivity.
    + reflexivity.
  - rewrite andb_false_r. reflexivity.
Qed.

End ImgFacts.

Module LoopFacts.
Import Img Loop ImgFacts.

Lemma elem_of_grid a b y0 y1 x0 x1 :
  (a, b) ∈ grid y0 y1 x0 x1 <-> y0 <= b < y1 /\ x0 <= a < x1.
Proof.
  unfold grid. rewrite list_elem_of_bind. split.
  - intros (y & Hin & Hy). apply list_elem_of_bind in Hin as (x & Hin & Hx).
    apply list_elem_of_singleton in Hin. injection Hin as -> ->.
    apply elem_of_seqZ in Hx, Hy. lia.
  - intros [Hb Ha]. exists b. split; [| apply elem_of_seqZ; lia].
    apply list_elem_of_bind. exists a. split; [apply list_elem_of_singleton; reflexivity |].
    apply elem_of_seqZ; lia.
Qed.

Lemma NoDup_grid y0 y1 x0 x1 : NoDup (grid y0 y1 x0 x1).
Proof.
  unfold grid. apply NoDup_bind; [| | apply NoDup_seqZ].
  - intros a1 a2 [x y] _ _ H1 H2.
    apply list_elem_of_bind in H1 as (? & H1 & _), H2 as (? & H2 & _).
    apply list_elem_of_singleton in H1, H2. congruence.
  - intros y _. apply NoDup_bind; [| | apply NoDup_seqZ].
    + intros a1 a2 p _ _ H1 H2.
      apply list_elem_of_singleton in H1, H2. congruence.
    + intros x _. apply NoDup_singleton.
Qed.

Lemma for_each_cons {S} p l (body : Z -> Z -> S -> S) s :
  for_each (p :: l) body s = for_each l body (body (fst p) (snd p) s).
Proof. reflexivity. Qed.

Lemma for_each_pointwise bnd x y l W V body :
  NoDup l ->
  forall l0, (forall p, p ∈ l -> p ∈ l0) -> pointwise bnd x y l0 W V body ->
  forall s, Bounds s = bnd ->
  Bounds (for_each l body s) = bnd
  /\ forall tx ty,
      RGBAAt (for_each l body s) tx ty
      = if bool_decide ((tx - x, ty - y) ∈ l) && W (tx - x) (ty - y)
           && In_ tx ty bnd
        then V (tx - x) (ty - y) (RGBAAt s tx ty)
        else RGBAAt s tx ty.
Proof.
  intros Hnd l0 Hsub Hpw. induction Hnd as [| [px py] l Hnotin Hnd IH]; intros s Hb.
  - split; [exact Hb | intros; reflexivity].
  - rewrite for_each_cons. simpl fst; simpl snd.
    assert (Hb' : Bounds (body px py s) = bnd).
    { rewrite (Hpw px py s) by (auto using list_elem_of_here).
      destruct (W px py); [rewrite Bounds_SetRGBA |]; exact Hb. }
    destruct (IH (fun p Hp => Hsub p (list_elem_of_further _ _ _ Hp)) _ Hb') as [IHb IHp].
    split; [exact IHb |]. intros tx ty. rewrite IHp.
    rewrite (Hpw px py s) by (auto using list_elem_of_here).
    destruct (decide ((tx - x, ty - y) = (px, py))) as [E | NE].
    + injection E as <- <-.
      rewrite (bool_decide_eq_false_2 _ Hnotin).
      rewrite (bool_decide_eq_true_2 _ (list_elem_of_here _ _)). simpl.
      replace (x + (tx - x)) with tx by lia. replace (y + (ty - y)) with ty by lia.
      destruct (W (tx - x) (ty - y)); [| reflexivity]. simpl.
      rewrite RGBAAt_SetRGBA, !Z.eqb_refl, Hb. simpl.
      destruct (In_ tx ty bnd); reflexivity.
    + assert (Hother : RGBAAt (if W px py
                then SetRGBA s (x + px) (y + py) (V px py (RGBAAt s (x + px) (y + py)))
                else s) tx ty = RGBAAt s tx ty).
      { destruct (W px py); [| reflexivity]. rewrite RGBAAt_SetRGBA.
        destruct ((tx =? x + px) && (ty =? y + py)) eqn:E; [| reflexivity].
        apply andb_true_iff in E as [E1%Z.eqb_eq E2%Z.eqb_eq].
        exfalso. apply NE. f_equal; lia. }
      rewrite Hother.
      assert (Hiff : bool_decide ((tx - x, ty - y) ∈ (px, py) :: l)
                     = bool_decide ((tx - x, ty - y) ∈ l)).
      { apply bool_decide_ext. rewrite elem_of_cons. split; [intros [? | ?]; [contradiction | assumption] | auto]. }
      rewrite Hiff. reflexivity.
Qed.

End LoopFacts.

Module GoIntAddFacts.
Import GoInt.
Lemma add_cases x d :
  in_int x -> - 2 ^ 62 <= d <= 2 ^ 62 ->
  (minInt <= x + d <= maxInt /\ add x d = x + d)
  \/ (maxInt < x + d /\ add x d = x + d - 2 ^ 64)
  \/ (x + d < minInt /\ add x d = x + d + 2 ^ 64).
Proof.
  unfold in_int, minInt, maxInt, add, wrap64. intros Hx Hd.
  destruct (Z_lt_le_dec (x + d) (- 2 ^ 63)) as [Hlo | Hlo].
  - right; right. split; [lia |].
    replace (x + d + 2 ^ 63) with ((x + d + 2 ^ 63 + 2 ^ 64) + (-1) * 2 ^ 64) by lia.
    rewrite Z_mod_plus_full, Z.mod_small; lia.
  - destruct (Z_lt_le_dec (2 ^ 63 - 1) (x + d)) as [Hhi | Hhi].
    + right; left. split; [lia |].
      replace (x + d + 2 ^ 63) with ((x + d + 2 ^ 63 - 2 ^ 64) + 1 * 2 ^ 64) by lia.
      rewrite Z_mod_plus_full, Z.mod_small; lia.
    + left. split; [lia |]. rewrite Z.mod_small; lia.
Qed.

Lemma add_small x d :
  - 2 ^ 62 <= x < 2 ^ 62 -> - 2 ^ 62 <= d <= 2 ^ 62 -> add x d = x + d.
Proof.
  intros Hx Hd. unfold add. apply GoIntFacts.wrap64_id.
  unfold in_int, minInt, maxInt. lia.
Qed.
End GoIntAddFacts.

Module HoleFacts.
Import Img Loop Hole ImgFacts LoopFacts.

#[local] Arguments for_each : simpl never.
#[local] Arguments frame : simpl never.

Lemma inFrame_true a b :
  inFrame a b = true <-> 0 <= a < 70 /\ 0 <= b < 70.
Proof.
  unfold inFrame, PuzzleWidth, PuzzleHeight.
  rewrite !andb_true_iff, !Z.leb_le, !Z.ltb_lt. lia.
Qed.

Lemma elem_of_frame a b : (a, b) ∈ frame <-> inFrame a b = true.
Proof.
  unfold frame. rewrite elem_of_grid, inFrame_true.
  unfold PuzzleWidth, PuzzleHeight. lia.
Qed.

Lemma bool_decide_frame a b : bool_decide ((a, b) ∈ frame) = inFrame a b.
Proof.
  destruct (inFrame a b) eqn:E.
  - apply bool_decide_eq_true_2, elem_of_frame, E.
  - apply bool_decide_eq_false_2. rewrite elem_of_frame, E. discriminate.
Qed.

(** The target of a mask pixel: either the plain sum, or off the canvas. *)
Lemma target_cases w h x y px py (s : RGBAImage) :
  atOrigin w h s -> GoInt.in_int x -> GoInt.in_int y ->
  inFrame px py = true ->
  offCanvas s (GoInt.add x px) (GoInt.add y py)
  = negb (In_ (x + px) (y + py) (mkRect 0 0 w h))
  /\ (In_ (x + px) (y + py) (mkRect 0 0 w h) = true ->
      GoInt.add x px = x + px /\ GoInt.add y py = y + py).
Proof.
  intros (Hb & Hw & Hh) Hx Hy Hf. apply inFrame_true in Hf as [Hpx Hpy].
  unfold offCanvas. rewrite Hb. unfold Dx, Dy; simpl. rewrite !Z.sub_0_r.
  rewrite In_origin.
  unfold GoInt.in_int, GoInt.minInt, GoInt.maxInt in *.
  destruct (GoIntAddFacts.add_cases x px Hx ltac:(lia)) as [[Hr ->] | [[Hr ->] | [Hr ->]]];
  destruct (GoIntAddFacts.add_cases y py Hy ltac:(lia)) as [[Hr' ->] | [[Hr' ->] | [Hr' ->]]];
  unfold GoInt.minInt, GoInt.maxInt in *;
  (split; [| rewrite !andb_true_iff, !Z.leb_le, !Z.ltb_lt; lia]);
  repeat match goal with
         | |- context [?a <? ?b] => destruct (Z.ltb_spec a b)
         | |- context [?a >=? ?b] => destruct (Z.geb_spec a b)
         | |- context [?a <=? ?b] => destruct (Z.leb_spec a b)
         end; simpl; try reflexivity; lia.
Qed.

Section Passes.
Variables (w h x y : Z) (mask : AlphaImage).
Hypothesis Hw : 0 <= w <= GoInt.maxInt.
Hypothesis Hh : 0 <= h <= GoInt.maxInt.
Hypothesis Hx : GoInt.in_int x.
Hypothesis Hy : GoInt.in_int y.

Let bnd := mkRect 0 0 w h.

Lemma atOrigin_intro s : Bounds s = bnd -> atOrigin w h s.
Proof. intros Hb. split; [exact Hb | split; assumption]. Qed.

Lemma washBody_pointwise wash :
  pointwise bnd x y frame
    (fun px py => (AlphaAt mask px py >? 0) && In_ (x + px) (y + py) bnd)
    (fun _ _ v => wash v)
    (washBody wash mask x y).
Proof.
  intros px py s Hin Hb. apply elem_of_frame in Hin.
  destruct (target_cases w h x y px py s (atOrigin_intro s Hb) Hx Hy Hin) as [Hoff Heq].
  unfold washBody. rewrite Hoff. fold bnd in Heq |- *.
  destruct (In_ (x + px) (y + py) bnd) eqn:E; simpl.
  - destruct (Heq eq_refl) as [-> ->]. rewrite andb_true_r.
    destruct (AlphaAt mask px py >? 0); reflexivity.
  - rewrite andb_false_r. reflexivity.
Qed.

Lemma washLoop_pixels wash s :
  Bounds s = bnd ->
  samePixels (washLoop wash mask x y s) (washed wash mask x y s).
Proof.
  intros Hb.
  destruct (for_each_pointwise bnd x y frame _ _ _ (NoDup_grid _ _ _ _) frame
              (fun p Hp => Hp) (washBody_pointwise wash) s Hb) as [Hb' Hp].
  split; [unfold washLoop; rewrite Hb'; simpl; symmetry; exact Hb |].
  intros tx ty. unfold washLoop. rewrite Hp. rewrite bool_decide_frame.
  unfold washed, RGBAAt at 3; simpl. rewrite Hb.
  unfold inHole. fold bnd.
  replace (x + (tx - x)) with tx by lia. replace (y + (ty - y)) with ty by lia.
  destruct (In_ tx ty bnd) eqn:E.
  - rewrite !andb_true_r. reflexivity.
  - rewrite !andb_false_r. unfold RGBAAt. rewrite Hb. fold bnd. rewrite E. reflexivity.
Qed.


Lemma inCanvas_off (s : RGBAImage) tx ty :
  (tx >=? 0) && (tx <? Dx (Bounds s)) && (ty >=? 0) && (ty <? Dy (Bounds s))
  = negb (offCanvas s tx ty).
Proof.
  unfold offCanvas.
  destruct (Z.geb_spec tx 0), (Z.ltb_spec tx 0); try lia;
  destruct (Z.ltb_spec tx (Dx (Bounds s))), (Z.geb_spec tx (Dx (Bounds s))); try lia;
  destruct (Z.geb_spec ty 0), (Z.ltb_spec ty 0); try lia;
  destruct (Z.ltb_spec ty (Dy (Bounds s))), (Z.geb_spec ty (Dy (Bounds s))); try lia;
  reflexivity.
Qed.

Lemma addHoleBorderBody_pointwise :
  pointwise bnd x y frame
    (fun px py => (AlphaAt mask px py >? 0) && isHoleEdge px py mask
                  && In_ (x + px) (y + py) bnd)
    (fun _ _ _ => holeBorderColor)
    (addHoleBorderBody mask x y).
Proof.
  intros px py s Hin Hb. apply elem_of_frame in Hin.
  destruct (target_cases w h x y px py s (atOrigin_intro s Hb) Hx Hy Hin) as [Hoff Heq].
  unfold addHoleBorderBody. rewrite inCanvas_off, Hoff, negb_involutive.
  fold bnd in Heq |- *.
  destruct (AlphaAt mask px py >? 0); [| reflexivity].
  destruct (isHoleEdge px py mask); [| reflexivity]. simpl.
  destruct (In_ (x + px) (y + py) bnd) eqn:E; [| reflexivity].
  destruct (Heq eq_refl) as [-> ->]. reflexivity.
Qed.

Lemma addHoleBorder_pixels s :
  Bounds s = bnd ->
  samePixels (addHoleBorder mask x y s) (bordered mask x y s).
Proof.
  intros Hb.
  destruct (for_each_pointwise bnd x y frame _ _ _ (NoDup_grid _ _ _ _) frame
              (fun p Hp => Hp) addHoleBorderBody_pointwise s Hb) as [Hb' Hp].
  split; [unfold addHoleBorder; rewrite Hb'; simpl; symmetry; exact Hb |].
  intros tx ty. unfold addHoleBorder. rewrite Hp. rewrite bool_decide_frame.
  unfold bordered, RGBAAt at 2; simpl. rewrite Hb.
  unfold inHole. fold bnd.
  replace (x + (tx - x)) with tx by lia. replace (y + (ty - y)) with ty by lia.
  destruct (In_ tx ty bnd) eqn:E.
  - rewrite !andb_true_r.
    destruct (inFrame (tx - x) (ty - y)), (AlphaAt mask (tx - x) (ty - y) >? 0),
      (isHoleEdge (tx - x) (ty - y) mask); reflexivity.
  - rewrite !andb_false_r. unfold RGBAAt. rewrite Hb. fold bnd. rewrite E. reflexivity.
Qed.

Lemma blurHoleBody_pointwise blurred :
  pointwise bnd x y frame
    (fun px py => (AlphaAt mask px py >? 0) && In_ (x + px) (y + py) bnd)
    (fun px py _ => blurColor (holeTaps blurred w h (x + px) (y + py)))
    (blurHoleBody blurred mask x y).
Proof.
  intros px py s Hin Hb. apply elem_of_frame in Hin.
  destruct (target_cases w h x y px py s (atOrigin_intro s Hb) Hx Hy Hin) as [Hoff Heq].
  unfold blurHoleBody. rewrite Hoff. fold bnd in Heq |- *.
  destruct (AlphaAt mask px py >? 0); [| reflexivity]. simpl.
  destruct (In_ (x + px) (y + py) bnd) eqn:E; [| reflexivity]. simpl.
  destruct (Heq eq_refl) as [-> ->]. rewrite Hb. unfold bnd, Dx, Dy; simpl.
  rewrite !Z.sub_0_r. reflexivity.
Qed.

Lemma fold_left_pointwise {A B} (f g : A -> B -> A) l a :
  (forall a b, f a b = g a b) -> fold_left f l a = fold_left g l a.
Proof.
  intros E. revert a. induction l as [| b l IH]; intros a; simpl; [reflexivity |].
  rewrite E. apply IH.
Qed.

Lemma holeTaps_ext b1 b2 w' h' tx ty :
  (forall qx qy, RGBAAt b1 qx qy = RGBAAt b2 qx qy) ->
  holeTaps b1 w' h' tx ty = holeTaps b2 w' h' tx ty.
Proof.
  intros E. unfold holeTaps. apply fold_left_pointwise.
  intros a k. rewrite E. reflexivity.
Qed.

Lemma blurHoleLoop_pixels blurred s :
  Bounds s = bnd -> samePixels blurred s ->
  samePixels (for_each frame (blurHoleBody blurred mask x y) s)
             (blurredOnce mask x y s).
Proof.
  intros Hb [_ Hsame].
  destruct (for_each_pointwise bnd x y frame _ _ _ (NoDup_grid _ _ _ _) frame
              (fun p Hp => Hp) (blurHoleBody_pointwise blurred) s Hb) as [Hb' Hp].
  split; [rewrite Hb'; simpl; symmetry; exact Hb |].
  intros tx ty. rewrite Hp. rewrite bool_decide_frame.
  unfold blurredOnce, RGBAAt at 2; simpl. rewrite Hb.
  unfold inHole. fold bnd.
  replace (x + (tx - x)) with tx by lia. replace (y + (ty - y)) with ty by lia.
  replace (Dx bnd) with w by (unfold bnd, Dx; simpl; lia).
  replace (Dy bnd) with h by (unfold bnd, Dy; simpl; lia).
  rewrite (holeTaps_ext blurred s w h tx ty Hsame).
  destruct (In_ tx ty bnd) eqn:E.
  - rewrite !andb_true_r. reflexivity.
  - rewrite !andb_false_r. unfold RGBAAt. rewrite Hb. fold bnd. rewrite E. reflexivity.
Qed.

End Passes.

(** [samePixels] is an equivalence, and the passes respect it. *)
Lemma samePixels_refl a : samePixels a a.
Proof. split; reflexivity. Qed.

Lemma samePixels_sym a b : samePixels a b -> samePixels b a.
Proof. intros [H1 H2]. split; [symmetry; exact H1 | intros; symmetry; apply H2]. Qed.

Lemma samePixels_trans a b c :
  samePixels a b -> samePixels b c -> samePixels a c.
Proof.
  intros [H1 H2] [H3 H4]. split; [congruence | intros; rewrite H2; apply H4].
Qed.

Lemma RGBAAt_mk bnd f tx ty :
  RGBAAt (mkRGBAImage bnd f) tx ty = if In_ tx ty bnd then f tx ty else RGBA.zero.
Proof. reflexivity. Qed.

Lemma Bounds_washed wash mask x y s :
  Bounds (washed wash mask x y s) = Bounds s.
Proof. reflexivity. Qed.

Lemma Bounds_bordered mask x y s : Bounds (bordered mask x y s) = Bounds s.
Proof. reflexivity. Qed.

Lemma Bounds_blurredOnce mask x y s :
  Bounds (blurredOnce mask x y s) = Bounds s.
Proof. reflexivity. Qed.

Lemma washed_ext wash mask x y a b :
  samePixels a b -> samePixels (washed wash mask x y a) (washed wash mask x y b).
Proof.
  intros [Hb Hp]. split; [exact Hb |]. intros tx ty.
  unfold washed. rewrite !RGBAAt_mk, Hb, !Hp. reflexivity.
Qed.

Lemma bordered_ext mask x y a b :
  samePixels a b -> samePixels (bordered mask x y a) (bordered mask x y b).
Proof.
  intros [Hb Hp]. split; [exact Hb |]. intros tx ty.
  unfold bordered. rewrite !RGBAAt_mk, Hb, !Hp. reflexivity.
Qed.

Lemma blurredOnce_ext mask x y a b :
  samePixels a b ->
  samePixels (blurredOnce mask x y a) (blurredOnce mask x y b).
Proof.
  intros [Hb Hp]. split; [exact Hb |]. intros tx ty.
  unfold blurredOnce. rewrite !RGBAAt_mk, Hb, !Hp.
  rewrite (holeTaps_ext a b _ _ tx ty Hp). reflexivity.
Qed.

Lemma DrawSrc_same w h dst src :
  Bounds dst = mkRect 0 0 w h -> Bounds src = mkRect 0 0 w h ->
  samePixels (DrawSrc dst src) src.
Proof.
  intros Hd Hs. split; [simpl; congruence |].
  intros tx ty. apply (RGBAAt_DrawSrc_origin dst src w h); assumption.
Qed.

Section CutHole.
Variables (w h x y : Z) (mask : AlphaImage).
Hypothesis Hw : 0 <= w <= GoInt.maxInt.
Hypothesis Hh : 0 <= h <= GoInt.maxInt.
Hypothesis Hx : GoInt.in_int x.
Hypothesis Hy : GoInt.in_int y.

Lemma blurHoleIteration_pixels result blurred :
  Bounds result = mkRect 0 0 w h -> samePixels blurred result ->
  samePixels (fst (blurHoleIteration mask x y (result, blurred)))
             (blurredOnce mask x y result)
  /\ samePixels (snd (blurHoleIteration mask x y (result, blurred)))
                (fst (blurHoleIteration mask x y (result, blurred))).
Proof.
  intros Hb Hsame. unfold blurHoleIteration. cbn [fst snd].
  pose proof (blurHoleLoop_pixels w h x y mask Hw Hh Hx Hy blurred result Hb Hsame) as H1.
  split; [exact H1 |].
  destruct Hsame as [Hbb _]. destruct H1 as [Hb1 _].
  rewrite Bounds_blurredOnce in Hb1.
  apply (DrawSrc_same w h); [rewrite Hbb; exact Hb | rewrite Hb1; exact Hb].
Qed.

Lemma applyGaussianBlurToHole_pixels result :
  Bounds result = mkRect 0 0 w h ->
  samePixels (applyGaussianBlurToHole mask x y result)
             (blurredOnce mask x y (blurredOnce mask x y result)).
Proof.
  intros Hb. unfold applyGaussianBlurToHole. cbv zeta.
  assert (H0 : samePixels (DrawSrc (NewRGBA (Bounds result)) result) result).
  { apply (DrawSrc_same w h); [cbn [NewRGBA Bounds] |]; exact Hb. }
  destruct (blurHoleIteration_pixels result _ Hb H0) as [H1 H1'].
  destruct (blurHoleIteration mask x y (result, DrawSrc (NewRGBA (Bounds result)) result))
    as [result1 blurred1] eqn:E1. cbn [fst snd] in H1, H1'.
  assert (Hb1 : Bounds result1 = mkRect 0 0 w h).
  { destruct H1 as [-> _]. rewrite Bounds_blurredOnce. exact Hb. }
  destruct (blurHoleIteration_pixels result1 blurred1 Hb1 H1') as [H2 _].
  eapply samePixels_trans; [exact H2 |].
  apply blurredOnce_ext, H1.
Qed.

Theorem cutHole_pixels wash s :
  Bounds s = mkRect 0 0 w h ->
  samePixels (cutHole wash mask x y s) (cutHolePixels wash mask x y s).
Proof.
  intros Hb. unfold cutHole, cutHolePixels.
  pose proof (washLoop_pixels w h x y mask Hw Hh Hx Hy wash s Hb) as H1.
  assert (Hb1 : Bounds (washLoop wash mask x y s) = mkRect 0 0 w h).
  { destruct H1 as [-> _]. rewrite Bounds_washed. exact Hb. }
  pose proof (addHoleBorder_pixels w h x y mask Hw Hh Hx Hy _ Hb1) as H2.
  assert (Hb2 : Bounds (addHoleBorder mask x y (washLoop wash mask x y s))
                = mkRect 0 0 w h).
  { destruct H2 as [-> _]. rewrite Bounds_bordered. exact Hb1. }
  eapply samePixels_trans; [apply applyGaussianBlurToHole_pixels, Hb2 |].
  apply blurredOnce_ext, blurredOnce_ext.
  eapply samePixels_trans; [exact H2 |]. apply bordered_ext, H1.
Qed.

Theorem cutHoleNoBorder_pixels wash s :
  Bounds s = mkRect 0 0 w h ->
  samePixels (cutHoleNoBorder wash mask x y s)
             (cutHoleNoBorderPixels wash mask x y s).
Proof.
  intros Hb. unfold cutHoleNoBorder, cutHoleNoBorderPixels.
  pose proof (washLoop_pixels w h x y mask Hw Hh Hx Hy wash s Hb) as H1.
  assert (Hb1 : Bounds (washLoop wash mask x y s) = mkRect 0 0 w h).
  { destruct H1 as [-> _]. rewrite Bounds_washed. exact Hb. }
  eapply samePixels_trans; [apply applyGaussianBlurToHole_pixels, Hb1 |].
  apply blurredOnce_ext, blurredOnce_ext, H1.
Qed.

End CutHole.

(** Outside the window of the placement nothing is touched. *)
Lemma inHole_outside mask bnd x y tx ty :
  ~ (x <= tx < x + PuzzleWidth /\ y <= ty < y + PuzzleHeight) ->
  inHole mask bnd x y tx ty = false.
Proof.
  intros Hout. unfold inHole.
  destruct (inFrame (tx - x) (ty - y)) eqn:E; [| reflexivity].
  apply inFrame_true in E. exfalso. apply Hout.
  unfold PuzzleWidth, PuzzleHeight. lia.
Qed.

Lemma RGBAAt_eta s tx ty :
  (if In_ tx ty (Bounds s) then RGBAAt s tx ty else RGBA.zero) = RGBAAt s tx ty.
Proof. unfold RGBAAt. destruct (In_ tx ty (Bounds s)); reflexivity. Qed.

Lemma cutHolePixels_outside wash mask x y s tx ty :
  ~ (x <= tx < x + PuzzleWidth /\ y <= ty < y + PuzzleHeight) ->
  RGBAAt (cutHolePixels wash mask x y s) tx ty = RGBAAt s tx ty.
Proof.
  intros Hout. unfold cutHolePixels, blurredOnce, bordered, washed.
  repeat (rewrite RGBAAt_mk; simpl Bounds;
          rewrite (inHole_outside _ _ _ _ _ _ Hout); simpl andb; cbv iota).
  rewrite !RGBAAt_eta. reflexivity.
Qed.

End HoleFacts.

Module HoleHeapFacts.
Import Img Loop Hole ImgFacts LoopFacts HoleFacts.

#[local] Arguments for_each : simpl never.
#[local] Arguments frame : simpl never.

(** What a call that allocates [result], copies the canvas into it and
    runs [pass] on it leaves in the heap. *)
Lemma hole_heap (pass : RGBAImage -> RGBAImage) (h : heap) (bgImage : loc)
  (canvas : RGBAImage) :
  h !! bgImage = Some canvas ->
  let result := fresh (dom h) in
  let h1 := <[ result := NewRGBA (Bounds canvas) ]> h in
  let h' := alter pass result (alter (fun r => DrawSrc r canvas) result h1) in
  result <> bgImage
  /\ h !! result = None
  /\ h' !! bgImage = Some canvas
  /\ (forall l, l <> result -> h' !! l = h !! l)
  /\ h' !! result = Some (pass (DrawSrc (NewRGBA (Bounds canvas)) canvas)).
Proof.
  intros Hbg. intros result h1 h'. unfold heap, loc in *.
  assert (Hfresh : result ∉ dom h) by apply is_fresh.
  assert (Hne : result <> bgImage).
  { intros E. apply Hfresh. rewrite E. eapply elem_of_dom_2, Hbg. }
  assert (Hother : forall l, l <> result -> h' !! l = h !! l).
  { intros l Hl. unfold h', h1.
    rewrite lookup_alter_ne by congruence.
    rewrite lookup_alter_ne by congruence.
    rewrite lookup_insert_ne by congruence. reflexivity. }
  split; [exact Hne |]. split; [apply not_elem_of_dom_1, Hfresh |].
  split; [rewrite Hother by congruence; exact Hbg |].
  split; [exact Hother |].
  unfold h', h1. rewrite lookup_alter_eq, lookup_alter_eq, lookup_insert_eq. reflexivity.
Qed.

Lemma CreatePuzzleHoleWithMask_eq (h : heap) bgImage canvas x y mask :
  h !! bgImage = Some canvas ->
  CreatePuzzleHoleWithMask bgImage x y mask h
  = Returns (fresh (dom h),
             alter (cutHole washPixel mask x y) (fresh (dom h))
               (alter (fun r => DrawSrc r canvas) (fresh (dom h))
                  (<[ fresh (dom h) := NewRGBA (Bounds canvas) ]> h))).
Proof.
  intros Hbg. unfold CreatePuzzleHoleWithMask. rewrite Hbg. reflexivity.
Qed.

Lemma CreatePuzzleHoleNoBorder_eq (h : heap) bgImage canvas x y mask :
  h !! bgImage = Some canvas ->
  CreatePuzzleHoleNoBorder bgImage x y mask h
  = Returns (fresh (dom h),
             alter (cutHoleNoBorder washPixel mask x y) (fresh (dom h))
               (alter (fun r => DrawSrc r canvas) (fresh (dom h))
                  (<[ fresh (dom h) := NewRGBA (Bounds canvas) ]> h))).
Proof.
  intros Hbg. unfold CreatePuzzleHoleNoBorder. rewrite Hbg. reflexivity.
Qed.

(** C9, as the code has it: on a canvas whose bounds start at the origin,
    [CreatePuzzleHoleWithMask] returns a new buffer; the canvas and every
    other buffer of the heap are as before, and outside the 70x70 window
    of the placement the result repeats the canvas. *)
Theorem CreatePuzzleHoleWithMask_frame (h : heap) (bgImage : loc)
  (canvas : RGBAImage) (w hh x y : Z) (mask : AlphaImage) :
  h !! bgImage = Some canvas ->
  atOrigin w hh canvas ->
  GoInt.in_int x -> GoInt.in_int y ->
  exists result h' res,
    CreatePuzzleHoleWithMask bgImage x y mask h = Returns (result, h')
    /\ h !! result = None
    /\ h' !! bgImage = Some canvas
    /\ (forall l, l <> result -> h' !! l = h !! l)
    /\ h' !! result = Some res
    /\ Bounds res = Bounds canvas
    /\ forall tx ty,
         ~ (x <= tx < x + PuzzleWidth /\ y <= ty < y + PuzzleHeight) ->
         RGBAAt res tx ty = RGBAAt canvas tx ty.
Proof.
  intros Hbg (Hb & Hw & Hh) Hx Hy.
  destruct (hole_heap (cutHole washPixel mask x y) h bgImage canvas Hbg)
    as (Hne & Hnone & Hkeep & Hother & Hres).
  eexists _, _, _. split.
  { apply (CreatePuzzleHoleWithMask_eq _ _ _ _ _ _ Hbg). }
  split; [exact Hnone |]. split; [exact Hkeep |]. split; [exact Hother |].
  split; [exact Hres |].
  set (s0 := DrawSrc (NewRGBA (Bounds canvas)) canvas).
  assert (Hb0 : Bounds s0 = mkRect 0 0 w hh) by exact Hb.
  destruct (cutHole_pixels w hh x y mask Hw Hh Hx Hy washPixel s0 Hb0) as [Hbc Hpc].
  split.
  - rewrite Hbc. unfold cutHolePixels. rewrite !Bounds_blurredOnce, Bounds_bordered, Bounds_washed. reflexivity.
  - intros tx ty Hout. rewrite Hpc, cutHolePixels_outside by exact Hout.
    apply (RGBAAt_DrawSrc_origin _ _ w hh); [exact Hb | exact Hb].
Qed.

Lemma CreatePuzzleHoleWithMask_frame_witness :
  exists result h' res,
    CreatePuzzleHoleWithMask 1%positive 140 65 Examples.trapezoidMask Examples.canvasHeap
    = Returns (result, h')
    /\ Examples.canvasHeap !! result = None
    /\ h' !! 1%positive = Some Examples.plainCanvas
    /\ (forall l, l <> result -> h' !! l = Examples.canvasHeap !! l)
    /\ h' !! result = Some res
    /\ Bounds res = Bounds Examples.plainCanvas
    /\ forall tx ty,
         ~ (140 <= tx < 140 + PuzzleWidth /\ 65 <= ty < 65 + PuzzleHeight) ->
         RGBAAt res tx ty = RGBAAt Examples.plainCanvas tx ty.
Proof.
  apply (CreatePuzzleHoleWithMask_frame Examples.canvasHeap 1%positive
           Examples.plainCanvas 350 200 140 65 Examples.trapezoidMask).
  - reflexivity.
  - split; [reflexivity |].
    unfold GoInt.maxInt. split; split; (reflexivity || discriminate).
  - unfold GoInt.in_int, GoInt.minInt, GoInt.maxInt.
    split; discriminate.
  - unfold GoInt.in_int, GoInt.minInt, GoInt.maxInt.
    split; discriminate.
Defined.

(** X16: on a canvas whose bounds start at the origin, the older entry
    point [CreatePuzzleHole], with the mask of [GeneratePuzzleMask],
    returns a buffer that was not in the heap before; the canvas and every
    other buffer of the heap are as before, and outside the 70x70 window of
    the placement the result repeats the canvas. *)
Lemma CreatePuzzleHole_frame decodeFile (h : heap) (bgImage : loc)
  (canvas : RGBAImage) (w hh x y : Z) (shape : Mask.PuzzleShape) :
  h !! bgImage = Some canvas ->
  atOrigin w hh canvas ->
  GoInt.in_int x -> GoInt.in_int y ->
  exists result h' res,
    Shape.CreatePuzzleHole decodeFile bgImage x y shape h = Returns (result, h')
    /\ h !! result = None
    /\ h' !! bgImage = Some canvas
    /\ (forall l, l <> result -> h' !! l = h !! l)
    /\ h' !! result = Some res
    /\ Bounds res = Bounds canvas
    /\ forall tx ty,
         ~ (x <= tx < x + PuzzleWidth /\ y <= ty < y + PuzzleHeight) ->
         RGBAAt res tx ty = RGBAAt canvas tx ty.
Proof.
  intros Hbg (Hb & Hw & Hh) Hx Hy.
  set (mask := Mask.GeneratePuzzleMask decodeFile shape).
  destruct (hole_heap (cutHole washPixelShape mask x y) h bgImage canvas Hbg)
    as (Hne & Hnone & Hkeep & Hother & Hres).
  eexists _, _, _. split.
  { unfold Shape.CreatePuzzleHole. rewrite Hbg. unfold alloc. reflexivity. }
  split; [exact Hnone |]. split; [exact Hkeep |]. split; [exact Hother |].
  split; [exact Hres |].
  set (s0 := DrawSrc (NewRGBA (Bounds canvas)) canvas).
  assert (Hb0 : Bounds s0 = mkRect 0 0 w hh) by exact Hb.
  destruct (cutHole_pixels w hh x y mask Hw Hh Hx Hy washPixelShape s0 Hb0) as [Hbc Hpc].
  split.
  - rewrite Hbc. unfold cutHolePixels.
    rewrite !Bounds_blurredOnce, Bounds_bordered, Bounds_washed. reflexivity.
  - intros tx ty Hout. rewrite Hpc, cutHolePixels_outside by exact Hout.
    apply (RGBAAt_DrawSrc_origin _ _ w hh); [exact Hb | exact Hb].
Qed.

(** C5: with the border colour of the source, [RGBA{0, 0, 0, 0}], the border
    pass is not a no-op.  On the plain canvas, with the trapezoid mask
    placed at (140, 65), the corner pixel (160, 75) of the hole is
    (143, 89, 36, 255) after [CreatePuzzleHoleWithMask] and
    (210, 140, 73, 255) when [addHoleBorder] is left out. *)
Theorem addHoleBorder_changes_the_hole :
  exists result h' res result2 h2 res2,
    CreatePuzzleHoleWithMask 1%positive 140 65 Examples.trapezoidMask Examples.canvasHeap
    = Returns (result, h')
    /\ h' !! result = Some res
    /\ CreatePuzzleHoleNoBorder 1%positive 140 65 Examples.trapezoidMask Examples.canvasHeap
       = Returns (result2, h2)
    /\ h2 !! result2 = Some res2
    /\ RGBAAt res 160 75 = RGBA.mk 143 89 36 255
    /\ RGBAAt res2 160 75 = RGBA.mk 210 140 73 255.
Proof.
  assert (Hbg : Examples.canvasHeap !! 1%positive = Some Examples.plainCanvas)
    by reflexivity.
  assert (Hw : 0 <= 350 <= GoInt.maxInt) by (unfold GoInt.maxInt; lia).
  assert (Hh : 0 <= 200 <= GoInt.maxInt) by (unfold GoInt.maxInt; lia).
  assert (Hx : GoInt.in_int 140)
    by (unfold GoInt.in_int, GoInt.minInt, GoInt.maxInt; lia).
  assert (Hy : GoInt.in_int 65)
    by (unfold GoInt.in_int, GoInt.minInt, GoInt.maxInt; lia).
  set (s0 := DrawSrc (NewRGBA (Bounds Examples.plainCanvas)) Examples.plainCanvas).
  assert (Hb0 : Bounds s0 = mkRect 0 0 350 200) by reflexivity.
  assert (Hs0 : samePixels s0 Examples.plainCanvas).
  { apply (DrawSrc_same 350 200); reflexivity. }
  destruct (hole_heap (cutHole washPixel Examples.trapezoidMask 140 65)
              Examples.canvasHeap 1%positive Examples.plainCanvas Hbg)
    as (_ & _ & _ & _ & Hres).
  destruct (hole_heap (cutHoleNoBorder washPixel Examples.trapezoidMask 140 65)
              Examples.canvasHeap 1%positive Examples.plainCanvas Hbg)
    as (_ & _ & _ & _ & Hres2).
  eexists _, _, _, _, _, _.
  split; [apply (CreatePuzzleHoleWithMask_eq _ _ _ _ _ _ Hbg) |].
  split; [exact Hres |].
  split; [apply (CreatePuzzleHoleNoBorder_eq _ _ _ _ _ _ Hbg) |].
  split; [exact Hres2 |].
  fold s0.
  destruct (cutHole_pixels 350 200 140 65 Examples.trapezoidMask Hw Hh Hx Hy
              washPixel s0 Hb0) as [_ Hp].
  destruct (cutHoleNoBorder_pixels 350 200 140 65 Examples.trapezoidMask Hw Hh Hx Hy
              washPixel s0 Hb0) as [_ Hp2].
  rewrite Hp, Hp2.
  assert (E1 : samePixels (cutHolePixels washPixel Examples.trapezoidMask 140 65 s0)
                 (cutHolePixels washPixel Examples.trapezoidMask 140 65
                    Examples.plainCanvas)).
  { unfold cutHolePixels.
    apply blurredOnce_ext, blurredOnce_ext, bordered_ext, washed_ext, Hs0. }
  assert (E2 : samePixels
                 (cutHoleNoBorderPixels washPixel Examples.trapezoidMask 140 65 s0)
                 (cutHoleNoBorderPixels washPixel Examples.trapezoidMask 140 65
                    Examples.plainCanvas)).
  { unfold cutHoleNoBorderPixels.
    apply blurredOnce_ext, blurredOnce_ext, washed_ext, Hs0. }
  destruct E1 as [_ ->], E2 as [_ ->].
  split; vm_compute; reflexivity.
Qed.

End HoleHeapFacts.

(* ===================================================================== *)
(** ** The hole on a canvas with any bounds

    Whatever the bounds of the buffer, the passes of
    [CreatePuzzleHoleWithMask] write inside the window of the placement
    only.  What lies outside the window is what the copy step left there,
    and on a canvas whose bounds do not start at the origin the copy step
    does not copy the canvas. *)

Module FrameFacts.
Import Img Loop Hole Frame ImgFacts LoopFacts HoleFacts HoleHeapFacts.

#[local] Arguments for_each : simpl never.
#[local] Arguments frame : simpl never.

Lemma sameOutside_refl x y a : sameOutside x y a a.
Proof. split; [reflexivity | intros; reflexivity]. Qed.

Lemma sameOutside_trans x y a b c :
  sameOutside x y a b -> sameOutside x y b c -> sameOutside x y a c.
Proof.
  intros [Hb1 Hp1] [Hb2 Hp2]. split; [congruence |].
  intros tx ty Hout. rewrite Hp1, Hp2 by exact Hout. reflexivity.
Qed.

Lemma SetRGBA_sameOutside x y s tx ty c :
  inWindow x y tx ty -> sameOutside x y (SetRGBA s tx ty c) s.
Proof.
  intros Hin. split; [apply Bounds_SetRGBA |].
  intros tx' ty' Hout. rewrite RGBAAt_SetRGBA.
  destruct ((tx' =? tx) && (ty' =? ty)) eqn:E; [| reflexivity].
  apply andb_true_iff in E as [->%Z.eqb_eq ->%Z.eqb_eq]. contradiction.
Qed.

(** A target that is not negative is the plain sum. *)
Lemma target_inWindow x y px py :
  GoInt.in_int x -> GoInt.in_int y -> inFrame px py = true ->
  0 <= GoInt.add x px -> 0 <= GoInt.add y py ->
  inWindow x y (GoInt.add x px) (GoInt.add y py).
Proof.
  intros Hx Hy Hf H0x H0y. apply inFrame_true in Hf as [Hpx Hpy].
  unfold inWindow, PuzzleWidth, PuzzleHeight.
  destruct (GoIntAddFacts.add_cases x px Hx ltac:(lia))
    as [[_ Ex] | [[Hr Ex] | [Hr Ex]]];
    destruct (GoIntAddFacts.add_cases y py Hy ltac:(lia))
    as [[_ Ey] | [[Hr' Ey] | [Hr' Ey]]];
    rewrite Ex, Ey in *;
    unfold GoInt.in_int, GoInt.minInt, GoInt.maxInt in *; lia.
Qed.

Lemma for_each_sameOutside x y l (body : Z -> Z -> RGBAImage -> RGBAImage) :
  (forall px py r, (px, py) ∈ l -> sameOutside x y (body px py r) r) ->
  forall s, sameOutside x y (for_each l body s) s.
Proof.
  induction l as [| [px py] l IH]; intros Hbody s.
  - apply sameOutside_refl.
  - rewrite for_each_cons. cbn [fst snd].
    apply (sameOutside_trans _ _ _ (body px py s)).
    + apply IH. intros px' py' r Hin. apply Hbody. right. exact Hin.
    + apply Hbody. left.
Qed.

Section Passes.
Variables (x y : Z) (mask : AlphaImage).
Hypothesis Hx : GoInt.in_int x.
Hypothesis Hy : GoInt.in_int y.

Lemma onCanvas_inWindow (r : RGBAImage) px py :
  inFrame px py = true ->
  offCanvas r (GoInt.add x px) (GoInt.add y py) = false ->
  inWindow x y (GoInt.add x px) (GoInt.add y py).
Proof.
  intros Hf Hoff. unfold offCanvas in Hoff.
  apply orb_false_iff in Hoff as [Hoff _].
  apply orb_false_iff in Hoff as [Hoff Hty].
  apply orb_false_iff in Hoff as [Htx _].
  apply Z.ltb_ge in Htx, Hty.
  apply target_inWindow; assumption.
Qed.

Lemma washLoop_sameOutside wash s :
  sameOutside x y (washLoop wash mask x y s) s.
Proof.
  unfold washLoop. apply for_each_sameOutside. intros px py r Hin.
  apply elem_of_frame in Hin. unfold washBody. cbv zeta.
  destruct (offCanvas r (GoInt.add x px) (GoInt.add y py)) eqn:Hoff;
    [apply sameOutside_refl |].
  destruct (AlphaAt mask px py >? 0); [| apply sameOutside_refl].
  apply SetRGBA_sameOutside, (onCanvas_inWindow r); assumption.
Qed.

Lemma addHoleBorder_sameOutside s :
  sameOutside x y (addHoleBorder mask x y s) s.
Proof.
  unfold addHoleBorder. apply for_each_sameOutside. intros px py r Hin.
  apply elem_of_frame in Hin. unfold addHoleBorderBody. cbv zeta.
  destruct (AlphaAt mask px py >? 0); [| apply sameOutside_refl].
  destruct (isHoleEdge px py mask); [| apply sameOutside_refl].
  destruct ((GoInt.add x px >=? 0) && (GoInt.add x px <? Dx (Bounds r))
            && (GoInt.add y py >=? 0) && (GoInt.add y py <? Dy (Bounds r)))
    eqn:Hon; [| apply sameOutside_refl].
  apply andb_true_iff in Hon as [Hon _].
  apply andb_true_iff in Hon as [Hon Hty].
  apply andb_true_iff in Hon as [Htx _].
  apply SetRGBA_sameOutside, target_inWindow; try assumption.
  - destruct (Z.geb_spec (GoInt.add x px) 0); [lia | discriminate].
  - destruct (Z.geb_spec (GoInt.add y py) 0); [lia | discriminate].
Qed.

Lemma blurHoleLoop_sameOutside blurred s :
  sameOutside x y (for_each frame (blurHoleBody blurred mask x y) s) s.
Proof.
  apply for_each_sameOutside. intros px py r Hin.
  apply elem_of_frame in Hin. unfold blurHoleBody. cbv zeta.
  destruct (AlphaAt mask px py >? 0); [| apply sameOutside_refl].
  destruct (offCanvas r (GoInt.add x px) (GoInt.add y py)) eqn:Hoff;
    [apply sameOutside_refl |].
  apply SetRGBA_sameOutside, (onCanvas_inWindow r); assumption.
Qed.

Lemma applyGaussianBlurToHole_sameOutside s :
  sameOutside x y (applyGaussianBlurToHole mask x y s) s.
Proof.
  unfold applyGaussianBlurToHole, blurHoleIteration. cbv zeta. cbn [fst].
  eapply sameOutside_trans; apply blurHoleLoop_sameOutside.
Qed.

(** The passes of [CreatePuzzleHoleWithMask] leave every pixel outside the
    window as it was, whatever the bounds of the buffer. *)
Lemma cutHole_sameOutside wash s :
  sameOutside x y (cutHole wash mask x y s) s.
Proof.
  unfold cutHole. cbv zeta.
  eapply sameOutside_trans; [apply applyGaussianBlurToHole_sameOutside |].
  eapply sameOutside_trans; [apply addHoleBorder_sameOutside |].
  apply washLoop_sameOutside.
Qed.

End Passes.

(** C9, the counterexample: a canvas whose bounds start at (10, 10).
    [draw.Draw] is called with the source point [image.Point{}], so the
    pixel (20, 20) of the result, far from the window of the placement
    (140, 65), is the pixel (10, 10) of the canvas and not its pixel
    (20, 20); the pixel (12, 12) of the result is not copied at all and
    stays transparent black. *)
Lemma CreatePuzzleHoleWithMask_off_origin_canvas :
  exists result h' res,
    CreatePuzzleHoleWithMask 1%positive 140 65 Examples.trapezoidMask
      OffOrigin.shiftedHeap
    = Returns (result, h')
    /\ h' !! result = Some res
    /\ ~ (140 <= 20 < 140 + PuzzleWidth /\ 65 <= 20 < 65 + PuzzleHeight)
    /\ RGBAAt OffOrigin.shiftedCanvas 20 20 = RGBA.mk 20 20 40 255
    /\ RGBAAt res 20 20 = RGBA.mk 10 10 40 255
    /\ RGBAAt OffOrigin.shiftedCanvas 12 12 = RGBA.mk 12 12 40 255
    /\ RGBAAt res 12 12 = RGBA.mk 0 0 0 0.
Proof.
  assert (Hbg : OffOrigin.shiftedHeap !! 1%positive = Some OffOrigin.shiftedCanvas)
    by reflexivity.
  destruct (hole_heap (cutHole washPixel Examples.trapezoidMask 140 65)
              OffOrigin.shiftedHeap 1%positive OffOrigin.shiftedCanvas Hbg)
    as (_ & _ & _ & _ & Hres).
  eexists _, _, _.
  split; [apply (CreatePuzzleHoleWithMask_eq _ _ _ _ _ _ Hbg) |].
  split; [exact Hres |].
  assert (Hx : GoInt.in_int 140)
    by (unfold GoInt.in_int, GoInt.minInt, GoInt.maxInt; lia).
  assert (Hy : GoInt.in_int 65)
    by (unfold GoInt.in_int, GoInt.minInt, GoInt.maxInt; lia).
  destruct (cutHole_sameOutside 140 65 Examples.trapezoidMask Hx Hy washPixel
              (DrawSrc (NewRGBA (Bounds OffOrigin.shiftedCanvas))
                 OffOrigin.shiftedCanvas)) as [_ Hout].
  split; [unfold PuzzleWidth, PuzzleHeight; lia |].
  split; [vm_compute; reflexivity |].
  split.
  { rewrite Hout by (unfold inWindow, PuzzleWidth, PuzzleHeight; lia).
    vm_compute. reflexivity. }
  split; [vm_compute; reflexivity |].
  rewrite Hout by (unfold inWindow, PuzzleWidth, PuzzleHeight; lia).
  vm_compute. reflexivity.
Qed.

End FrameFacts.

(* ===================================================================== *)
(** ** The puzzle piece *)

Module PieceFacts.
Import Img Loop Hole Piece ImgFacts LoopFacts HoleFacts.

#[local] Arguments for_each : simpl never.
#[local] Arguments for_each_m : simpl never.
#[local] Arguments frame : simpl never.
#[local] Arguments interior : simpl never.

Lemma In_frameRect px py : In_ px py frameRect = inFrame px py.
Proof. reflexivity. Qed.

Lemma neighbours8_eq :
  neighbours8
  = [(-1, -1); (0, -1); (1, -1); (-1, 0); (1, 0); (-1, 1); (0, 1); (1, 1)].
Proof. reflexivity. Qed.

(** A loop whose body keeps the bounds keeps them. *)
Lemma for_each_Bounds l body s :
  (forall px py s, Bounds (body px py s) = Bounds s) ->
  Bounds (for_each l body s) = Bounds s.
Proof.
  intros Hbody. revert s. induction l as [| p l IH]; intros s; [reflexivity |].
  rewrite for_each_cons, IH. apply Hbody.
Qed.

(** A loop whose body returns the buffer as it is returns it as it is. *)
Lemma for_each_m_id l (body : Z -> Z -> RGBAImage -> outcome RGBAImage) s :
  (forall px py, (px, py) ∈ l -> body px py s = Returns s) ->
  for_each_m l body s = Returns s.
Proof.
  induction l as [| [px py] l IH]; intros Hbody; [reflexivity |].
  unfold for_each_m; fold (@for_each_m RGBAImage). cbn [fst snd].
  rewrite Hbody by apply list_elem_of_here.
  apply IH. intros px' py' Hin. apply Hbody, list_elem_of_further, Hin.
Qed.

(** A pixel with a transparent neighbour inside the frame is an edge pixel. *)
Lemma count_pos_edge x y mask :
  0 < countTransparentNeighbors x y mask -> isEdgeSimple x y mask = true.
Proof.
  unfold countTransparentNeighbors, isEdgeSimple.
  assert (G : forall l c,
             c < fold_left
                   (fun count d =>
                      if inFrame (GoInt.add x (fst d)) (GoInt.add y (snd d))
                         && (AlphaAt mask (GoInt.add x (fst d)) (GoInt.add y (snd d)) =? 0)
                      then count + 1 else count) l c ->
             existsb
               (fun d =>
                  negb (inFrame (GoInt.add x (fst d)) (GoInt.add y (snd d)))
                  || (AlphaAt mask (GoInt.add x (fst d)) (GoInt.add y (snd d)) =? 0))
               l = true).
  { induction l as [| d l IH]; intros c Hc; simpl in *; [lia |].
    destruct (inFrame (GoInt.add x (fst d)) (GoInt.add y (snd d))); simpl in *.
    - destruct (AlphaAt mask (GoInt.add x (fst d)) (GoInt.add y (snd d)) =? 0);
        [reflexivity | apply (IH c Hc)].
    - reflexivity. }
  apply G.
Qed.

(** Away from the edge, all eight neighbours are opaque pixels of the frame. *)
Lemma not_edge_neighbours x y mask dx dy :
  isEdgeSimple x y mask = false ->
  (dx, dy) ∈ neighbours8 ->
  inFrame (GoInt.add x dx) (GoInt.add y dy) = true
  /\ (AlphaAt mask (GoInt.add x dx) (GoInt.add y dy) =? 0) = false.
Proof.
  unfold isEdgeSimple. intros He Hin.
  apply list_elem_of_In in Hin.
  destruct (negb (inFrame (GoInt.add x dx) (GoInt.add y dy))
            || (AlphaAt mask (GoInt.add x dx) (GoInt.add y dy) =? 0)) eqn:E.
  - exfalso. apply not_true_iff_false in He. apply He.
    apply existsb_exists. exists (dx, dy). split; [exact Hin | exact E].
  - apply orb_false_iff in E as [E1 E2]. apply negb_false_iff in E1.
    split; assumption.
Qed.

Section WithMask.
Variable Pow : float -> float -> float.
Variable mask : AlphaImage.

Lemma borderBody_pointwise :
  pointwise frameRect 0 0 frame
    (fun px py => (AlphaAt mask px py >? 0) && isEdgeSimple px py mask)
    (fun _ _ _ => RGBA.white)
    (borderBody mask).
Proof.
  intros px py s Hin Hb. unfold borderBody.
  destruct (AlphaAt mask px py >? 0); [| reflexivity].
  destruct (isEdgeSimple px py mask); reflexivity.
Qed.

Lemma border_edgesWhite p :
  Bounds p = frameRect -> edgesWhite mask (for_each frame (borderBody mask) p).
Proof.
  intros Hb.
  destruct (for_each_pointwise frameRect 0 0 frame _ _ _ (NoDup_grid _ _ _ _) frame
              (fun q Hq => Hq) borderBody_pointwise p Hb) as [Hb' Hp].
  split; [exact Hb' |]. intros px py Hf Ha He.
  rewrite Hp, !Z.sub_0_r, bool_decide_frame, In_frameRect, Hf, Ha, He.
  reflexivity.
Qed.

Lemma antiAliasBody_id p px py :
  edgesWhite mask p -> inFrame px py = true ->
  antiAliasBody Pow mask px py p = Returns p.
Proof.
  intros [Hb Hwhite] Hf. unfold antiAliasBody.
  destruct (AlphaAt mask px py >? 0) eqn:Ha; [| reflexivity].
  destruct (Z.gtb_spec (countTransparentNeighbors px py mask) 0) as [Hc | Hc];
    [| reflexivity].
  rewrite (Hwhite px py Hf Ha (count_pos_edge px py mask ltac:(lia))).
  reflexivity.
Qed.

Lemma small_add a d : 0 <= a < 70 -> -3 <= d <= 3 -> GoInt.add a d = a + d.
Proof. intros Ha Hd. apply GoIntAddFacts.add_small; lia. Qed.

Lemma smoothDiagonalBody_id p px py :
  edgesWhite mask p -> (px, py) ∈ interior ->
  smoothDiagonalBody mask px py p = Returns p.
Proof.
  intros [Hb Hwhite] Hin. unfold interior, PuzzleWidth, PuzzleHeight in Hin.
  apply elem_of_grid in Hin as [Hpy Hpx].
  assert (Hf : inFrame px py = true) by (apply inFrame_true; lia).
  unfold smoothDiagonalBody.
  destruct (AlphaAt mask px py >? 0) eqn:Ha; [| reflexivity].
  destruct (isWhite (RGBAAt p px py)) eqn:Hw; [reflexivity |].
  destruct (isEdgeSimple px py mask) eqn:He.
  { rewrite (Hwhite px py Hf Ha He) in Hw. discriminate. }
  assert (Hl : (-1, 0) ∈ neighbours8)
    by (rewrite neighbours8_eq; repeat (apply elem_of_cons; (left; reflexivity) || right)).
  assert (Hr : (1, 0) ∈ neighbours8)
    by (rewrite neighbours8_eq; repeat (apply elem_of_cons; (left; reflexivity) || right)).
  destruct (not_edge_neighbours px py mask _ _ He Hl) as [_ E1].
  destruct (not_edge_neighbours px py mask _ _ He Hr) as [_ E2].
  rewrite !small_add in E1, E2 by lia.
  replace (px + -1) with (px - 1) in E1 by lia. rewrite Z.add_0_r in E1, E2.
  rewrite E1, E2. reflexivity.
Qed.

Lemma antiAlias_passes p :
  edgesWhite mask p ->
  antiAliasEdges Pow mask p = Returns (globalSmooth mask p).
Proof.
  intros Hw. unfold antiAliasEdges.
  rewrite for_each_m_id.
  2:{ intros px py Hin. apply antiAliasBody_id; [exact Hw |].
      apply elem_of_frame, Hin. }
  cbn [mbind outcome_bind]. unfold smoothDiagonalEdges.
  rewrite for_each_m_id.
  2:{ intros px py Hin. apply smoothDiagonalBody_id; assumption. }
  reflexivity.
Qed.

Lemma Bounds_globalSmooth p : Bounds (globalSmooth mask p) = Bounds p.
Proof.
  unfold globalSmooth. apply for_each_Bounds. intros px py s.
  unfold globalSmoothBody.
  destruct (AlphaAt mask px py >? 0); [| reflexivity].
  destruct (isWhite (RGBAAt s px py)); [reflexivity |].
  destruct (gatherPlain s mask px py) as [[[sR sG] sB] count].
  destruct (count >? 0); [apply Bounds_SetRGBA | reflexivity].
Qed.

Lemma Bounds_add3DEffect p : Bounds (add3DEffect mask p) = Bounds p.
Proof.
  unfold add3DEffect. apply for_each_Bounds. intros px py s.
  unfold add3DBody.
  destruct (AlphaAt mask px py >? 0); [| reflexivity].
  destruct (countTransparentNeighbors px py mask >? 0); [| reflexivity].
  destruct (isWhite (RGBAAt s px py)); [reflexivity | apply Bounds_SetRGBA].
Qed.

Lemma Bounds_copy bgImage x y p :
  Bounds (for_each frame (copyBody bgImage mask x y) p) = Bounds p.
Proof.
  apply for_each_Bounds. intros px py s. unfold copyBody.
  destruct (AlphaAt mask px py >? 0); [| reflexivity].
  match goal with |- context [if ?c then _ else _] => destruct c end;
    [apply Bounds_SetRGBA | reflexivity].
Qed.

(** The pixels of one blur iteration. *)
Lemma blurOnceBody_pointwise piece :
  pointwise frameRect 0 0 frame
    (fun _ _ => true)
    (fun px py _ =>
       if AlphaAt mask px py >? 0
       then blurColor (pieceTaps piece mask px py) else RGBA.mk 0 0 0 0)
    (blurOnceBody piece mask).
Proof.
  intros px py s Hin Hb. unfold blurOnceBody. cbv iota.
  destruct (AlphaAt mask px py >? 0); reflexivity.
Qed.

Theorem applyGaussianBlurOnce_pixels piece :
  Bounds piece = frameRect ->
  Bounds (applyGaussianBlurOnce mask piece) = frameRect
  /\ forall px py,
       RGBAAt (applyGaussianBlurOnce mask piece) px py
       = if inFrame px py then
           if AlphaAt mask px py >? 0
           then blurColor (pieceTaps piece mask px py)
           else RGBA.zero
         else RGBA.zero.
Proof.
  intros Hb. unfold applyGaussianBlurOnce. cbv zeta.
  destruct (for_each_pointwise frameRect 0 0 frame _ _ _ (NoDup_grid _ _ _ _) frame
              (fun q Hq => Hq) (blurOnceBody_pointwise piece)
              (NewRGBA (Bounds piece)) Hb) as [Hb' Hp].
  split; [exact Hb |]. intros px py.
  rewrite (RGBAAt_DrawSrc_origin _ _ 70 70) by assumption.
  rewrite Hp, !Z.sub_0_r, bool_decide_frame, In_frameRect.
  rewrite RGBAAt_NewRGBA.
  destruct (inFrame px py); reflexivity.
Qed.

(** [ExtractPuzzlePieceWithMask] always returns, and what it returns is the
    second blur iteration of a 70x70 buffer. *)
Lemma ExtractPuzzlePieceWithMask_returns bgImage x y :
  exists p,
    Bounds p = frameRect
    /\ ExtractPuzzlePieceWithMask Pow bgImage x y mask
       = Returns (applyGaussianBlurOnce mask p).
Proof.
  unfold ExtractPuzzlePieceWithMask. cbv zeta.
  set (p0 := for_each frame (copyBody bgImage mask x y)
               (DrawTransparent (NewRGBA (Rect 0 0 PuzzleWidth PuzzleHeight)))).
  assert (Hb0 : Bounds p0 = frameRect) by (unfold p0; rewrite Bounds_copy; reflexivity).
  unfold addSimpleBorder.
  rewrite (antiAlias_passes _ (border_edgesWhite p0 Hb0)).
  cbn [mbind outcome_bind]. unfold applyGaussianBlur.
  eexists. split; [| reflexivity].
  destruct (applyGaussianBlurOnce_pixels
              (add3DEffect mask (globalSmooth mask (for_each frame (borderBody mask) p0))))
    as [Hb _]; [| exact Hb].
  rewrite Bounds_add3DEffect, Bounds_globalSmooth.
  apply border_edgesWhite, Hb0.
Qed.

End WithMask.

(** C6: for every canvas, placement and mask, [ExtractPuzzlePieceWithMask]
    returns a 70x70 piece whose alpha is 255 on the footprint of the mask
    and whose pixels are zero (and so of alpha 0) everywhere else. *)
Theorem ExtractPuzzlePieceWithMask_alpha (Pow : float -> float -> float)
  (bgImage : RGBAImage) (x y : Z) (mask : AlphaImage) :
  exists piece,
    ExtractPuzzlePieceWithMask Pow bgImage x y mask = Returns piece
    /\ Bounds piece = mkRect 0 0 PuzzleWidth PuzzleHeight
    /\ forall px py,
         RGBA.A (RGBAAt piece px py)
         = (if inFrame px py && (AlphaAt mask px py >? 0) then 255 else 0)
         /\ (inFrame px py && (AlphaAt mask px py >? 0) = false ->
             RGBAAt piece px py = RGBA.zero).
Proof.
  destruct (ExtractPuzzlePieceWithMask_returns Pow mask bgImage x y)
    as (p & Hb & ->).
  destruct (applyGaussianBlurOnce_pixels mask p Hb) as [Hb' Hp].
  eexists. split; [reflexivity |]. split; [exact Hb' |].
  intros px py. rewrite Hp.
  destruct (inFrame px py); [| split; reflexivity].
  destruct (AlphaAt mask px py >? 0); split; try reflexivity.
  discriminate.
Qed.

End PieceFacts.

(* ===================================================================== *)
(** ** The service *)

Module ServiceFacts.
Import Img Resize Store Service.

Section WithWorld.
Variable DownloadImage : string -> outcome Image.
Variable BackgroundURLs : list string.
Variable decodeFile : string -> option Image.
Variable Pow : float -> float -> float.
Variable ImageToBase64 : RGBAImage -> string -> outcome string.

(** Loading pictures never sets the flag. *)
Lemma loadBackgroundImages_flag urls s :
  initialized (snd (loadBackgroundImages DownloadImage urls s)) = initialized s.
Proof.
  revert s. induction urls as [| u urls IH]; intros s; simpl; [reflexivity |].
  destruct (DownloadImage u) as [img | e |]; simpl; [| reflexivity | reflexivity].
  rewrite IH. reflexivity.
Qed.

(** [Init] sets the flag only when it returns without an error. *)
Lemma Init_flag s r s' :
  initialized s = false ->
  Init DownloadImage BackgroundURLs decodeFile s = (r, s') ->
  initialized s' = match r with Returns _ => true | _ => false end.
Proof.
  intros Hs. unfold Init. rewrite Hs.
  set (s1 := if (length (backgroundURLs s) =? 0)%nat then _ else s).
  assert (H1 : initialized s1 = false).
  { unfold s1. destruct (length (backgroundURLs s) =? 0)%nat; [reflexivity | exact Hs]. }
  pose proof (loadBackgroundImages_flag (backgroundURLs s1) s1) as Hl.
  destruct (loadBackgroundImages DownloadImage (backgroundURLs s1) s1) as [[u | e |] s2];
    simpl in Hl; intros E; injection E as <- <-; simpl; congruence.
Qed.

Lemma notInitialized_flag s :
  notInitialized DownloadImage BackgroundURLs decodeFile s ->
  initialized s = false.
Proof.
  induction 1 as [| s urls _ IH | s e s' _ IH HI | s s' _ IH HI].
  - reflexivity.
  - exact IH.
  - apply (Init_flag s _ s' IH HI).
  - apply (Init_flag s _ s' IH HI).
Qed.

(** C10: on a service on which [Init] has not completed successfully,
    [Generate] returns the error "not initialized" (it does not panic) and
    the session store is the one it was given. *)
Theorem Generate_not_initialized s env store :
  notInitialized DownloadImage BackgroundURLs decodeFile s ->
  Generate Pow ImageToBase64 s env store
  = (Fails "captcha service not initialized, call Init() first", store).
Proof.
  intros Hs. unfold Generate.
  rewrite (notInitialized_flag s Hs). reflexivity.
Qed.

End WithWorld.

Lemma Generate_not_initialized_witness :
  let s := snd (Init Examples.offline ["images/image1.jpg"] (fun _ => None)
                     NewCaptchaService) in
  let env := mkEnv 0 0 0 0 "id-1" 0 in
  notInitialized Examples.offline ["images/image1.jpg"] (fun _ => None) s
  /\ Generate (fun a _ => a) (fun _ _ => Returns "") s env
              defaultStore
     = (Fails "captcha service not initialized, call Init() first",
        defaultStore).
Proof.
  assert (H : notInitialized Examples.offline ["images/image1.jpg"] (fun _ => None)
                (snd (Init Examples.offline ["images/image1.jpg"] (fun _ => None)
                           NewCaptchaService))).
  { eapply ni_failed; [apply ni_new | reflexivity]. }
  split; [exact H |].
  exact (Generate_not_initialized Examples.offline ["images/image1.jpg"] (fun _ => None)
           (fun a _ => a) (fun _ _ => Returns "") _ _ defaultStore H).
Defined.

End ServiceFacts.

(* ===================================================================== *)
(** ** The shape masks *)

Module MaskFacts.
Import Img Loop Hole Mask ImgFacts LoopFacts HoleFacts.

#[local] Arguments for_each : simpl never.
#[local] Arguments frame : simpl never.

(** A loop that sets every pixel of its index list once. *)
Lemma for_each_SetAlpha (f : Z -> Z -> Z) l m :
  NoDup l ->
  forall x y,
    AlphaAt (for_each l (fun x y m => SetAlpha m x y (f x y)) m) x y
    = if bool_decide ((x, y) ∈ l) && In_ x y (ABounds m) then f x y
      else AlphaAt m x y.
Proof.
  intros Hnd. revert m. induction Hnd as [| [px py] l Hnotin Hnd IH]; intros m x y.
  - reflexivity.
  - rewrite for_each_cons. cbn [fst snd]. rewrite IH, ABounds_SetAlpha.
    rewrite AlphaAt_SetAlpha.
    destruct (decide ((x, y) = (px, py))) as [E | NE].
    + injection E as -> ->.
      rewrite (bool_decide_eq_false_2 _ Hnotin).
      rewrite (bool_decide_eq_true_2 _ (list_elem_of_here _ _)).
      rewrite !Z.eqb_refl. reflexivity.
    + assert (Hiff : bool_decide ((x, y) ∈ (px, py) :: l) = bool_decide ((x, y) ∈ l)).
      { apply bool_decide_ext. rewrite elem_of_cons.
        split; [intros [? | ?]; [contradiction | assumption] | auto]. }
      rewrite Hiff.
      destruct ((x =? px) && (y =? py)) eqn:E.
      { apply andb_true_iff in E as [->%Z.eqb_eq ->%Z.eqb_eq]. contradiction. }
      reflexivity.
Qed.

(** The drawn mask, pixel by pixel. *)
Lemma proceduralMask_pixels shape x y :
  AlphaAt (proceduralMask shape) x y
  = if inFrame x y then (if isInsidePuzzle x y shape then 255 else 0) else 0.
Proof.
  unfold proceduralMask.
  assert (E : for_each frame
                (fun x y mask =>
                   if isInsidePuzzle x y shape then SetAlpha mask x y 255
                   else SetAlpha mask x y 0)
                (NewAlpha (Rect 0 0 PuzzleWidth PuzzleHeight))
              = for_each frame
                  (fun x y mask =>
                     SetAlpha mask x y (if isInsidePuzzle x y shape then 255 else 0))
                  (NewAlpha (Rect 0 0 PuzzleWidth PuzzleHeight))).
  { unfold for_each. apply fold_left_pointwise. intros a [bx by_]. cbn [fst snd].
    destruct (isInsidePuzzle bx by_ shape); reflexivity. }
  rewrite E, for_each_SetAlpha by apply NoDup_grid.
  rewrite bool_decide_frame.
  change (In_ x y (ABounds (NewAlpha (Rect 0 0 PuzzleWidth PuzzleHeight))))
    with (inFrame x y).
  destruct (inFrame x y) eqn:Hf; [reflexivity |].
  unfold AlphaAt, NewAlpha; cbn [ABounds APix].
  destruct (In_ x y (Rect 0 0 PuzzleWidth PuzzleHeight)); reflexivity.
Qed.

Lemma inFootprint_procedural shape x y :
  inFootprint (proceduralMask shape) x y = inFrame x y && isInsidePuzzle x y shape.
Proof.
  unfold inFootprint. rewrite proceduralMask_pixels.
  destruct (inFrame x y); [| reflexivity].
  destruct (isInsidePuzzle x y shape); reflexivity.
Qed.

(** *** The three shapes computed in binary64 *)

Lemma borderCheck_spec f allowed x y :
  borderCheck f allowed = true ->
  inFrame x y = true -> onFrameBorder x y = true -> f x y = true ->
  allowed x y = true.
Proof.
  unfold borderCheck. intros Hc Hf Hb Hfx.
  rewrite forallb_forall in Hc.
  specialize (Hc (x, y)). cbn [fst snd] in Hc.
  rewrite Hb, Hfx in Hc. apply Hc.
  apply list_elem_of_In, elem_of_frame, Hf.
Qed.


Lemma triangle_border : borderCheck isInsideTriangle apexOnly = true.
Proof. vm_compute. reflexivity. Qed.

Lemma hexagon_border : borderCheck isInsideHexagon nowhere = true.
Proof. vm_compute. reflexivity. Qed.

Lemma trapezoid_border : borderCheck isInsideTrapezoid nowhere = true.
Proof. vm_compute. reflexivity. Qed.

(** *** The star, over the reals *)

Open Scope R_scope.

Lemma border_far x y :
  (0 <= x < 70)%Z /\ (0 <= y < 70)%Z -> onFrameBorder x y = true ->
  34 <= sqrt (IZR (x - 35) * IZR (x - 35) + IZR (y - 35) * IZR (y - 35)).
Proof.
  intros Hf Hb.
  rewrite <- (sqrt_square 34) by lra. apply sqrt_le_1_alt.
  assert (Hx2 : 0 <= IZR (x - 35) * IZR (x - 35)) by apply Rle_0_sqr.
  assert (Hy2 : 0 <= IZR (y - 35) * IZR (y - 35)) by apply Rle_0_sqr.
  unfold onFrameBorder, PuzzleWidth, PuzzleHeight in Hb.
  rewrite !orb_true_iff, !Z.eqb_eq in Hb.
  set (dx := IZR (x - 35)) in *. set (dy := IZR (y - 35)) in *.
  assert (Hcases : dx = -35 \/ dx = 34 \/ dy = -35 \/ dy = 34).
  { unfold dx, dy.
    destruct Hb as [[[Hb | Hb] | Hb] | Hb]; subst; auto. }
  clearbody dx dy.
  destruct Hcases as [-> | [-> | [-> | ->]]]; lra.
Qed.

Lemma star_border x y :
  inFrame x y = true -> onFrameBorder x y = true -> isInsideStar x y = false.
Proof.
  intros Hf Hb. apply inFrame_true in Hf.
  pose proof (border_far x y Hf Hb) as Hs.
  unfold isInsideStar. apply bool_decide_eq_false_2.
  change (Z.quot PuzzleWidth 2) with 35%Z.
  change (Z.quot PuzzleHeight 2) with 35%Z.
  change (35 - 8)%Z with 27%Z.
  match goal with
  | |- ~ (_ <= _ + _ * (1 - Rabs ?a / _)) => set (c := Rabs a)
  end.
  assert (Hc : 0 <= c) by apply Rabs_pos. clearbody c.
  pose proof PI_RGT_0 as Hpi.
  assert (Hq : 0 <= c / (PI / 5)).
  { apply Rmult_le_pos; [exact Hc |].
    apply Rlt_le, Rinv_0_lt_compat. lra. }
  intros Hle.
  assert (Hm : 27 * 0.4 + (27 - 27 * 0.4) * (1 - c / (PI / 5)) <= 27) by nra.
  lra.
Qed.

Lemma star_centre : isInsideStar 35 35 = true.
Proof.
  unfold isInsideStar. apply bool_decide_eq_true_2.
  change (Z.quot PuzzleWidth 2) with 35%Z.
  change (Z.quot PuzzleHeight 2) with 35%Z.
  change (35 - 8)%Z with 27%Z. change (35 - 35)%Z with 0%Z.
  rewrite Rmult_0_l, Rplus_0_l, sqrt_0.
  match goal with
  | |- 0 <= _ + _ * (1 - Rabs ?a / _) => set (c := Rabs a)
  end.
  pose proof PI_RGT_0 as Hpi.
  assert (HA : Atan2 0 0 = 0).
  { unfold Atan2. repeat (destruct (decide _); try lra). }
  assert (Hc : c = PI / 10).
  { unfold c. rewrite HA.
    destruct (decide (0 < 0)) as [F | _]; [lra |].
    destruct (decide (0 + PI / 2 < 0)) as [F | _]; [lra |].
    destruct (decide (2 * PI <= 0 + PI / 2)) as [F | _]; [lra |].
    replace ((0 + PI / 2) / (2 * PI / 5)) with (5 / 4) by (field; lra).
    assert (Ht : truncR (5 / 4) = 1%Z).
    { unfold truncR. destruct (decide (0 <= 5 / 4)) as [_ | F]; [| lra].
      symmetry. apply Int_part_spec. simpl. lra. }
    rewrite Ht.
    replace (0 + PI / 2 - 1 * (2 * PI / 5) - PI / 5) with (- (PI / 10)) by field.
    rewrite Rabs_Ropp, Rabs_right; lra. }
  rewrite Hc. replace (PI / 10 / (PI / 5)) with (1 / 2) by (field; lra).
  lra.
Qed.

Close Scope R_scope.

(** *** The claim *)

Lemma isInsidePuzzle_kind k x y :
  isInsidePuzzle x y (mkShape k)
  = if k =? 0 then isInsideTriangle x y
    else if k =? 1 then isInsideHexagon x y
    else if k =? 2 then isInsideTrapezoid x y
    else if k =? 3 then isInsideStar x y
    else isInsideTriangle x y.
Proof. reflexivity. Qed.

(** C8, as the code has it: each of the four drawn masks has a non-empty
    footprint; the footprints of the hexagon, the trapezoid and the star
    stay off the outer border of the frame, and the footprint of the
    triangle meets it in the apex pixel (35, 0) only. *)
Theorem proceduralMask_margin :
  Forall
    (fun shapeType =>
       let mask := proceduralMask (mkShape shapeType) in
       (exists x y, inFootprint mask x y = true)
       /\ forall x y,
            inFootprint mask x y = true -> onFrameBorder x y = true ->
            shapeType = PuzzleTypeTriangle /\ x = 35 /\ y = 0)
    [PuzzleTypeTriangle; PuzzleTypeHexagon; PuzzleTypeTrapezoid;
     PuzzleTypeStar].
Proof.
  apply List.Forall_cons;
    [| apply List.Forall_cons;
       [| apply List.Forall_cons;
          [| apply List.Forall_cons; [| apply List.Forall_nil]]]];
    cbv zeta; split.
  - exists 35, 0. rewrite inFootprint_procedural. vm_compute. reflexivity.
  - intros x y Hin Hb. rewrite inFootprint_procedural in Hin.
    apply andb_true_iff in Hin as [Hf Hin].
    pose proof (borderCheck_spec _ _ x y triangle_border Hf Hb Hin) as Ha.
    apply andb_true_iff in Ha as [->%Z.eqb_eq ->%Z.eqb_eq]. auto.
  - exists 35, 35. rewrite inFootprint_procedural. vm_compute. reflexivity.
  - intros x y Hin Hb. rewrite inFootprint_procedural in Hin.
    apply andb_true_iff in Hin as [Hf Hin].
    pose proof (borderCheck_spec _ _ x y hexagon_border Hf Hb Hin) as Ha.
    discriminate.
  - exists 35, 35. rewrite inFootprint_procedural. vm_compute. reflexivity.
  - intros x y Hin Hb. rewrite inFootprint_procedural in Hin.
    apply andb_true_iff in Hin as [Hf Hin].
    pose proof (borderCheck_spec _ _ x y trapezoid_border Hf Hb Hin) as Ha.
    discriminate.
  - exists 35, 35. rewrite inFootprint_procedural, isInsidePuzzle_kind.
    cbn -[isInsideStar]. apply star_centre.
  - intros x y Hin Hb. rewrite inFootprint_procedural in Hin.
    apply andb_true_iff in Hin as [Hf Hin].
    rewrite isInsidePuzzle_kind in Hin. cbn -[isInsideStar] in Hin.
    rewrite (star_border x y Hf Hb) in Hin. discriminate.
Qed.

(** C8, as stated, fails for the triangle: its apex (35, 0) is a pixel of
    the footprint on row 0 of the frame. *)
Lemma triangle_apex_on_border :
  inFootprint (proceduralMask (mkShape PuzzleTypeTriangle)) 35 0 = true
  /\ onFrameBorder 35 0 = true.
Proof.
  split; [| reflexivity].
  rewrite inFootprint_procedural. vm_compute. reflexivity.
Qed.

End MaskFacts.

(* ===================================================================== *)
(** ** Binary64 arithmetic on integers

    The primitive floats are specified by [FloatAxioms] in terms of
    [SpecFloat].  On the integers below 2^53 and their dyadic multiples the
    operations round nothing away; this section proves it. *)

Module Float64Facts.
Import Binary64.

(** *** Digits *)

Lemma digits2_size p : digits2_pos p = Pos.size p.
Proof. induction p; simpl; congruence. Qed.

Lemma digits_bounds p :
  2 ^ (Zpos (digits2_pos p) - 1) <= Zpos p < 2 ^ Zpos (digits2_pos p).
Proof.
  rewrite digits2_size.
  pose proof (Pos.size_gt p) as Hgt. pose proof (Pos.size_le p) as Hle.
  apply Pos2Z.pos_lt_pos in Hgt. apply Pos2Z.pos_le_pos in Hle.
  rewrite Pos2Z.inj_pow in Hgt, Hle. rewrite (Pos2Z.inj_xO p) in Hle.
  split; [| exact Hgt].
  replace (2 ^ Zpos (Pos.size p)) with (2 * 2 ^ (Zpos (Pos.size p) - 1)) in Hle.
  - lia.
  - rewrite <- Z.pow_succ_r by lia. f_equal. lia.
Qed.

Lemma digits_unique p d :
  2 ^ (d - 1) <= Zpos p < 2 ^ d -> Zpos (digits2_pos p) = d.
Proof.
  intros [Hlo Hhi]. destruct (digits_bounds p) as [Hlo' Hhi'].
  set (d' := Zpos (digits2_pos p)) in *.
  assert (Hd' : 0 < d') by (unfold d'; lia).
  assert (Hd : 0 < d).
  { destruct (Z_lt_le_dec 0 d) as [? | Hn]; [assumption |].
    exfalso. destruct (Z.eq_dec d 0) as [-> | Hne].
    - simpl in Hhi. lia.
    - rewrite (Z.pow_neg_r 2 d) in Hhi by lia. lia. }
  assert (H1 : d' - 1 < d).
  { apply (Z.pow_lt_mono_r_iff 2); lia. }
  assert (H2 : d - 1 < d').
  { apply (Z.pow_lt_mono_r_iff 2); lia. }
  lia.
Qed.

Lemma digits_scaled M c t :
  0 <= t -> Zpos M = Zpos c * 2 ^ t ->
  Zpos (digits2_pos M) = Zpos (digits2_pos c) + t.
Proof.
  intros Ht HM. apply digits_unique. destruct (digits_bounds c) as [Hlo Hhi].
  rewrite HM.
  replace (Zpos (digits2_pos c) + t - 1) with ((Zpos (digits2_pos c) - 1) + t) by lia.
  rewrite !Z.pow_add_r by lia.
  assert (0 < 2 ^ t) by (apply Z.pow_pos_nonneg; lia).
  split; nia.
Qed.

(** *** Shifting a multiple of a power of two to the right *)

Lemma shr_1_even z :
  0 < z ->
  shr_1 (Build_shr_record (2 * z) false false) = Build_shr_record z false false.
Proof. destruct z as [| q | q]; [lia | reflexivity | lia]. Qed.

Lemma iter_shr_1 p z :
  0 < z ->
  SpecFloat.iter_pos shr_1 p (Build_shr_record (z * 2 ^ Zpos p) false false)
  = Build_shr_record z false false.
Proof.
  revert z. induction p as [p IH | p IH |]; intros z Hz.
  - cbn [SpecFloat.iter_pos].
    replace (z * 2 ^ Zpos p~1) with (2 * ((z * 2 ^ Zpos p) * 2 ^ Zpos p)).
    + rewrite shr_1_even, IH, IH; [reflexivity | lia | |];
        assert (0 < 2 ^ Zpos p) by (apply Z.pow_pos_nonneg; lia); nia.
    + rewrite (Pos2Z.inj_xI p), Z.pow_add_r, Z.pow_mul_r by lia.
      change (2 ^ 2) with 4. change (2 ^ 1) with 2.
      replace (4 ^ Zpos p) with (2 ^ Zpos p * 2 ^ Zpos p).
      * ring.
      * rewrite <- Z.pow_mul_l. reflexivity.
  - cbn [SpecFloat.iter_pos].
    replace (z * 2 ^ Zpos p~0) with ((z * 2 ^ Zpos p) * 2 ^ Zpos p).
    + rewrite IH, IH; [reflexivity | lia |].
      assert (0 < 2 ^ Zpos p) by (apply Z.pow_pos_nonneg; lia). nia.
    + rewrite (Pos2Z.inj_xO p), Z.pow_mul_r by lia. change (2 ^ 2) with 4.
      replace (4 ^ Zpos p) with (2 ^ Zpos p * 2 ^ Zpos p).
      * ring.
      * rewrite <- Z.pow_mul_l. reflexivity.
  - cbn [SpecFloat.iter_pos]. change (2 ^ 1) with 2.
    rewrite Z.mul_comm. apply shr_1_even, Hz.
Qed.

(** *** Rounding what needs no rounding *)

Abbreviation emin := (-1074).
Abbreviation emaxp := 971.

Lemma fexp_normal e : emin <= e - 53 -> fexp prec emax e = e - 53.
Proof. intros H. unfold fexp, SpecFloat.emin, prec, emax. lia. Qed.

(** A mantissa [q] of 53 digits followed by [p] zero bits. *)
Lemma binary_round_aux_exact s M q p e :
  0 <= p -> Zpos M = Zpos q * 2 ^ p -> Zpos (digits2_pos q) = 53 ->
  emin <= e + p <= emaxp ->
  binary_round_aux prec emax s (Zpos M) e loc_Exact = S754_finite s q (e + p).
Proof.
  intros Hp HM Hq He.
  pose proof (digits_scaled M q p Hp HM) as HdM. rewrite Hq in HdM.
  unfold binary_round_aux, shr_fexp. cbn [Zdigits2 shr_record_of_loc].
  rewrite HdM, fexp_normal by lia.
  replace (53 + p + e - 53 - e) with p by lia.
  assert (Hshr : shr (Build_shr_record (Zpos M) false false) e p
                 = (Build_shr_record (Zpos q) false false, e + p)).
  { destruct p as [| p' | p']; [| | lia].
    - cbn [shr]. rewrite Z.pow_0_r, Z.mul_1_r in HM. rewrite HM, Z.add_0_r.
      reflexivity.
    - cbn [shr]. rewrite HM, iter_shr_1 by lia. reflexivity. }
  rewrite Hshr. cbn [shr_m loc_of_shr_record round_nearest_even Zdigits2
                     shr_record_of_loc].
  rewrite Hq, fexp_normal by lia.
  replace (53 + (e + p) - 53 - (e + p)) with 0 by lia. cbn [shr shr_m].
  unfold prec, emax.
  destruct (Z.leb_spec (e + p) (1024 - 53)); [reflexivity | lia].
Qed.


(** *** The canonical form of [c * 2^k], for [c] of at most 53 digits *)

Lemma canon_mantissa c :
  Zpos (digits2_pos c) <= 53 ->
  Zpos (Z.to_pos (Zpos c * 2 ^ (53 - Zpos (digits2_pos c))))
  = Zpos c * 2 ^ (53 - Zpos (digits2_pos c))
  /\ Zpos (digits2_pos (Z.to_pos (Zpos c * 2 ^ (53 - Zpos (digits2_pos c)))))
     = 53.
Proof.
  intros Hd.
  assert (Hpos : 0 < Zpos c * 2 ^ (53 - Zpos (digits2_pos c))).
  { apply Z.mul_pos_pos; [lia | apply Z.pow_pos_nonneg; lia]. }
  assert (E : Zpos (Z.to_pos (Zpos c * 2 ^ (53 - Zpos (digits2_pos c))))
              = Zpos c * 2 ^ (53 - Zpos (digits2_pos c)))
    by (apply Z2Pos.id, Hpos).
  split; [exact E |].
  rewrite (digits_scaled _ c (53 - Zpos (digits2_pos c))); [lia | lia | exact E].
Qed.

Lemma round_aux_canon s M c t e :
  0 <= t -> Zpos M = Zpos c * 2 ^ t ->
  Zpos (digits2_pos c) <= 53 -> 53 - Zpos (digits2_pos c) <= t ->
  emin <= e + t - (53 - Zpos (digits2_pos c)) <= emaxp ->
  binary_round_aux prec emax s (Zpos M) e loc_Exact = canon s c (e + t).
Proof.
  intros Ht HM Hd Htd He. destruct (canon_mantissa c Hd) as [Hq Hdq].
  unfold canon.
  replace (e + t - (53 - Zpos (digits2_pos c)))
    with (e + (t - (53 - Zpos (digits2_pos c)))) by lia.
  apply binary_round_aux_exact; [lia | | exact Hdq | lia].
  rewrite Hq, HM, <- Z.mul_assoc, <- Z.pow_add_r by lia.
  do 2 f_equal. lia.
Qed.

Lemma iter_xO M d : Zpos (Pos.iter xO M d) = Zpos M * 2 ^ Zpos d.
Proof.
  induction d as [| d IH] using Pos.peano_ind.
  - cbn [Pos.iter]. rewrite (Pos2Z.inj_xO M). change (2 ^ 1) with 2. ring.
  - rewrite Pos.iter_succ, (Pos2Z.inj_xO (Pos.iter xO M d)), IH,
      Pos2Z.inj_succ, Z.pow_succ_r by lia.
    ring.
Qed.

Lemma round_canon s M c t e :
  0 <= t -> Zpos M = Zpos c * 2 ^ t ->
  Zpos (digits2_pos c) <= 53 ->
  emin <= e + t - (53 - Zpos (digits2_pos c)) <= emaxp ->
  binary_round prec emax s M e = canon s c (e + t).
Proof.
  intros Ht HM Hd He.
  pose proof (digits_scaled M c t Ht HM) as HdM.
  unfold binary_round, shl_align. rewrite HdM, fexp_normal by lia.
  destruct (Zpos (digits2_pos c) + t + e - 53 - e) as [| p | p] eqn:E.
  - apply round_aux_canon; [assumption | assumption | assumption | lia | lia].
  - apply round_aux_canon; [assumption | assumption | assumption | lia | lia].
  - replace (e + t)
      with ((Zpos (digits2_pos c) + t + e - 53) + (t + Zpos p)) by lia.
    apply round_aux_canon; [lia | | assumption | lia | lia].
    rewrite iter_xO, HM, <- Z.mul_assoc, <- Z.pow_add_r by lia. reflexivity.
Qed.

(** *** Products, quotients, sums and differences *)

Lemma digits_mul a b :
  Zpos (digits2_pos a) + Zpos (digits2_pos b) - 1
  <= Zpos (digits2_pos (a * b))
  <= Zpos (digits2_pos a) + Zpos (digits2_pos b).
Proof.
  destruct (digits_bounds a) as [La Ha], (digits_bounds b) as [Lb Hb],
    (digits_bounds (a * b)) as [Lc Hc].
  rewrite Pos2Z.inj_mul in Lc, Hc.
  set (da := Zpos (digits2_pos a)) in *. set (db := Zpos (digits2_pos b)) in *.
  set (dc := Zpos (digits2_pos (a * b))) in *.
  assert (0 < da) by (unfold da; lia). assert (0 < db) by (unfold db; lia).
  assert (0 < dc) by (unfold dc; lia).
  assert (0 < 2 ^ (da - 1)) by (apply Z.pow_pos_nonneg; lia).
  assert (0 < 2 ^ (db - 1)) by (apply Z.pow_pos_nonneg; lia).
  split.
  - assert (Hlt : 2 ^ (da - 1 + (db - 1)) < 2 ^ dc).
    { rewrite Z.pow_add_r by lia. nia. }
    apply Z.pow_lt_mono_r_iff in Hlt; lia.
  - assert (Hlt : 2 ^ (dc - 1) < 2 ^ (da + db)).
    { rewrite Z.pow_add_r by lia. nia. }
    apply Z.pow_lt_mono_r_iff in Hlt; lia.
Qed.

Lemma mul_canon s1 s2 a b k1 k2 :
  Zpos (digits2_pos (a * b)) <= 53 ->
  emin <= k1 + k2 - (53 - Zpos (digits2_pos (a * b))) <= emaxp ->
  SFmul prec emax (canon s1 a k1) (canon s2 b k2)
  = canon (xorb s1 s2) (a * b) (k1 + k2).
Proof.
  intros Hd Hk. pose proof (digits_mul a b) as Hm.
  assert (Hda : Zpos (digits2_pos a) <= 53) by lia.
  assert (Hdb : Zpos (digits2_pos b) <= 53) by lia.
  destruct (canon_mantissa a Hda) as [Hqa _], (canon_mantissa b Hdb) as [Hqb _].
  unfold canon at 1 2. cbn [SFmul].
  set (t := (53 - Zpos (digits2_pos a)) + (53 - Zpos (digits2_pos b))).
  replace (k1 + k2)
    with ((k1 - (53 - Zpos (digits2_pos a)) + (k2 - (53 - Zpos (digits2_pos b)))) + t)
    by (unfold t; lia).
  apply round_aux_canon; [unfold t; lia | | exact Hd | unfold t; lia | unfold t; lia].
  rewrite Pos2Z.inj_mul, Hqa, Hqb, Pos2Z.inj_mul. unfold t.
  rewrite Z.pow_add_r by lia. ring.
Qed.

Lemma div_canon s1 s2 a b k1 k2 :
  Zpos (digits2_pos (a * b)) <= 53 ->
  emin + 53 <= k1 - k2 <= emaxp ->
  SFdiv prec emax (canon s1 (a * b) k1) (canon s2 b k2)
  = canon (xorb s1 s2) a (k1 - k2).
Proof.
  intros Hd Hk. pose proof (digits_mul a b) as Hm.
  assert (Hda : Zpos (digits2_pos a) <= 53) by lia.
  assert (Hdb : Zpos (digits2_pos b) <= 53) by lia.
  destruct (canon_mantissa (a * b) Hd) as [Hqc Hdc].
  destruct (canon_mantissa b Hdb) as [Hqb Hdqb].
  unfold canon at 1 2. cbn [SFdiv]. unfold SFdiv_core_binary.
  cbn [Zdigits2]. rewrite Hdc, Hdqb.
  set (dc := Zpos (digits2_pos (a * b))) in *.
  set (db := Zpos (digits2_pos b)) in *.
  set (da := Zpos (digits2_pos a)) in *.
  set (m1 := Z.to_pos (Zpos (a * b) * 2 ^ (53 - dc))) in *.
  set (m2 := Z.to_pos (Zpos b * 2 ^ (53 - db))) in *.
  set (e1 := k1 - (53 - dc)). set (e2 := k2 - (53 - db)).
  replace (53 + e1 - (53 + e2)) with (e1 - e2) by lia.
  rewrite fexp_normal by (unfold e1, e2; lia).
  replace (Z.min (e1 - e2 - 53) (e1 - e2)) with (e1 - e2 - 53) by lia.
  replace (e1 - e2 - (e1 - e2 - 53)) with 53 by lia.
  cbv iota.
  set (t := 53 - dc + db).
  assert (Ht : 53 - da <= t) by (unfold t; lia).
  assert (Ht0 : 0 <= t) by (unfold da in *; lia).
  assert (Hpow : 0 < 2 ^ t) by (apply Z.pow_pos_nonneg; lia).
  assert (Hm' : Z.shiftl (Zpos m1) 53 = Zpos m2 * (Zpos a * 2 ^ t)).
  { rewrite Z.shiftl_mul_pow2 by lia. rewrite Hqc, Hqb, Pos2Z.inj_mul. unfold t.
    replace (53 - dc + db) with ((53 - dc) + 53 - (53 - db)) by lia.
    assert (E : 2 ^ (53 - dc) * 2 ^ 53
                = 2 ^ (53 - db) * 2 ^ ((53 - dc) + 53 - (53 - db))).
    { rewrite <- !Z.pow_add_r by lia. f_equal. lia. }
    rewrite <- Z.mul_assoc, E. ring. }
  assert (Hde : Z.div_eucl (Z.shiftl (Zpos m1) 53) (Zpos m2)
                = (Zpos a * 2 ^ t, 0)).
  { pose proof (Z.div_eucl_eq (Z.shiftl (Zpos m1) 53) (Zpos m2) ltac:(lia)) as He.
    pose proof (Z.mod_pos_bound (Z.shiftl (Zpos m1) 53) (Zpos m2) ltac:(lia)) as Hb.
    unfold Z.modulo in Hb.
    destruct (Z.div_eucl (Z.shiftl (Zpos m1) 53) (Zpos m2)) as [q r].
    rewrite Hm' in He.
    assert (Hq : q = Zpos a * 2 ^ t) by nia.
    subst q. f_equal. lia. }
  rewrite Hde.
  assert (Hloc : new_location (Zpos m2) 0 = loc_Exact).
  { unfold new_location, new_location_even, new_location_odd.
    destruct (Z.even (Zpos m2)); reflexivity. }
  rewrite Hloc.
  destruct (Zpos a * 2 ^ t) as [| M | M] eqn:EM; [lia | | lia].
  replace (k1 - k2) with ((e1 - e2 - 53) + t) by (unfold e1, e2, t; lia).
  apply round_aux_canon;
    [exact Ht0 | first [reflexivity | symmetry; exact EM] | exact Hda | exact Ht |].
  unfold e1, e2, t, da in *. lia.
Qed.

Lemma shl_align_fst mx ex ez :
  ez <= ex -> Zpos (fst (shl_align mx ex ez)) = Zpos mx * 2 ^ (ex - ez).
Proof.
  intros H. unfold shl_align.
  destruct (ez - ex) as [| p | p] eqn:E; cbn [fst].
  - replace (ex - ez) with 0 by lia. rewrite Z.mul_1_r. reflexivity.
  - lia.
  - rewrite iter_xO. do 2 f_equal. lia.
Qed.

Lemma add_canon a b k :
  Zpos (digits2_pos (a + b)) <= 53 ->
  emin + 53 <= k <= emaxp ->
  SFadd prec emax (canon false a k) (canon false b k) = canon false (a + b) k.
Proof.
  intros Hd Hk.
  destruct (digits_bounds a) as [La Ha], (digits_bounds b) as [Lb Hb],
    (digits_bounds (a + b)) as [Lc Hc].
  rewrite Pos2Z.inj_add in Lc, Hc.
  assert (Hda : Zpos (digits2_pos a) <= 53).
  { destruct (Z_le_gt_dec (Zpos (digits2_pos a)) 53) as [? | Hgt]; [assumption |].
    exfalso.
    assert (2 ^ 53 <= 2 ^ (Zpos (digits2_pos a) - 1))
      by (apply Z.pow_le_mono_r; lia).
    assert (2 ^ Zpos (digits2_pos (a + b)) <= 2 ^ 53)
      by (apply Z.pow_le_mono_r; lia).
    lia. }
  assert (Hdb : Zpos (digits2_pos b) <= 53).
  { destruct (Z_le_gt_dec (Zpos (digits2_pos b)) 53) as [? | Hgt]; [assumption |].
    exfalso.
    assert (2 ^ 53 <= 2 ^ (Zpos (digits2_pos b) - 1))
      by (apply Z.pow_le_mono_r; lia).
    assert (2 ^ Zpos (digits2_pos (a + b)) <= 2 ^ 53)
      by (apply Z.pow_le_mono_r; lia).
    lia. }
  destruct (canon_mantissa a Hda) as [Hqa _], (canon_mantissa b Hdb) as [Hqb _].
  unfold canon at 1 2. cbn [SFadd cond_Zopp].
  set (da := Zpos (digits2_pos a)) in *. set (db := Zpos (digits2_pos b)) in *.
  set (ex := k - (53 - da)). set (ey := k - (53 - db)).
  set (ez := Z.min ex ey).
  rewrite !shl_align_fst by (unfold ez; lia).
  rewrite Hqa, Hqb.
  assert (Hsum : Zpos a * 2 ^ (53 - da) * 2 ^ (ex - ez)
                 + Zpos b * 2 ^ (53 - db) * 2 ^ (ey - ez)
                 = Zpos (a + b) * 2 ^ (k - ez)).
  { rewrite <- !Z.mul_assoc, <- !Z.pow_add_r by (unfold ez, ex, ey; lia).
    replace (53 - da + (ex - ez)) with (k - ez) by (unfold ex; lia).
    replace (53 - db + (ey - ez)) with (k - ez) by (unfold ey; lia).
    rewrite Pos2Z.inj_add. ring. }
  rewrite Hsum.
  assert (Hpos : 0 < Zpos (a + b) * 2 ^ (k - ez)).
  { apply Z.mul_pos_pos; [lia |]. apply Z.pow_pos_nonneg; unfold ez, ex, ey; lia. }
  destruct (Zpos (a + b) * 2 ^ (k - ez)) as [| M | M] eqn:EM; [lia | | lia].
  cbn [binary_normalize].
  rewrite (round_canon false M (a + b) (k - ez) ez);
    [f_equal; lia | unfold ez, ex, ey; lia | symmetry; exact EM | exact Hd | lia].
Qed.

Lemma sub_canon_self s a k :
  SFsub prec emax (canon s a k) (canon s a k) = S754_zero false.
Proof.
  unfold canon. cbn [SFsub]. rewrite Z.min_id, Z.sub_diag. reflexivity.
Qed.


(** *** Integers as floats *)

Lemma digits_le_53 p : Zpos p < 2 ^ 53 -> Zpos (digits2_pos p) <= 53.
Proof.
  intros H. destruct (digits_bounds p) as [Lo _].
  assert (Hlt : 2 ^ (Zpos (digits2_pos p) - 1) < 2 ^ 53) by lia.
  apply Z.pow_lt_mono_r_iff in Hlt; lia.
Qed.

Lemma of_int_SF n :
  0 <= n < 2 ^ 53 -> Prim2SF (Float64.of_int n) = SFofZ n.
Proof.
  intros Hn. unfold Float64.of_int.
  destruct (Z.ltb_spec n 0) as [? | _]; [lia |].
  rewrite of_uint63_spec, Uint63.of_Z_spec.
  rewrite Z.mod_small by (change wB with (2 ^ 63); lia).
  destruct n as [| p | p]; [reflexivity | | lia].
  cbn [binary_normalize SFofZ].
  rewrite (round_canon false p p 0 0);
    [reflexivity | lia | rewrite Z.mul_1_r; reflexivity | apply digits_le_53; lia |].
  pose proof (digits_le_53 p ltac:(lia)). lia.
Qed.

Lemma SFofZ_mul a b :
  0 <= a -> 0 <= b -> a * b < 2 ^ 53 ->
  SFmul prec emax (SFofZ a) (SFofZ b) = SFofZ (a * b).
Proof.
  intros Ha Hb Hab.
  destruct b as [| b | b]; [destruct a; reflexivity || lia | | lia].
  destruct a as [| a | a]; [reflexivity | | lia].
  change (Zpos a * Zpos b) with (Zpos (a * b)) in *. cbn [SFofZ].
  pose proof (digits_le_53 (a * b) ltac:(lia)) as Hd.
  rewrite mul_canon; [reflexivity | exact Hd | lia].
Qed.

Lemma SFofZ_div a b :
  0 <= a -> 0 < b -> a * b < 2 ^ 53 ->
  SFdiv prec emax (SFofZ (a * b)) (SFofZ b) = SFofZ a.
Proof.
  intros Ha Hb Hab.
  destruct b as [| b | b]; [lia | | lia].
  destruct a as [| a | a]; [reflexivity | | lia].
  change (Zpos a * Zpos b) with (Zpos (a * b)) in *. cbn [SFofZ].
  pose proof (digits_le_53 (a * b) ltac:(lia)) as Hd.
  rewrite div_canon; [reflexivity | exact Hd | lia].
Qed.

Lemma SFofZ_add a b :
  0 <= a -> 0 <= b -> a + b < 2 ^ 53 ->
  SFadd prec emax (SFofZ a) (SFofZ b) = SFofZ (a + b).
Proof.
  intros Ha Hb Hab.
  destruct b as [| b | b]; [destruct a; reflexivity || lia | | lia].
  destruct a as [| a | a]; [reflexivity | | lia].
  change (Zpos a + Zpos b) with (Zpos (a + b)) in *. cbn [SFofZ].
  pose proof (digits_le_53 (a + b) ltac:(lia)) as Hd.
  rewrite add_canon; [reflexivity | exact Hd | lia].
Qed.

Lemma SFofZ_sub_self a :
  SFsub prec emax (SFofZ a) (SFofZ a) = S754_zero false.
Proof. destruct a; [reflexivity | apply sub_canon_self | apply sub_canon_self]. Qed.

(** [int(f)] for a float that holds [p / 2^j]. *)
Lemma to_int_canon f p k :
  Prim2SF f = canon false p k -> Zpos p < 2 ^ 53 -> k <= 0 ->
  Float64.to_int f = Zpos p / 2 ^ (- k).
Proof.
  intros Hf Hp Hk. pose proof (digits_le_53 p Hp) as Hd.
  destruct (canon_mantissa p Hd) as [Hq _].
  unfold Float64.to_int. rewrite Hf. unfold canon.
  set (d := Zpos (digits2_pos p)) in *.
  assert (Hpow : 0 < 2 ^ (53 - d)) by (apply Z.pow_pos_nonneg; lia).
  assert (Hpowk : 0 < 2 ^ (- k)) by (apply Z.pow_pos_nonneg; lia).
  assert (Hv : (if 0 <=? k - (53 - d)
                then Z.shiftl (Zpos (Z.to_pos (Zpos p * 2 ^ (53 - d)))) (k - (53 - d))
                else Z.shiftr (Zpos (Z.to_pos (Zpos p * 2 ^ (53 - d))))
                              (- (k - (53 - d))))
               = Zpos p / 2 ^ (- k)).
  { rewrite Hq. destruct (Z.leb_spec 0 (k - (53 - d))) as [He | He].
    - assert (k = 0) by lia. assert (d = 53) by lia. subst k.
      replace (0 - (53 - d)) with 0 by lia. replace (53 - d) with 0 by lia.
      rewrite Z.shiftl_0_r. simpl. rewrite Z.div_1_r. lia.
    - rewrite Z.shiftr_div_pow2 by lia.
      replace (- (k - (53 - d))) with ((53 - d) + (- k)) by lia.
      rewrite Z.pow_add_r by lia.
      rewrite (Z.mul_comm (2 ^ (53 - d))).
      rewrite Z.div_mul_cancel_r by lia. reflexivity. }
  cbv zeta. rewrite Hv.
  assert (Hle : Zpos p / 2 ^ (- k) <= Zpos p).
  { apply Z.div_le_upper_bound; [lia | nia]. }
  destruct (Z.leb_spec (2 ^ 63) (Zpos p / 2 ^ (- k))) as [Hbig | _];
    [| reflexivity].
  assert (2 ^ 53 < 2 ^ 63) by (apply Z.pow_lt_mono_r; lia). lia.
Qed.

Lemma to_int_SF f n :
  Prim2SF f = SFofZ n -> 0 <= n < 2 ^ 53 -> Float64.to_int f = n.
Proof.
  intros Hf Hn. destruct n as [| p | p]; [| | lia].
  - unfold Float64.to_int. rewrite Hf. reflexivity.
  - rewrite (to_int_canon f p 0 Hf) by lia. simpl. apply Z.div_1_r.
Qed.

(** The same facts on the primitive floats. *)
Lemma mul_int x y a b :
  Prim2SF x = SFofZ a -> Prim2SF y = SFofZ b ->
  0 <= a -> 0 <= b -> a * b < 2 ^ 53 ->
  Prim2SF (x * y)%float = SFofZ (a * b).
Proof.
  intros Hx Hy Ha Hb Hab. rewrite FloatAxioms.mul_spec. unfold SF64mul.
  rewrite Hx, Hy. apply SFofZ_mul; assumption.
Qed.

Lemma add_int x y a b :
  Prim2SF x = SFofZ a -> Prim2SF y = SFofZ b ->
  0 <= a -> 0 <= b -> a + b < 2 ^ 53 ->
  Prim2SF (x + y)%float = SFofZ (a + b).
Proof.
  intros Hx Hy Ha Hb Hab. rewrite FloatAxioms.add_spec. unfold SF64add.
  rewrite Hx, Hy. apply SFofZ_add; assumption.
Qed.

Lemma div_int x y a b :
  Prim2SF x = SFofZ (a * b) -> Prim2SF y = SFofZ b ->
  0 <= a -> 0 < b -> a * b < 2 ^ 53 ->
  Prim2SF (x / y)%float = SFofZ a.
Proof.
  intros Hx Hy Ha Hb Hab. rewrite FloatAxioms.div_spec. unfold SF64div.
  rewrite Hx, Hy. apply SFofZ_div; assumption.
Qed.

Lemma sub_int_self x y a :
  Prim2SF x = SFofZ a -> Prim2SF y = SFofZ a ->
  Prim2SF (x - y)%float = S754_zero false.
Proof.
  intros Hx Hy. rewrite FloatAxioms.sub_spec. unfold SF64sub.
  rewrite Hx, Hy. apply SFofZ_sub_self.
Qed.

(** The source coordinate of [ResizeImage] when the size does not change:
    [float64(x) * float64(w) / float64(w)] is [float64(x)], its integer
    part is [x] and its fractional part, scaled to 16 bits, is 0. *)
Lemma same_size_coordinate x w :
  0 <= x < w -> w * w < 2 ^ 53 ->
  let srcX := (Float64.of_int x * Float64.of_int w / Float64.of_int w)%float in
  Float64.to_int srcX = x
  /\ Float64.to_uint32 ((srcX - Float64.of_int x) * 65535)%float = 0.
Proof.
  intros Hx Hw. cbv zeta.
  assert (Hxw : x * w < 2 ^ 53) by nia.
  assert (Hx53 : 0 <= x < 2 ^ 53) by nia.
  assert (Hw53 : 0 <= w < 2 ^ 53) by nia.
  pose proof (of_int_SF x Hx53) as Ex. pose proof (of_int_SF w Hw53) as Ew.
  pose proof (mul_int _ _ x w Ex Ew ltac:(lia) ltac:(lia) Hxw) as Em.
  pose proof (div_int _ _ x w Em Ew ltac:(lia) ltac:(lia) Hxw) as Ed.
  split.
  - apply to_int_SF; [exact Ed | exact Hx53].
  - pose proof (sub_int_self _ _ x Ed Ex) as Es.
    unfold Float64.to_uint32, Float64.to_int.
    rewrite FloatAxioms.mul_spec, Es. reflexivity.
Qed.

End Float64Facts.

(* ===================================================================== *)
(** ** Binary64 arithmetic that rounds

    Past 2^53 a product or a quotient of integers is rounded.  This
    section follows [binary_round_aux] through its two shifts and bounds
    what it returns: one of the two mantissas around the exact value, and
    the nearer one when nothing was lost before the call. *)

Module RoundingFacts.
Import Binary64 Float64Facts.

(** *** The shift, one bit at a time *)

Lemma iter_pos_nat {A : Type} (f : A -> A) p x :
  SpecFloat.iter_pos f p x = Nat.iter (Pos.to_nat p) f x.
Proof.
  revert x. induction p as [p IH | p IH |]; intros x; cbn [SpecFloat.iter_pos].
  - rewrite !IH, <- Nat.iter_succ_r, <- Nat.iter_add. f_equal. lia.
  - rewrite !IH, <- Nat.iter_add. f_equal. lia.
  - reflexivity.
Qed.

Lemma shr_1_m rec : 0 <= shr_m rec -> shr_m (shr_1 rec) = shr_m rec / 2.
Proof.
  destruct rec as [m r s]. cbn [shr_m]. intros Hm. rewrite <- Z.div2_div.
  destruct m as [| [q | q |] |]; try reflexivity. lia.
Qed.

Lemma shr_1_r rec : 0 <= shr_m rec -> shr_r (shr_1 rec) = Z.odd (shr_m rec).
Proof.
  destruct rec as [m r s]. cbn [shr_m]. intros Hm.
  destruct m as [| [q | q |] |]; try reflexivity. lia.
Qed.

Lemma shr_1_s rec : shr_s (shr_1 rec) = shr_r rec || shr_s rec.
Proof. destruct rec as [m r s]. destruct m as [| [q | q |] | [q | q |]]; reflexivity. Qed.

Lemma iter_shr_m n rec :
  0 <= shr_m rec -> shr_m (Nat.iter n shr_1 rec) = shr_m rec / 2 ^ Z.of_nat n.
Proof.
  intros Hm. induction n as [| n IH].
  - change (Nat.iter 0 shr_1 rec) with rec.
    change (2 ^ Z.of_nat 0) with 1. rewrite Z.div_1_r. reflexivity.
  - rewrite Nat.iter_succ, shr_1_m, IH.
    + rewrite Nat2Z.inj_succ, Z.pow_succ_r, Z.div_div by lia.
      f_equal. lia.
    + rewrite IH. apply Z.div_pos; [exact Hm | apply Z.pow_pos_nonneg; lia].
Qed.

(** The low bits of [M] below bit [n + 1] are zero when bit [n] and the
    bits below it are. *)
Lemma low_bits M n :
  0 <= n ->
  M mod 2 ^ (n + 1) = M mod 2 ^ n + 2 ^ n * ((M / 2 ^ n) mod 2).
Proof.
  intros Hn. rewrite Z.pow_add_r, Z.pow_1_r by lia.
  apply Z.rem_mul_r; [| lia].
  assert (0 < 2 ^ n) by (apply Z.pow_pos_nonneg; lia). lia.
Qed.

Lemma odd_mod z : Z.odd z = negb (z mod 2 =? 0).
Proof.
  rewrite Zmod_odd. destruct (Z.odd z); reflexivity.
Qed.

(** After [n + 1] steps from [(M, false, false)] the round bit is bit [n]
    of [M] and the sticky bit tells whether a lower bit is set. *)
Lemma iter_shr_bits n M :
  0 <= M ->
  let rec := Nat.iter (S n) shr_1 (Build_shr_record M false false) in
  shr_r rec = Z.odd (M / 2 ^ Z.of_nat n)
  /\ shr_s rec = negb (M mod 2 ^ Z.of_nat n =? 0).
Proof.
  intros HM. cbv zeta. induction n as [| n [IHr IHs]].
  - change (Nat.iter 1 shr_1 (Build_shr_record M false false))
      with (shr_1 (Build_shr_record M false false)).
    rewrite shr_1_r, shr_1_s by exact HM. cbn [shr_m shr_r shr_s].
    change (2 ^ Z.of_nat 0) with 1. rewrite Z.div_1_r, Z.mod_1_r. split; reflexivity.
  - set (rec := Nat.iter (S n) shr_1 (Build_shr_record M false false)) in *.
    change (Nat.iter (S (S n)) shr_1 (Build_shr_record M false false))
      with (shr_1 rec).
    assert (Hm : shr_m rec = M / 2 ^ Z.of_nat (S n))
      by (unfold rec; rewrite iter_shr_m by exact HM; reflexivity).
    assert (Hpos : 0 <= shr_m rec).
    { rewrite Hm. apply Z.div_pos; [exact HM | apply Z.pow_pos_nonneg; lia]. }
    rewrite shr_1_r, shr_1_s, Hm, IHr, IHs by exact Hpos.
    split; [reflexivity |].
    rewrite Nat2Z.inj_succ, <- Z.add_1_r, low_bits by lia.
    rewrite odd_mod.
    pose proof (Z.mod_pos_bound M (2 ^ Z.of_nat n)
                  ltac:(apply Z.pow_pos_nonneg; lia)) as Hb1.
    pose proof (Z.mod_pos_bound (M / 2 ^ Z.of_nat n) 2 ltac:(lia)) as Hb2.
    assert (0 < 2 ^ Z.of_nat n) by (apply Z.pow_pos_nonneg; lia).
    destruct (Z.eqb_spec ((M / 2 ^ Z.of_nat n) mod 2) 0) as [E2 | E2];
      destruct (Z.eqb_spec (M mod 2 ^ Z.of_nat n) 0) as [E1 | E1];
      cbn [negb orb];
      match goal with
      | |- _ = negb (?a =? 0) => destruct (Z.eqb_spec a 0) as [E | E]
      end; try reflexivity; exfalso; nia.
Qed.

(** *** Rounding to nearest, ties to even *)

Lemma round_nearest_even_cases q l :
  round_nearest_even q l = q \/ round_nearest_even q l = q + 1.
Proof.
  destruct l as [| []]; cbn [round_nearest_even]; auto.
  destruct (Z.even q); auto.
Qed.

Lemma loc_of_record_of_loc m l :
  loc_of_shr_record (shr_record_of_loc m l) = l.
Proof. destruct l as [| []]; reflexivity. Qed.

Lemma shr_m_record_of_loc m l : shr_m (shr_record_of_loc m l) = m.
Proof. destruct l as [| []]; reflexivity. Qed.

(** What the first shift and the rounding give: the quotient by [2^p] or
    its successor and, with nothing lost before, the nearer of the two. *)
Lemma shift_and_round M p l :
  0 < M -> 0 <= p ->
  let mrs := fst (shr (shr_record_of_loc M l) 0 p) in
  let q' := round_nearest_even (shr_m mrs) (loc_of_shr_record mrs) in
  (q' = M / 2 ^ p \/ q' = M / 2 ^ p + 1)
  /\ (l = loc_Exact -> 2 * Z.abs (q' * 2 ^ p - M) <= 2 ^ p).
Proof.
  intros HM Hp. cbv zeta. destruct p as [| p | p]; [| | lia].
  - cbn [shr fst]. rewrite loc_of_record_of_loc, shr_m_record_of_loc.
    change (2 ^ 0) with 1. rewrite Z.div_1_r. split.
    + apply round_nearest_even_cases.
    + intros ->. cbn [round_nearest_even]. lia.
  - cbn [shr fst]. rewrite iter_pos_nat.
    assert (Hm : shr_m (Nat.iter (Pos.to_nat p) shr_1 (shr_record_of_loc M l))
                 = M / 2 ^ Zpos p).
    { rewrite iter_shr_m by (rewrite shr_m_record_of_loc; lia).
      rewrite shr_m_record_of_loc, positive_nat_Z. reflexivity. }
    split.
    + rewrite Hm. apply round_nearest_even_cases.
    + intros ->. cbn [shr_record_of_loc] in *.
      destruct (Pos2Nat.is_succ p) as [n Hn]. rewrite Hn in *.
      destruct (iter_shr_bits n M ltac:(lia)) as [Hr Hs].
      assert (Hpn : Zpos p = Z.of_nat n + 1) by lia.
      set (rec := Nat.iter (S n) shr_1 (Build_shr_record M false false)) in *.
      destruct rec as [m r s]. cbn [shr_m shr_r shr_s loc_of_shr_record] in *.
      subst m. rewrite Hpn.
      pose proof (low_bits M (Z.of_nat n) ltac:(lia)) as Hlow.
      pose proof (Z.div_mod M (2 ^ (Z.of_nat n + 1))
                    ltac:(apply Z.pow_nonzero; lia)) as Hdm.
      pose proof (Z.mod_pos_bound M (2 ^ Z.of_nat n)
                    ltac:(apply Z.pow_pos_nonneg; lia)) as Hb1.
      assert (Hpw : 2 ^ (Z.of_nat n + 1) = 2 * 2 ^ Z.of_nat n)
        by (rewrite Z.pow_add_r by lia; lia).
      rewrite odd_mod in Hr.
      set (Q := M / 2 ^ (Z.of_nat n + 1)) in *.
      set (b := (M / 2 ^ Z.of_nat n) mod 2) in *.
      set (t := M mod 2 ^ Z.of_nat n) in *.
      set (P := 2 ^ Z.of_nat n) in *.
      assert (Hb2 : 0 <= b < 2) by (apply Z.mod_pos_bound; lia).
      destruct r, s; cbn [round_nearest_even];
        destruct (Z.eqb_spec b 0) as [Eb | Eb]; try discriminate;
        destruct (Z.eqb_spec t 0) as [Et | Et]; try discriminate;
        try (destruct (Z.even Q)); nia.
Qed.

Lemma shr_split rec e p : 0 <= p -> shr rec e p = (fst (shr rec 0 p), e + p).
Proof.
  intros Hp. destruct p as [| p | p]; [| | lia]; cbn [shr fst].
  - rewrite Z.add_0_r. reflexivity.
  - reflexivity.
Qed.

(** *** [binary_round_aux] on a mantissa of at least 53 digits

    The result is finite with a mantissa of 53 digits; counted in units of
    [2^(E + p)], where [p] is the number of digits that do not fit, it is
    the quotient of the mantissa by [2^p] or the successor of the quotient;
    when the call starts from an exact value it is within half a unit of
    it. *)
Lemma round_bracket s M E l :
  let p := Zpos (digits2_pos M) - 53 in
  0 <= p -> emin <= E + p -> E + p < emaxp ->
  exists m' e' q',
    binary_round_aux prec emax s (Zpos M) E l = S754_finite s m' e'
    /\ Zpos (digits2_pos m') = 53
    /\ E + p <= e' <= E + p + 1
    /\ Zpos m' * 2 ^ (e' - (E + p)) = q'
    /\ (q' = Zpos M / 2 ^ p \/ q' = Zpos M / 2 ^ p + 1)
    /\ (l = loc_Exact -> 2 * Z.abs (q' * 2 ^ p - Zpos M) <= 2 ^ p).
Proof.
  intros p Hp Hlo Hhi.
  destruct (shift_and_round (Zpos M) p l ltac:(lia) Hp) as [Hq Hnear].
  cbv zeta in Hq, Hnear.
  unfold binary_round_aux, shr_fexp. cbn [Zdigits2].
  rewrite fexp_normal by (unfold p in *; lia).
  replace (Zpos (digits2_pos M) + E - 53 - E) with p by (unfold p; lia).
  rewrite (shr_split _ E p Hp).
  set (mrs := fst (shr (shr_record_of_loc (Zpos M) l) 0 p)) in *.
  set (q' := round_nearest_even (shr_m mrs) (loc_of_shr_record mrs)) in *.
  destruct (digits_bounds M) as [HMlo HMhi]. fold p in HMlo.
  assert (Hpow : 0 < 2 ^ p) by (apply Z.pow_pos_nonneg; lia).
  assert (Hd : Zpos (digits2_pos M) = 53 + p) by (unfold p; lia).
  rewrite Hd in HMlo, HMhi.
  replace (53 + p - 1) with (52 + p) in HMlo by lia.
  rewrite Z.pow_add_r in HMlo, HMhi by lia.
  assert (Hq52 : 2 ^ 52 <= Zpos M / 2 ^ p).
  { apply Z.div_le_lower_bound; [exact Hpow | lia]. }
  assert (Hq53 : Zpos M / 2 ^ p < 2 ^ 53).
  { apply Z.div_lt_upper_bound; [exact Hpow | lia]. }
  assert (Hq' : 2 ^ 52 <= q' <= 2 ^ 53) by (destruct Hq as [-> | ->]; lia).
  destruct (Z.eq_dec q' (2 ^ 53)) as [Etop | Etop].
  - exists (2 ^ 52)%positive, (E + p + 1), q'. rewrite Etop.
    change (Zdigits2 (2 ^ 53)) with 54. rewrite fexp_normal by lia.
    replace (54 + (E + p) - 53 - (E + p)) with 1 by lia.
    cbn [shr shr_record_of_loc SpecFloat.iter_pos].
    change (shr_1 (Build_shr_record (2 ^ 53) false false))
      with (Build_shr_record (Zpos (2 ^ 52)) false false).
    cbn [shr_m]. unfold prec, emax.
    destruct (Z.leb_spec (E + p + 1) (1024 - 53)) as [_ | Hbad]; [| lia].
    split; [reflexivity |]. split; [reflexivity |]. split; [lia |].
    split; [replace (E + p + 1 - (E + p)) with 1 by lia; reflexivity |].
    rewrite <- Etop. split; [exact Hq | exact Hnear].
  - destruct q' as [| m' | m'] eqn:Eq'; [lia | | lia].
    assert (Hdm : Zpos (digits2_pos m') = 53)
      by (apply digits_unique; change (53 - 1) with 52; lia).
    exists m', (E + p), (Zpos m').
    cbn [Zdigits2]. rewrite Hdm, fexp_normal by lia.
    replace (53 + (E + p) - 53 - (E + p)) with 0 by lia.
    cbn [shr shr_record_of_loc shr_m]. unfold prec, emax.
    destruct (Z.leb_spec (E + p) (1024 - 53)) as [_ | Hbad]; [| lia].
    split; [reflexivity |]. split; [first [exact Hdm | reflexivity] |]. split; [lia |].
    split; [rewrite Z.sub_diag, Z.mul_1_r; reflexivity |].
    split; [exact Hq | exact Hnear].
Qed.

(** *** A product of two integers that needs more than 53 digits

    The product is rounded to a multiple [P] of [2^g], where [g] is the
    number of digits that do not fit, and [P] is within [2^g / 2] of the
    exact product. *)
Lemma mul_nearest a b :
  Zpos a < 2 ^ 53 -> Zpos b < 2 ^ 53 -> 2 ^ 53 <= Zpos a * Zpos b ->
  let g := Zpos (digits2_pos (a * b)) - 53 in
  exists m e,
    SFmul prec emax (SFofZ (Zpos a)) (SFofZ (Zpos b)) = S754_finite false m e
    /\ Zpos (digits2_pos m) = 53
    /\ 1 <= g <= e /\ e <= g + 1 /\ g <= 53
    /\ 2 * Z.abs (Zpos m * 2 ^ e - Zpos a * Zpos b) <= 2 ^ g.
Proof.
  intros Ha Hb Hab g.
  pose proof (digits_le_53 a Ha) as Hda. pose proof (digits_le_53 b Hb) as Hdb.
  destruct (canon_mantissa a Hda) as [Hqa _], (canon_mantissa b Hdb) as [Hqb _].
  pose proof (digits_mul a b) as Hdm.
  destruct (digits_bounds (a * b)) as [_ Hhi]. rewrite Pos2Z.inj_mul in Hhi.
  assert (Hg1 : 1 <= g).
  { unfold g.
    destruct (Z_lt_le_dec 53 (Zpos (digits2_pos (a * b)))) as [? | Hle]; [lia |].
    exfalso.
    assert (2 ^ Zpos (digits2_pos (a * b)) <= 2 ^ 53)
      by (apply Z.pow_le_mono_r; lia).
    lia. }
  cbn [SFofZ]. unfold canon. cbn [SFmul xorb].
  set (da := Zpos (digits2_pos a)) in *. set (db := Zpos (digits2_pos b)) in *.
  set (ma := Z.to_pos (Zpos a * 2 ^ (53 - da))) in *.
  set (mb := Z.to_pos (Zpos b * 2 ^ (53 - db))) in *.
  set (t := (53 - da) + (53 - db)).
  assert (Ht : 0 <= t) by (unfold t; lia).
  assert (HM : Zpos (ma * mb) = Zpos (a * b) * 2 ^ t).
  { rewrite Pos2Z.inj_mul, Hqa, Hqb, Pos2Z.inj_mul. unfold t.
    rewrite Z.pow_add_r by lia. ring. }
  pose proof (digits_scaled (ma * mb) (a * b) t Ht HM) as HdM.
  destruct (round_bracket false (ma * mb) (0 - (53 - da) + (0 - (53 - db)))
              loc_Exact) as (m & e & q' & Hr & Hm53 & He & Hq' & _ & Hnear).
  { rewrite HdM. fold g. lia. }
  { rewrite HdM. fold g. unfold t. lia. }
  { rewrite HdM. fold g. unfold t. lia. }
  rewrite HdM in He, Hq', Hnear. specialize (Hnear eq_refl).
  replace (0 - (53 - da) + (0 - (53 - db))
           + (Zpos (digits2_pos (a * b)) + t - 53)) with g in He, Hq'
    by (unfold g, t; lia).
  replace (Zpos (digits2_pos (a * b)) + t - 53) with (g + t) in Hnear
    by (unfold g; lia).
  exists m, e. split; [exact Hr |]. split; [exact Hm53 |].
  split; [lia |]. split; [lia |]. split; [unfold g; lia |].
  assert (Hpt : 0 < 2 ^ t) by (apply Z.pow_pos_nonneg; lia).
  assert (Hpg : 0 < 2 ^ g) by (apply Z.pow_pos_nonneg; lia).
  assert (Hval : Zpos m * 2 ^ e = q' * 2 ^ g).
  { rewrite <- Hq', <- Z.mul_assoc, <- Z.pow_add_r by lia.
    do 2 f_equal. lia. }
  rewrite Hval.
  rewrite HM, Z.pow_add_r, Pos2Z.inj_mul in Hnear by lia.
  replace (q' * (2 ^ g * 2 ^ t) - Zpos a * Zpos b * 2 ^ t)
    with ((q' * 2 ^ g - Zpos a * Zpos b) * 2 ^ t) in Hnear by ring.
  rewrite Z.abs_mul, (Z.abs_eq (2 ^ t)) in Hnear by lia.
  nia.
Qed.

(** *** A quotient by an integer

    The quotient of a float [m1 * 2^e1] by the integer [b] is, in units of
    [2^u], one of the two integers around the exact quotient. *)
Lemma div_bracket m1 e1 b :
  Zpos (digits2_pos m1) = 53 -> Zpos b < 2 ^ 53 -> 0 <= e1 <= 900 ->
  exists m2 e2 Q u,
    SFdiv prec emax (S754_finite false m1 e1) (SFofZ (Zpos b))
    = S754_finite false m2 e2
    /\ Zpos (digits2_pos m2) = 53
    /\ e1 - Zpos (digits2_pos b) <= u <= e1 - Zpos (digits2_pos b) + 1
    /\ u <= e2 <= u + 1
    /\ (Zpos m2 * 2 ^ (e2 - u) = Q \/ Zpos m2 * 2 ^ (e2 - u) = Q + 1)
    /\ 2 ^ 52 <= Q
    /\ (u <= 0 ->
        Q * Zpos b <= Zpos m1 * 2 ^ e1 * 2 ^ (- u) < (Q + 1) * Zpos b).
Proof.
  intros Hd1 Hb He1.
  pose proof (digits_le_53 b Hb) as Hdb.
  destruct (canon_mantissa b Hdb) as [Hqb Hdqb].
  cbn [SFofZ]. unfold canon. cbn [SFdiv]. unfold SFdiv_core_binary.
  cbn [Zdigits2]. rewrite Hd1, Hdqb.
  set (db := Zpos (digits2_pos b)) in *.
  set (mb := Z.to_pos (Zpos b * 2 ^ (53 - db))) in *.
  assert (Hdb0 : 0 < db) by (unfold db; lia).
  replace (53 + e1 - (53 + (0 - (53 - db)))) with (e1 - (0 - (53 - db))) by lia.
  rewrite fexp_normal by lia.
  replace (Z.min (e1 - (0 - (53 - db)) - 53) (e1 - (0 - (53 - db))))
    with (e1 - db) by lia.
  replace (e1 - (0 - (53 - db)) - (e1 - db)) with 53 by lia.
  cbv iota.
  destruct (digits_bounds m1) as [Lm1 Hm1]. rewrite Hd1 in Lm1, Hm1.
  destruct (digits_bounds mb) as [Lmb Hmb]. rewrite Hdqb in Lmb, Hmb.
  change (53 - 1) with 52 in Lm1, Lmb.
  assert (Hsh : Z.shiftl (Zpos m1) 53 = Zpos m1 * 2 ^ 53)
    by (apply Z.shiftl_mul_pow2; lia).
  pose proof (Z.div_eucl_eq (Z.shiftl (Zpos m1) 53) (Zpos mb) ltac:(lia)) as Hde.
  pose proof (Z.mod_pos_bound (Z.shiftl (Zpos m1) 53) (Zpos mb) ltac:(lia)) as Hrb.
  unfold Z.modulo in Hrb.
  destruct (Z.div_eucl (Z.shiftl (Zpos m1) 53) (Zpos mb)) as [q r].
  rewrite Hsh in Hde.
  assert (Hq52 : 2 ^ 52 <= q).
  { destruct (Z_lt_le_dec q (2 ^ 52)) as [Hlt | ?]; [exfalso | assumption].
    assert (Zpos mb * (q + 1) <= Zpos mb * 2 ^ 52)
      by (apply Z.mul_le_mono_nonneg_l; lia).
    lia. }
  assert (Hq54 : q < 2 ^ 54).
  { destruct (Z_lt_le_dec q (2 ^ 54)) as [? | Hge]; [assumption | exfalso].
    assert (2 ^ 52 * 2 ^ 54 <= Zpos mb * q)
      by (apply Z.mul_le_mono_nonneg; lia).
    lia. }
  destruct q as [| q | q]; [lia | | lia].
  destruct (digits_bounds q) as [Lq Hq].
  set (dq := Zpos (digits2_pos q)) in *.
  assert (Hdq : 53 <= dq <= 54).
  { split.
    - destruct (Z_lt_le_dec dq 53) as [Hlt | ?]; [exfalso | lia].
      assert (2 ^ dq <= 2 ^ 52) by (apply Z.pow_le_mono_r; lia). lia.
    - destruct (Z_lt_le_dec 54 dq) as [Hlt | ?]; [exfalso | lia].
      assert (2 ^ 54 <= 2 ^ (dq - 1)) by (apply Z.pow_le_mono_r; lia). lia. }
  destruct (round_bracket false q (e1 - db) (new_location (Zpos mb) r))
    as (m2 & e2 & q' & Hr & Hm53 & He & Hq' & Hcases & _);
    [fold dq; lia | fold dq; lia | fold dq; lia |].
  fold dq in He, Hq', Hcases.
  set (p' := dq - 53) in *.
  exists m2, e2, (Zpos q / 2 ^ p'), (e1 - db + p').
  split; [exact Hr |]. split; [exact Hm53 |]. split; [lia |]. split; [lia |].
  split; [rewrite Hq'; exact Hcases |].
  assert (Hpp : 0 < 2 ^ p') by (apply Z.pow_pos_nonneg; lia).
  assert (HQ : 2 ^ 52 <= Zpos q / 2 ^ p').
  { apply Z.div_le_lower_bound; [exact Hpp |].
    replace dq with (53 + p') in Lq by (unfold p'; lia).
    replace (53 + p' - 1) with (p' + 52) in Lq by lia.
    rewrite Z.pow_add_r in Lq by lia. lia. }
  split; [exact HQ |].
  intros Hu.
  set (Q := Zpos q / 2 ^ p') in *.
  pose proof (Z.div_mod (Zpos q) (2 ^ p') ltac:(lia)) as Hdm. fold Q in Hdm.
  pose proof (Z.mod_pos_bound (Zpos q) (2 ^ p') Hpp) as Hmb'.
  (* 2^53 = 2^(db - p') * 2^(53 - db + p') *)
  set (c := 53 - db + p') in *.
  assert (Hc : 0 <= c) by (unfold c; lia).
  assert (Hpc : 0 < 2 ^ c) by (apply Z.pow_pos_nonneg; lia).
  assert (E1 : Zpos m1 * 2 ^ 53 = Zpos m1 * 2 ^ e1 * 2 ^ (- (e1 - db + p')) * 2 ^ c).
  { rewrite <- !Z.mul_assoc, <- !Z.pow_add_r by (unfold c; lia).
    do 2 f_equal. unfold c. lia. }
  assert (E2 : Zpos mb * 2 ^ p' = Zpos b * 2 ^ c).
  { rewrite Hqb, <- Z.mul_assoc, <- Z.pow_add_r by lia. reflexivity. }
  set (PN := Zpos m1 * 2 ^ e1 * 2 ^ (- (e1 - db + p'))) in *.
  assert (Hlow : Zpos mb * (2 ^ p' * Q) <= Zpos mb * Zpos q)
    by (apply Z.mul_le_mono_nonneg_l; lia).
  assert (Hupp : Zpos mb * (Zpos q + 1) <= Zpos mb * (2 ^ p' * (Q + 1)))
    by (apply Z.mul_le_mono_nonneg_l; lia).
  assert (H1 : Q * Zpos b * 2 ^ c <= PN * 2 ^ c).
  { rewrite <- E1, <- Z.mul_assoc, <- E2. lia. }
  assert (H2 : PN * 2 ^ c < (Q + 1) * Zpos b * 2 ^ c).
  { rewrite <- E1, <- Z.mul_assoc, <- E2. lia. }
  split.
  - apply (Z.mul_le_mono_pos_r _ _ (2 ^ c)); assumption.
  - apply (Z.mul_lt_mono_pos_r (2 ^ c)); assumption.
Qed.

(** *** The quotient [x * w / w], computed with a rounded product

    [P] is the rounded product, within a relative error of [2^-53] of
    [x * w]; [Q] and [Q + 1] are the integers around [P / w] in units of
    [2^-n].  For [x] below [2^44] both are within [2^-9] of [x]. *)
Lemma quotient_near x w P Q n g :
  0 < x < w -> x < 2 ^ 44 -> 0 <= g ->
  2 ^ g * 2 ^ 52 <= x * w -> 2 * Z.abs (P - x * w) <= 2 ^ g ->
  0 <= n -> 2 ^ 52 <= Q ->
  Q * w <= P * 2 ^ n < (Q + 1) * w ->
  9 <= n /\ - 2 ^ n <= (Q - x * 2 ^ n) * 512 /\ (Q + 1 - x * 2 ^ n) * 512 <= 2 ^ n.
Proof.
  intros Hx Hx44 Hg HA HP Hn HQ [Hlo Hhi].
  set (N := 2 ^ n) in *. set (A := x * w) in *.
  assert (HN : 0 < N) by (apply Z.pow_pos_nonneg; lia).
  assert (Hrel : Z.abs (P - A) * 2 ^ 53 <= A) by lia.
  assert (Hup : P * 2 ^ 53 <= A * 2 ^ 53 + A) by lia.
  assert (Hdn : A * 2 ^ 53 - A <= P * 2 ^ 53) by lia.
  assert (HupN : P * 2 ^ 53 * N <= (A * 2 ^ 53 + A) * N)
    by (apply Z.mul_le_mono_nonneg_r; lia).
  assert (HdnN : (A * 2 ^ 53 - A) * N <= P * 2 ^ 53 * N)
    by (apply Z.mul_le_mono_nonneg_r; lia).
  assert (U1 : (Q * 2 ^ 53) * w <= (x * (2 ^ 53 + 1) * N) * w).
  { replace (x * (2 ^ 53 + 1) * N * w) with ((A * 2 ^ 53 + A) * N)
      by (unfold A; ring).
    replace (Q * 2 ^ 53 * w) with (Q * w * 2 ^ 53) by ring.
    replace (P * 2 ^ 53 * N) with (P * N * 2 ^ 53) in HupN by ring. lia. }
  apply Z.mul_le_mono_pos_r in U1; [| lia].
  assert (L1 : (x * (2 ^ 53 - 1) * N) * w < ((Q + 1) * 2 ^ 53) * w).
  { replace (x * (2 ^ 53 - 1) * N * w) with ((A * 2 ^ 53 - A) * N)
      by (unfold A; ring).
    replace ((Q + 1) * 2 ^ 53 * w) with ((Q + 1) * w * 2 ^ 53) by ring.
    replace (P * 2 ^ 53 * N) with (P * N * 2 ^ 53) in HdnN by ring. lia. }
  apply Z.mul_lt_mono_pos_r in L1; [| lia].
  assert (Hn9 : 9 <= n).
  { destruct (Z_lt_le_dec n 9) as [Hlt | ?]; [exfalso | assumption].
    assert (N <= 2 ^ 8) by (apply Z.pow_le_mono_r; lia).
    assert (x * (2 ^ 53 + 1) * N <= (2 ^ 44 - 1) * (2 ^ 53 + 1) * 2 ^ 8).
    { apply Z.mul_le_mono_nonneg; [lia | | lia | assumption].
      apply Z.mul_le_mono_nonneg_r; lia. }
    lia. }
  split; [exact Hn9 |].
  assert (HNT : N = 512 * 2 ^ (n - 9)).
  { unfold N. replace n with (9 + (n - 9)) at 1 by lia.
    rewrite Z.pow_add_r by lia. reflexivity. }
  set (T := 2 ^ (n - 9)) in *.
  assert (HT : 0 < T) by (apply Z.pow_pos_nonneg; lia).
  assert (HxT : x * T <= (2 ^ 44 - 1) * T)
    by (apply Z.mul_le_mono_nonneg_r; lia).
  rewrite HNT in U1, L1 |- *.
  replace (x * (2 ^ 53 + 1) * (512 * T))
    with (x * T * (512 * 2 ^ 53) + x * T * 512) in U1 by ring.
  replace (x * (2 ^ 53 - 1) * (512 * T))
    with (x * T * (512 * 2 ^ 53) - x * T * 512) in L1 by ring.
  replace (x * (512 * T)) with (x * T * 512) by ring.
  split; lia.
Qed.

Lemma digits_lt p d : 0 <= d -> Zpos p < 2 ^ d -> Zpos (digits2_pos p) <= d.
Proof.
  intros Hd H. destruct (digits_bounds p) as [Lo _].
  assert (Hlt : 2 ^ (Zpos (digits2_pos p) - 1) < 2 ^ d) by lia.
  apply Z.pow_lt_mono_r_iff in Hlt; lia.
Qed.

(** The float [float64(x) * float64(w) / float64(w)] when the product
    needs more than 53 digits: a mantissa [m2] of 53 digits with the
    exponent [- n2], within [2^-9] of [x]. *)
Lemma same_size_quotient a b :
  Zpos a < Zpos b -> Zpos b <= 2 ^ 44 -> 2 ^ 53 <= Zpos a * Zpos b ->
  exists m2 n2,
    SFdiv prec emax
      (SFmul prec emax (SFofZ (Zpos a)) (SFofZ (Zpos b))) (SFofZ (Zpos b))
    = S754_finite false m2 (- n2)
    /\ Zpos (digits2_pos m2) = 53 /\ 8 <= n2
    /\ Z.abs (Zpos m2 - Zpos a * 2 ^ n2) * 512 <= 2 ^ n2.
Proof.
  intros Hab Hb Hprod.
  assert (Ha53 : Zpos a < 2 ^ 53) by lia.
  assert (Hb53 : Zpos b < 2 ^ 53) by lia.
  destruct (mul_nearest a b Ha53 Hb53 Hprod)
    as (m1 & e1 & Hmul & Hd1 & Hg & He1 & Hg53 & Hnear).
  set (g := Zpos (digits2_pos (a * b)) - 53) in *.
  rewrite Hmul.
  destruct (div_bracket m1 e1 b Hd1 Hb53 ltac:(lia))
    as (m2 & e2 & Q & u & Hdiv & Hd2 & Hu & He2 & HQ' & HQ & Hbr).
  pose proof (digits_mul a b) as Hdm.
  pose proof (digits_lt a 44 ltac:(lia) ltac:(lia)) as Hda.
  assert (Hu0 : u <= -5) by lia.
  specialize (Hbr ltac:(lia)).
  assert (HA : 2 ^ g * 2 ^ 52 <= Zpos a * Zpos b).
  { destruct (digits_bounds (a * b)) as [Lo _]. rewrite Pos2Z.inj_mul in Lo.
    rewrite <- Z.pow_add_r by lia.
    replace (g + 52) with (Zpos (digits2_pos (a * b)) - 1) by (unfold g; lia).
    exact Lo. }
  destruct (quotient_near (Zpos a) (Zpos b) (Zpos m1 * 2 ^ e1) Q (- u) g
              ltac:(lia) ltac:(lia) ltac:(lia) HA Hnear ltac:(lia) HQ Hbr)
    as (Hn9 & Hlo & Hhi).
  exists m2, (- e2). rewrite Z.opp_involutive.
  split; [exact Hdiv |]. split; [exact Hd2 |]. split; [lia |].
  assert (He : e2 = u \/ e2 = u + 1) by lia.
  assert (HN : 0 < 2 ^ (- e2)) by (apply Z.pow_pos_nonneg; lia).
  destruct He as [-> | ->].
  - rewrite Z.sub_diag, Z.mul_1_r in HQ'. destruct HQ' as [-> | ->]; lia.
  - replace (u + 1 - u) with 1 in HQ' by lia. change (2 ^ 1) with 2 in HQ'.
    assert (E : 2 ^ (- u) = 2 * 2 ^ (- (u + 1))).
    { replace (- u) with (1 + - (u + 1)) by lia.
      rewrite Z.pow_add_r by lia. reflexivity. }
    rewrite E in Hlo, Hhi.
    set (N := 2 ^ (- (u + 1))) in *.
    destruct HQ' as [HQ' | HQ']; lia.
Qed.

(** *** The fractional part

    [f - float64(int(f))] for a positive float [m2 * 2^(-n2)] is exact: it
    is the float of [m2 mod 2^n2] in units of [2^(-n2)]. *)
Lemma sub_frac m2 n2 x0 :
  Zpos (digits2_pos m2) = 53 -> 0 <= n2 ->
  x0 = Zpos m2 / 2 ^ n2 -> 0 < x0 ->
  SFsub prec emax (S754_finite false m2 (- n2)) (SFofZ x0)
  = match Zpos m2 mod 2 ^ n2 with
    | Zpos d => canon false d (- n2)
    | _ => S754_zero false
    end.
Proof.
  intros Hd2 Hn2 Hx0 Hpos.
  assert (HN : 0 < 2 ^ n2) by (apply Z.pow_pos_nonneg; lia).
  destruct (digits_bounds m2) as [Lm2 Hm2]. rewrite Hd2 in Lm2, Hm2.
  pose proof (Z.div_mod (Zpos m2) (2 ^ n2) ltac:(lia)) as Hdm.
  pose proof (Z.mod_pos_bound (Zpos m2) (2 ^ n2) HN) as Hmod.
  rewrite <- Hx0 in Hdm.
  assert (Hn53 : n2 <= 52).
  { destruct (Z_lt_le_dec 52 n2) as [Hgt | ?]; [exfalso | lia].
    assert (2 ^ 53 <= 2 ^ n2) by (apply Z.pow_le_mono_r; lia).
    rewrite Z.div_small in Hx0 by lia. lia. }
  destruct x0 as [| p0 | p0]; [lia | | lia].
  assert (Hp0 : Zpos p0 < 2 ^ (53 - n2)).
  { rewrite Hx0. apply Z.div_lt_upper_bound; [exact HN |].
    rewrite <- Z.pow_add_r by lia. replace (n2 + (53 - n2)) with 53 by lia.
    exact Hm2. }
  pose proof (digits_lt p0 (53 - n2) ltac:(lia) Hp0) as Hd0.
  assert (Hd0' : Zpos (digits2_pos p0) <= 53) by lia.
  destruct (canon_mantissa p0 Hd0') as [Hq0 _].
  cbn [SFofZ]. unfold canon. cbn [SFsub cond_Zopp].
  set (d0 := Zpos (digits2_pos p0)) in *.
  set (m0 := Z.to_pos (Zpos p0 * 2 ^ (53 - d0))) in *.
  assert (Hd00 : 0 < d0) by (unfold d0; lia).
  rewrite Z.min_r by lia.
  rewrite !shl_align_fst by lia.
  rewrite Z.sub_diag, Z.mul_1_r, Hq0.
  set (t := - n2 - (0 - (53 - d0))).
  assert (Ht : 0 <= t) by (unfold t; lia).
  assert (Ediff : Zpos m2 * 2 ^ t - Zpos p0 * 2 ^ (53 - d0)
                  = (Zpos m2 mod 2 ^ n2) * 2 ^ t).
  { replace (53 - d0) with (n2 + t) by (unfold t; lia).
    rewrite Z.pow_add_r by lia.
    rewrite Hdm at 1. ring. }
  rewrite Ediff.
  assert (Hpt : 0 < 2 ^ t) by (apply Z.pow_pos_nonneg; lia).
  destruct (Zpos m2 mod 2 ^ n2) as [| D | D] eqn:ED; [reflexivity | | lia].
  assert (HDpos : 0 < Zpos D * 2 ^ t) by lia.
  destruct (Zpos D * 2 ^ t) as [| M | M] eqn:EM; [lia | | lia].
  cbn [binary_normalize].
  assert (HdD : Zpos (digits2_pos D) <= 53) by (apply digits_le_53; lia).
  rewrite (round_canon false M D t (0 - (53 - d0)));
    [replace (0 - (53 - d0) + t) with (- n2) by (unfold t; lia); reflexivity
    | exact Ht | symmetry; exact EM | exact HdD |].
  pose proof (Pos2Z.is_pos (digits2_pos D)). unfold t. lia.
Qed.

Lemma canon_normal s m e :
  Zpos (digits2_pos m) = 53 -> canon s m e = S754_finite s m e.
Proof.
  intros Hd. unfold canon. rewrite Hd. change (53 - 53) with 0.
  rewrite Z.mul_1_r, Z.sub_0_r. reflexivity.
Qed.

(** *** The weight [uint32(fx * 65535)]

    For [fx = D * 2^(-n2)] below 1 the product may be rounded; the weight
    stays between any two integers that bound the exact product. *)
Lemma weight_bounds f D n2 L H :
  Prim2SF f = canon false D (- n2) ->
  0 <= n2 <= 52 -> Zpos D < 2 ^ n2 ->
  0 <= L -> H < 2 ^ 32 ->
  L * 2 ^ n2 <= Zpos D * 65535 <= H * 2 ^ n2 ->
  L <= Float64.to_uint32 (f * 65535)%float <= H.
Proof.
  intros Hf Hn2 HD HL HH [Hlo Hhi].
  assert (HN2 : 0 < 2 ^ n2) by (apply Z.pow_pos_nonneg; lia).
  pose proof (digits_lt D n2 ltac:(lia) HD) as HdD.
  assert (HdD53 : Zpos (digits2_pos D) <= 53) by lia.
  destruct (canon_mantissa D HdD53) as [HqD _].
  pose proof (digits_mul D 65535) as Hdm.
  change (Zpos (digits2_pos 65535)) with 16 in Hdm.
  set (dD := Zpos (digits2_pos D)) in *.
  set (dc := Zpos (digits2_pos (D * 65535))) in *.
  assert (HdD0 : 0 < dD) by (unfold dD; lia).
  set (tM := 90 - dD).
  set (mD := Z.to_pos (Zpos D * 2 ^ (53 - dD))) in *.
  assert (HM : Zpos (mD * 9007061815787520) = Zpos (D * 65535) * 2 ^ tM).
  { rewrite Pos2Z.inj_mul, HqD, Pos2Z.inj_mul.
    change (Zpos 9007061815787520) with (65535 * 2 ^ 37).
    unfold tM. replace (90 - dD) with ((53 - dD) + 37) by lia.
    rewrite Z.pow_add_r by lia. ring. }
  pose proof (digits_scaled _ _ tM ltac:(unfold tM; lia) HM) as HdM. fold dc in HdM.
  destruct (round_bracket false (mD * 9007061815787520)
              (- n2 - (53 - dD) + (0 - 37)) loc_Exact)
    as (m3 & e3 & q' & Hr & Hm53 & He & Hq' & Hcases & _);
    [rewrite HdM; unfold tM; lia | rewrite HdM; unfold tM; lia
    | rewrite HdM; unfold tM; lia |].
  rewrite HdM in He, Hq', Hcases.
  set (p := dc + tM - 53) in *.
  set (nU := n2 + 53 - dc).
  replace (- n2 - (53 - dD) + (0 - 37) + p) with (- nU) in He, Hq'
    by (unfold p, nU, tM; lia).
  assert (HnU : 37 <= nU) by (unfold nU; lia).
  assert (Hprod : Prim2SF (f * 65535)%float = canon false m3 e3).
  { rewrite FloatAxioms.mul_spec, Hf. unfold SF64mul.
    change (Prim2SF 65535%float) with (S754_finite false 9007061815787520 (0 - 37)).
    rewrite (canon_normal false m3 e3 Hm53).
    unfold canon. cbn [SFmul xorb]. fold dD. fold mD. exact Hr. }
  destruct (digits_bounds m3) as [_ Hm3]. rewrite Hm53 in Hm3.
  unfold Float64.to_uint32.
  rewrite (to_int_canon _ m3 e3 Hprod Hm3 ltac:(lia)).
  assert (Hp0 : 0 <= p) by (unfold p, tM; lia).
  assert (Hpp : 0 < 2 ^ p) by (apply Z.pow_pos_nonneg; lia).
  assert (HpU : 0 < 2 ^ nU) by (apply Z.pow_pos_nonneg; lia).
  assert (Esplit : 2 ^ n2 * 2 ^ tM = 2 ^ nU * 2 ^ p).
  { rewrite <- !Z.pow_add_r by (unfold tM; lia). f_equal.
    unfold nU, p. lia. }
  assert (Hptm : 0 < 2 ^ tM) by (apply Z.pow_pos_nonneg; unfold tM; lia).
  rewrite Pos2Z.inj_mul in HM. change (Zpos 65535) with 65535 in HM.
  assert (Hqlo : L * 2 ^ nU <= Zpos (mD * 9007061815787520) / 2 ^ p).
  { apply Z.div_le_lower_bound; [exact Hpp |].
    rewrite Pos2Z.inj_mul. rewrite Pos2Z.inj_mul in HM. rewrite HM.
    replace (2 ^ p * (L * 2 ^ nU)) with (L * (2 ^ nU * 2 ^ p)) by ring.
    rewrite <- Esplit.
    replace (L * (2 ^ n2 * 2 ^ tM)) with (L * 2 ^ n2 * 2 ^ tM) by ring.
    apply Z.mul_le_mono_nonneg_r; lia. }
  assert (Hqhi : Zpos (mD * 9007061815787520) / 2 ^ p <= H * 2 ^ nU).
  { apply Z.div_le_upper_bound; [exact Hpp |].
    rewrite Pos2Z.inj_mul. rewrite Pos2Z.inj_mul in HM. rewrite HM.
    replace (2 ^ p * (H * 2 ^ nU)) with (H * (2 ^ nU * 2 ^ p)) by ring.
    rewrite <- Esplit.
    replace (H * (2 ^ n2 * 2 ^ tM)) with (H * 2 ^ n2 * 2 ^ tM) by ring.
    apply Z.mul_le_mono_nonneg_r; lia. }
  assert (Hq'b : L * 2 ^ nU <= q' <= H * 2 ^ nU + 1)
    by (destruct Hcases as [-> | ->]; lia).
  assert (Hdiv : Zpos m3 / 2 ^ (- e3) = q' / 2 ^ nU).
  { assert (He' : e3 = - nU \/ e3 = - nU + 1) by lia.
    destruct He' as [-> | ->].
    - rewrite Z.sub_diag, Z.mul_1_r in Hq'. rewrite Hq', Z.opp_involutive.
      reflexivity.
    - replace (- nU + 1 - - nU) with 1 in Hq' by lia. change (2 ^ 1) with 2 in Hq'.
      rewrite <- Hq'. replace nU with (1 + (- (- nU + 1))) at 2 by lia.
      rewrite Z.pow_add_r by lia. change (2 ^ 1) with 2.
      rewrite (Z.mul_comm (Zpos m3) 2).
      rewrite Z.div_mul_cancel_l; [reflexivity | | lia].
      apply Z.pow_nonzero; lia. }
  rewrite Hdiv.
  assert (H2 : 2 <= 2 ^ nU).
  { change 2 with (2 ^ 1) at 1. apply Z.pow_le_mono_r; lia. }
  assert (Hlo' : L <= q' / 2 ^ nU).
  { apply Z.div_le_lower_bound; [exact HpU | lia]. }
  assert (Hhi' : q' / 2 ^ nU < H + 1).
  { apply Z.div_lt_upper_bound; [exact HpU | lia]. }
  unfold GoInt.uint32. rewrite Z.mod_small by lia. lia.
Qed.

(** *** The source coordinate of [ResizeImage] when the size does not change *)

(** While the product [x * w] fits in 53 digits nothing is rounded. *)
Lemma same_size_coordinate_exact x w :
  0 <= x < w -> w < 2 ^ 53 -> x * w < 2 ^ 53 ->
  let srcX := (Float64.of_int x * Float64.of_int w / Float64.of_int w)%float in
  Float64.to_int srcX = x
  /\ Float64.to_uint32 ((srcX - Float64.of_int x) * 65535)%float = 0.
Proof.
  intros Hx Hw Hxw. cbv zeta.
  assert (Hx53 : 0 <= x < 2 ^ 53) by lia.
  assert (Hw53 : 0 <= w < 2 ^ 53) by lia.
  pose proof (of_int_SF x Hx53) as Ex. pose proof (of_int_SF w Hw53) as Ew.
  pose proof (mul_int _ _ x w Ex Ew ltac:(lia) ltac:(lia) Hxw) as Em.
  pose proof (div_int _ _ x w Em Ew ltac:(lia) ltac:(lia) Hxw) as Ed.
  split.
  - apply to_int_SF; [exact Ed | exact Hx53].
  - pose proof (sub_int_self _ _ x Ed Ex) as Es.
    unfold Float64.to_uint32, Float64.to_int.
    rewrite FloatAxioms.mul_spec, Es. reflexivity.
Qed.

(** For a width of at most 2^44 the coordinate [x * w / w] is within 2^-9
    of [x]: its integer part is [x] or [x - 1], and the 16-bit weight of
    its fractional part is at most 128 away from 0, or from 65535. *)
Lemma same_size_coordinate_near x w :
  0 <= x < w -> w <= 2 ^ 44 ->
  let srcX := (Float64.of_int x * Float64.of_int w / Float64.of_int w)%float in
  let x0 := Float64.to_int srcX in
  let wx := Float64.to_uint32 ((srcX - Float64.of_int x0) * 65535)%float in
  (x0 = x /\ 0 <= wx <= 128)
  \/ (x0 = x - 1 /\ 1 <= x /\ 65407 <= wx <= 65535).
Proof.
  intros Hx Hw. cbv zeta.
  destruct (Z_lt_le_dec (x * w) (2 ^ 53)) as [Hsmall | Hbig].
  { left. destruct (same_size_coordinate_exact x w Hx ltac:(lia) Hsmall)
      as [E0 Ewx]. cbv zeta in E0, Ewx.
    rewrite E0, Ewx. split; [reflexivity | lia]. }
  assert (Hx9 : 2 ^ 9 <= x).
  { destruct (Z_lt_le_dec x (2 ^ 9)) as [Hlt | ?]; [exfalso | assumption].
    assert (x * w <= (2 ^ 9 - 1) * 2 ^ 44)
      by (apply Z.mul_le_mono_nonneg; lia).
    lia. }
  destruct x as [| a | a]; [lia | | lia].
  destruct w as [| b | b]; [lia | | lia].
  destruct (same_size_quotient a b ltac:(lia) Hw Hbig)
    as (m2 & n2 & Hq & Hd2 & Hn8 & Hnear).
  pose proof (of_int_SF (Zpos a) ltac:(lia)) as Ex.
  pose proof (of_int_SF (Zpos b) ltac:(lia)) as Ew.
  set (srcX := (Float64.of_int (Zpos a) * Float64.of_int (Zpos b)
                / Float64.of_int (Zpos b))%float).
  assert (HsrcX : Prim2SF srcX = S754_finite false m2 (- n2)).
  { unfold srcX. rewrite FloatAxioms.div_spec, FloatAxioms.mul_spec.
    unfold SF64div, SF64mul. rewrite Ex, Ew. exact Hq. }
  destruct (digits_bounds m2) as [Lm2 Hm2]. rewrite Hd2 in Lm2, Hm2.
  change (53 - 1) with 52 in Lm2.
  set (N := 2 ^ n2) in *.
  assert (HN : 0 < N) by (apply Z.pow_pos_nonneg; lia).
  assert (Hx0 : Float64.to_int srcX = Zpos m2 / N).
  { rewrite (to_int_canon srcX m2 (- n2));
      [rewrite Z.opp_involutive; reflexivity
      | rewrite canon_normal by exact Hd2; exact HsrcX | exact Hm2 | lia]. }
  rewrite Hx0.
  set (x0 := Zpos m2 / N) in *.
  pose proof (Z.div_mod (Zpos m2) N ltac:(lia)) as Hdm. fold x0 in Hdm.
  pose proof (Z.mod_pos_bound (Zpos m2) N HN) as Hmod.
  assert (HN512 : 512 <= N).
  { change 512 with (2 ^ 9).
    destruct (Z_lt_le_dec n2 9) as [Hlt | ?]; [| apply Z.pow_le_mono_r; lia].
    exfalso. assert (n2 = 8) by lia. subst n2.
    change (2 ^ 8) with 256 in *. unfold N in *. lia. }
  assert (Hx0c : x0 = Zpos a \/ x0 = Zpos a - 1).
  { assert (Zpos a - 1 <= x0)
      by (apply Z.div_le_lower_bound; [exact HN | lia]).
    assert (x0 < Zpos a + 1)
      by (apply Z.div_lt_upper_bound; [exact HN | lia]).
    lia. }
  assert (Hx0pos : 0 < x0) by lia.
  assert (Hn52 : n2 <= 52).
  { destruct (Z_lt_le_dec 52 n2) as [Hgt | ?]; [exfalso | lia].
    assert (2 ^ 53 <= N) by (apply Z.pow_le_mono_r; lia).
    assert (N * 1 <= N * x0) by (apply Z.mul_le_mono_nonneg_l; lia).
    lia. }
  pose proof (of_int_SF x0 ltac:(lia)) as Ex0.
  assert (Hfx : Prim2SF (srcX - Float64.of_int x0)%float
                = match Zpos m2 mod N with
                  | Zpos d => canon false d (- n2)
                  | _ => S754_zero false
                  end).
  { rewrite FloatAxioms.sub_spec. unfold SF64sub. rewrite HsrcX, Ex0.
    apply sub_frac; [exact Hd2 | lia | reflexivity | exact Hx0pos]. }
  destruct (Zpos m2 mod N) as [| D | D] eqn:ED; [| | lia].
  - left.
    assert (x0 = Zpos a) by lia.
    split; [assumption |].
    unfold Float64.to_uint32, Float64.to_int.
    rewrite FloatAxioms.mul_spec, Hfx. unfold SF64mul.
    change (Prim2SF 65535%float) with (S754_finite false 9007061815787520 (0 - 37)).
    cbn [SFmul xorb]. change (GoInt.uint32 0) with 0. lia.
  - destruct Hx0c as [E0 | E0].
    + left. split; [exact E0 |].
      apply (weight_bounds _ D n2 0 128 Hfx); [lia | fold N; lia | lia | | ].
      * change (2 ^ 32) with 4294967296. lia.
      * fold N. lia.
    + right. split; [exact E0 |]. split; [lia |].
      apply (weight_bounds _ D n2 65407 65535 Hfx); [lia | fold N; lia | lia | | ].
      * change (2 ^ 32) with 4294967296. lia.
      * fold N. lia.
Qed.

End RoundingFacts.

(* ===================================================================== *)
(** ** The resampler *)

Module ResizeFacts.
Import Img Loop Resize ImgFacts LoopFacts Float64Facts Binary64 RoundingFacts.

#[local] Arguments for_each : simpl never.


Lemma uint32_small v : 0 <= v < 4294967296 -> GoInt.uint32 v = v.
Proof. intros H. unfold GoInt.uint32. apply Z.mod_small. exact H. Qed.

Lemma high_byte r v :
  0 <= v <= 255 -> v * 256 <= r < (v + 1) * 256 ->
  GoInt.uint8 (Z.shiftr r 8) = v.
Proof.
  intros Hv Hr. unfold GoInt.uint8. rewrite Z.shiftr_div_pow2 by lia.
  change (2 ^ 8) with 256.
  replace (r / 256) with v.
  - apply Z.mod_small. lia.
  - apply (Z.div_unique r 256 v (r - v * 256)); lia.
Qed.

(** The blend when the row is exact: one division. *)
Lemma blend_row c00 c10 c01 c11 wx :
  0 <= c00 <= 65535 -> 0 <= c10 <= 65535 -> 0 <= wx <= 65535 ->
  blend c00 c10 c01 c11 wx 0 (sub32 65535 wx) (sub32 65535 0)
  = (c00 * (65535 - wx) + c10 * wx) / 65535.
Proof.
  intros H00 H10 Hwx. unfold blend.
  change (sub32 65535 0) with 65535.
  assert (Einv : sub32 65535 wx = 65535 - wx)
    by (unfold sub32; apply uint32_small; lia).
  rewrite Einv.
  assert (B1 : 0 <= c00 * (65535 - wx) <= 65535 * (65535 - wx))
    by (split; [apply Z.mul_nonneg_nonneg; lia
               | apply Z.mul_le_mono_nonneg_r; lia]).
  assert (B2 : 0 <= c10 * wx <= 65535 * wx)
    by (split; [apply Z.mul_nonneg_nonneg; lia
               | apply Z.mul_le_mono_nonneg_r; lia]).
  assert (E1 : mul32 c00 (65535 - wx) = c00 * (65535 - wx))
    by (unfold mul32; apply uint32_small; lia).
  assert (E2 : mul32 c10 wx = c10 * wx)
    by (unfold mul32; apply uint32_small; lia).
  rewrite E1, E2.
  assert (E3 : add32 (c00 * (65535 - wx)) (c10 * wx)
               = c00 * (65535 - wx) + c10 * wx)
    by (unfold add32; apply uint32_small; lia).
  rewrite E3.
  set (A := (c00 * (65535 - wx) + c10 * wx) / 65535).
  assert (HA : 0 <= A <= 65535).
  { unfold A. split; [apply Z.div_pos; lia |].
    apply Z.div_le_upper_bound; lia. }
  assert (E4 : mul32 A 65535 = A * 65535)
    by (unfold mul32; apply uint32_small; lia).
  rewrite E4, Z.div_mul by lia.
  assert (E0 : forall v, mul32 v 0 = 0)
    by (intros v; unfold mul32; rewrite Z.mul_0_r; reflexivity).
  rewrite E0. change (0 / 65535) with 0.
  unfold add32. rewrite Z.add_0_r. apply uint32_small. lia.
Qed.

(** The blend when the column is exact: two divisions. *)
Lemma blend_column c00 c10 c01 c11 wy :
  0 <= c00 <= 65535 -> 0 <= c01 <= 65535 -> 0 <= wy <= 65535 ->
  blend c00 c10 c01 c11 0 wy (sub32 65535 0) (sub32 65535 wy)
  = c00 * (65535 - wy) / 65535 + c01 * wy / 65535.
Proof.
  intros H00 H01 Hwy. unfold blend.
  change (sub32 65535 0) with 65535.
  assert (Einv : sub32 65535 wy = 65535 - wy)
    by (unfold sub32; apply uint32_small; lia).
  rewrite Einv.
  assert (E0 : forall v, mul32 v 0 = 0)
    by (intros v; unfold mul32; rewrite Z.mul_0_r; reflexivity).
  rewrite !E0.
  assert (Ea : forall c, 0 <= c <= 65535 ->
                 add32 (mul32 c 65535) 0 / 65535 = c).
  { intros c Hc. unfold add32, mul32. rewrite Z.add_0_r.
    rewrite (uint32_small (c * 65535)) by lia.
    rewrite uint32_small by lia. apply Z.div_mul. lia. }
  rewrite !Ea by lia.
  assert (B1 : 0 <= c00 * (65535 - wy) <= 65535 * (65535 - wy))
    by (split; [apply Z.mul_nonneg_nonneg; lia
               | apply Z.mul_le_mono_nonneg_r; lia]).
  assert (B2 : 0 <= c01 * wy <= 65535 * wy)
    by (split; [apply Z.mul_nonneg_nonneg; lia
               | apply Z.mul_le_mono_nonneg_r; lia]).
  assert (E1 : mul32 c00 (65535 - wy) = c00 * (65535 - wy))
    by (unfold mul32; apply uint32_small; lia).
  assert (E2 : mul32 c01 wy = c01 * wy)
    by (unfold mul32; apply uint32_small; lia).
  rewrite E1, E2.
  assert (0 <= c00 * (65535 - wy) / 65535 <= 65535 - wy).
  { split; [apply Z.div_pos; lia |]. apply Z.div_le_upper_bound; lia. }
  assert (0 <= c01 * wy / 65535 <= wy).
  { split; [apply Z.div_pos; lia |]. apply Z.div_le_upper_bound; lia. }
  unfold add32. apply uint32_small. lia.
Qed.

(** A weighted mean in which the sample [v * 257] has all of the weight
    but [d <= 255] keeps the high byte [v]. *)
Lemma mean_high_byte v c d :
  0 <= v <= 255 -> 0 <= c <= 65535 -> 0 <= d <= 255 ->
  v * 256 * 65535 <= v * 257 * (65535 - d)
  /\ v * 257 * (65535 - d) + c * d < (v + 1) * 256 * 65535.
Proof.
  intros Hv Hc Hd.
  assert (0 <= v * d <= 255 * d)
    by (split; [apply Z.mul_nonneg_nonneg; lia
               | apply Z.mul_le_mono_nonneg_r; lia]).
  assert (0 <= v * d <= v * 255)
    by (split; [lia | apply Z.mul_le_mono_nonneg_l; lia]).
  assert (0 <= c * d <= 65535 * d)
    by (split; [apply Z.mul_nonneg_nonneg; lia
               | apply Z.mul_le_mono_nonneg_r; lia]).
  split; [lia |].
  (* v*65535 + d*(65535 - 257 v) < 256*65535 *)
  assert (d * (65535 - 257 * v) <= 255 * (65535 - 257 * v))
    by (apply Z.mul_le_mono_nonneg_r; lia).
  lia.
Qed.

Lemma row_high_byte v c00 c10 c01 c11 wx :
  0 <= v <= 255 -> 0 <= c00 <= 65535 -> 0 <= c10 <= 65535 ->
  (c00 = v * 257 /\ 0 <= wx <= 255) \/ (c10 = v * 257 /\ 65280 <= wx <= 65535) ->
  GoInt.uint8
    (Z.shiftr (blend c00 c10 c01 c11 wx 0 (sub32 65535 wx) (sub32 65535 0)) 8)
  = v.
Proof.
  intros Hv H00 H10 Hcase.
  rewrite blend_row by lia.
  apply high_byte; [exact Hv |].
  destruct Hcase as [[-> Hwx] | [-> Hwx]].
  - destruct (mean_high_byte v c10 wx Hv H10 Hwx) as [Hlo Hhi].
    split.
    + apply Z.div_le_lower_bound; [lia |].
      assert (0 <= c10 * wx) by (apply Z.mul_nonneg_nonneg; lia). lia.
    + apply Z.div_lt_upper_bound; lia.
  - destruct (mean_high_byte v c00 (65535 - wx) Hv H00 ltac:(lia)) as [Hlo Hhi].
    replace (65535 - (65535 - wx)) with wx in Hlo, Hhi by lia.
    split.
    + apply Z.div_le_lower_bound; [lia |].
      assert (0 <= c00 * (65535 - wx)) by (apply Z.mul_nonneg_nonneg; lia). lia.
    + apply Z.div_lt_upper_bound; lia.
Qed.

Lemma column_high_byte v c00 c10 c01 c11 wy :
  0 <= v <= 255 -> 0 <= c00 <= 65535 -> 0 <= c01 <= 65535 ->
  (c00 = v * 257 /\ 0 <= wy <= 255) \/ (c01 = v * 257 /\ 65280 <= wy <= 65535) ->
  GoInt.uint8
    (Z.shiftr (blend c00 c10 c01 c11 0 wy (sub32 65535 0) (sub32 65535 wy)) 8)
  = v.
Proof.
  intros Hv H00 H01 Hcase.
  rewrite blend_column by lia.
  apply high_byte; [exact Hv |].
  set (a := c00 * (65535 - wy)). set (b := c01 * wy).
  pose proof (Z.mul_div_le a 65535 ltac:(lia)) as Ha.
  pose proof (Z.mul_div_le b 65535 ltac:(lia)) as Hb.
  destruct Hcase as [[-> Hwy] | [-> Hwy]].
  - destruct (mean_high_byte v c01 wy Hv H01 Hwy) as [Hlo Hhi].
    fold a in Hlo, Hhi. fold b in Hhi.
    assert (v * 256 <= a / 65535) by (apply Z.div_le_lower_bound; lia).
    assert (0 <= b / 65535).
    { apply Z.div_pos; [| lia]. unfold b. apply Z.mul_nonneg_nonneg; lia. }
    lia.
  - destruct (mean_high_byte v c00 (65535 - wy) Hv H00 ltac:(lia)) as [Hlo Hhi].
    replace (65535 - (65535 - wy)) with wy in Hlo, Hhi by lia.
    fold b in Hlo, Hhi. fold a in Hhi.
    assert (v * 256 <= b / 65535) by (apply Z.div_le_lower_bound; lia).
    assert (0 <= a / 65535).
    { apply Z.div_pos; [| lia]. unfold a. apply Z.mul_nonneg_nonneg; lia. }
    lia.
Qed.

(** A 16-bit channel [v | v << 8] goes back to [v]. *)
Lemma channel_back v : 0 <= v <= 255 -> GoInt.uint8 (Z.shiftr (v * 257) 8) = v.
Proof.
  intros Hv. unfold GoInt.uint8. rewrite Z.shiftr_div_pow2 by lia.
  change (2 ^ 8) with 256.
  replace (v * 257 / 256) with v.
  - apply Z.mod_small. lia.
  - apply (Z.div_unique (v * 257) 256 v v); lia.
Qed.

Lemma uint8s_RGBAAt p x y : wellFormed p -> uint8s (RGBAAt p x y).
Proof.
  intros Hwf. unfold RGBAAt. destruct (In_ x y (Bounds p)); [apply Hwf |].
  unfold uint8s; simpl. lia.
Qed.

Lemma add_one n : 0 <= n < 2 ^ 62 -> GoInt.add n 1 = n + 1.
Proof.
  intros Hn. unfold GoInt.add, GoInt.wrap64.
  rewrite Z.mod_small; lia.
Qed.

Section SameSize.
Variables (p : RGBAImage) (w h : Z).
Hypothesis Hwf : wellFormed p.

Lemma resizeColor_row x y :
  0 <= x < w -> 0 <= y < h -> w <= 2 ^ 44 -> h * h < 2 ^ 53 ->
  resizeColor (ofRGBA p) w h w h x y = RGBAAt p x y.
Proof.
  intros Hx Hy Hw Hh.
  destruct (same_size_coordinate_exact y h Hy ltac:(nia) ltac:(nia)) as [Ey Efy].
  pose proof (same_size_coordinate_near x w Hx Hw) as Hnear.
  cbv zeta in Ey, Efy, Hnear.
  unfold resizeColor. cbv zeta.
  set (srcX := (Float64.of_int x * Float64.of_int w / Float64.of_int w)%float) in *.
  set (srcY := (Float64.of_int y * Float64.of_int h / Float64.of_int h)%float) in *.
  rewrite Ey, Efy.
  set (wx := Float64.to_uint32
               ((srcX - Float64.of_int (Float64.to_int srcX)) * 65535)%float) in *.
  set (x0 := Float64.to_int srcX) in *.
  set (x1 := if GoInt.add x0 1 >=? w then w - 1 else GoInt.add x0 1).
  set (y1 := if GoInt.add y 1 >=? h then h - 1 else GoInt.add y 1).
  unfold ofRGBA, AtRGBA, RGBA16.
  pose proof (uint8s_RGBAAt p x0 y Hwf) as H00.
  pose proof (uint8s_RGBAAt p x1 y Hwf) as H10.
  pose proof (uint8s_RGBAAt p x y Hwf) as Ht.
  assert (Hcase : (RGBAAt p x0 y = RGBAAt p x y /\ 0 <= wx <= 255)
                  \/ (RGBAAt p x1 y = RGBAAt p x y /\ 65280 <= wx <= 65535)).
  { destruct Hnear as [[E0 Hwx] | [E0 [Hx1 Hwx]]].
    - left. rewrite E0. split; [reflexivity | lia].
    - right. split; [| lia]. unfold x1. rewrite E0, add_one by lia.
      replace (x - 1 + 1) with x by lia.
      destruct (Z.geb_spec x w); [lia | reflexivity]. }
  clearbody wx x0 x1 y1. clear Hnear.
  destruct (RGBAAt p x y) as [r g b a].
  destruct (RGBAAt p x0 y) as [r00 g00 b00 a00].
  destruct (RGBAAt p x1 y) as [r10 g10 b10 a10].
  destruct (RGBAAt p x0 y1) as [r01 g01 b01 a01].
  destruct (RGBAAt p x1 y1) as [r11 g11 b11 a11].
  unfold uint8s in *. cbn [RGBA.R RGBA.G RGBA.B RGBA.A] in *.
  f_equal; apply row_high_byte; try lia.
  all: destruct Hcase as [[E Hwx] | [E Hwx]]; injection E as -> -> -> ->;
    [left | right]; (split; [reflexivity | lia]).
Qed.

Lemma resizeColor_column x y :
  0 <= x < w -> 0 <= y < h -> w * w < 2 ^ 53 -> h <= 2 ^ 44 ->
  resizeColor (ofRGBA p) w h w h x y = RGBAAt p x y.
Proof.
  intros Hx Hy Hw Hh.
  destruct (same_size_coordinate_exact x w Hx ltac:(nia) ltac:(nia)) as [Ex Efx].
  pose proof (same_size_coordinate_near y h Hy Hh) as Hnear.
  cbv zeta in Ex, Efx, Hnear.
  unfold resizeColor. cbv zeta.
  set (srcX := (Float64.of_int x * Float64.of_int w / Float64.of_int w)%float) in *.
  set (srcY := (Float64.of_int y * Float64.of_int h / Float64.of_int h)%float) in *.
  rewrite Ex, Efx.
  set (wy := Float64.to_uint32
               ((srcY - Float64.of_int (Float64.to_int srcY)) * 65535)%float) in *.
  set (y0 := Float64.to_int srcY) in *.
  set (y1 := if GoInt.add y0 1 >=? h then h - 1 else GoInt.add y0 1).
  set (x1 := if GoInt.add x 1 >=? w then w - 1 else GoInt.add x 1).
  unfold ofRGBA, AtRGBA, RGBA16.
  pose proof (uint8s_RGBAAt p x y0 Hwf) as H00.
  pose proof (uint8s_RGBAAt p x y1 Hwf) as H01.
  pose proof (uint8s_RGBAAt p x y Hwf) as Ht.
  assert (Hcase : (RGBAAt p x y0 = RGBAAt p x y /\ 0 <= wy <= 255)
                  \/ (RGBAAt p x y1 = RGBAAt p x y /\ 65280 <= wy <= 65535)).
  { destruct Hnear as [[E0 Hwy] | [E0 [Hy1 Hwy]]].
    - left. rewrite E0. split; [reflexivity | lia].
    - right. split; [| lia]. unfold y1. rewrite E0, add_one by lia.
      replace (y - 1 + 1) with y by lia.
      destruct (Z.geb_spec y h); [lia | reflexivity]. }
  clearbody wy y0 y1 x1. clear Hnear.
  destruct (RGBAAt p x y) as [r g b a].
  destruct (RGBAAt p x y0) as [r00 g00 b00 a00].
  destruct (RGBAAt p x y1) as [r01 g01 b01 a01].
  destruct (RGBAAt p x1 y0) as [r10 g10 b10 a10].
  destruct (RGBAAt p x1 y1) as [r11 g11 b11 a11].
  unfold uint8s in *. cbn [RGBA.R RGBA.G RGBA.B RGBA.A] in *.
  f_equal; apply column_high_byte; try lia.
  all: destruct Hcase as [[E Hwy] | [E Hwy]]; injection E as -> -> -> ->;
    [left | right]; (split; [reflexivity | lia]).
Qed.

(** An image of at most 2^44 pixels has a side of at most 2^22 pixels,
    along which nothing is rounded. *)
Lemma resizeColor_same x y :
  0 <= x < w -> 0 <= y < h -> w * h <= 2 ^ 44 ->
  resizeColor (ofRGBA p) w h w h x y = RGBAAt p x y.
Proof.
  intros Hx Hy Hwh.
  assert (Hw44 : w <= 2 ^ 44) by nia.
  assert (Hh44 : h <= 2 ^ 44) by nia.
  destruct (Z_le_gt_dec w h) as [Hle | Hgt].
  - apply resizeColor_column; [exact Hx | exact Hy | | exact Hh44].
    assert (w * w <= w * h) by (apply Z.mul_le_mono_nonneg_l; lia). lia.
  - apply resizeColor_row; [exact Hx | exact Hy | exact Hw44 |].
    assert (h * h <= w * h) by (apply Z.mul_le_mono_nonneg_r; lia). lia.
Qed.

End SameSize.
(** The pixels of a resized image. *)
Lemma ResizeImage_pixels src w h x y :
  0 <= w -> 0 <= h ->
  RGBAAt (ResizeImage src w h) x y
  = if In_ x y (mkRect 0 0 w h)
    then resizeColor src (Dx (IBounds src)) (Dy (IBounds src)) w h x y
    else RGBA.zero.
Proof.
  intros Hw Hh. unfold ResizeImage. cbv zeta. rewrite Rect_origin by lia.
  assert (Hpw : pointwise (mkRect 0 0 w h) 0 0 (grid 0 h 0 w)
            (fun _ _ => true)
            (fun x y _ =>
               resizeColor src (Dx (IBounds src)) (Dy (IBounds src)) w h x y)
            (resizeBody src (Dx (IBounds src)) (Dy (IBounds src)) w h))
    by (intros px py s _ _; reflexivity).
  destruct (for_each_pointwise (mkRect 0 0 w h) 0 0 (grid 0 h 0 w) _ _ _
              (NoDup_grid _ _ _ _) (grid 0 h 0 w) (fun q Hq => Hq) Hpw
              (NewRGBA (mkRect 0 0 w h)) eq_refl) as [_ Hp].
  rewrite Hp, !Z.sub_0_r, RGBAAt_NewRGBA.
  destruct (bool_decide ((x, y) ∈ grid 0 h 0 w)) eqn:Hg; cbn [andb].
  - apply bool_decide_eq_true in Hg. rewrite elem_of_grid in Hg.
    replace (In_ x y (mkRect 0 0 w h)) with true; [reflexivity |].
    symmetry. unfold In_. cbn [MinX MinY MaxX MaxY].
    repeat (apply andb_true_iff; split); lia.
  - apply bool_decide_eq_false in Hg. rewrite elem_of_grid in Hg.
    destruct (In_ x y (mkRect 0 0 w h)) eqn:Hi; [| reflexivity].
    apply In_true in Hi. cbn [MinX MinY MaxX MaxY] in Hi. lia.
Qed.


Lemma resizeBody_pointwise (p : RGBAImage) (w h : Z) :
  wellFormed p -> w * h <= 2 ^ 44 ->
  pointwise (mkRect 0 0 w h) 0 0 (grid 0 h 0 w)
    (fun _ _ => true) (fun x y _ => RGBAAt p x y)
    (resizeBody (ofRGBA p) w h w h).
Proof.
  intros Hwf Hwh x y s Hin Hb. apply elem_of_grid in Hin as [Hy Hx].
  cbv iota. unfold resizeBody. rewrite resizeColor_same by assumption.
  reflexivity.
Qed.



(** The bound on the size is not far from what the arithmetic allows.  On
    the one-row image [wideImage], of 26388279066625 pixels (96 TiB of
    pixel data), the source coordinate of column 26032801117082 is rounded
    to 26032801117081.996, so that the white pixel is blended with its
    black neighbour on the left and comes out as (254, 254, 254, 255). *)
Lemma ResizeImage_same_size_wide_image :
  Bounds Examples.wideImage = mkRect 0 0 Examples.wideWidth 1
  /\ wellFormed Examples.wideImage
  /\ RGBAAt Examples.wideImage Examples.wideColumn 0 = RGBA.mk 255 255 255 255
  /\ RGBAAt (ResizeImage (ofRGBA Examples.wideImage) Examples.wideWidth 1)
       Examples.wideColumn 0
     = RGBA.mk 254 254 254 255.
Proof.
  split; [reflexivity |].
  split.
  { intros x y. unfold uint8s, Examples.wideImage. cbn [Pix].
    destruct (x =? Examples.wideColumn); simpl; lia. }
  split; [vm_compute; reflexivity |].
  rewrite ResizeImage_pixels by (unfold Examples.wideWidth; lia).
  vm_compute. reflexivity.
Qed.

End ResizeFacts.

(* ===================================================================== *)
(** ** The blur of the piece *)

Module BlurFacts.
Import Img Loop Hole Piece ImgFacts LoopFacts HoleFacts PieceFacts Float64Facts Binary64.

#[local] Arguments for_each : simpl never.
#[local] Arguments frame : simpl never.

Lemma kernel_SF ky kx : Prim2SF (kernel ky kx) = SFofZ (kernelWeight ky kx).
Proof.
  unfold kernel, kernelWeight.
  destruct ((ky =? 0) && (kx =? 0)); [reflexivity |].
  destruct ((ky =? 0) || (kx =? 0)); reflexivity.
Qed.

Lemma kernelWeight_range ky kx : 1 <= kernelWeight ky kx <= 4.
Proof.
  unfold kernelWeight.
  destruct ((ky =? 0) && (kx =? 0)); [lia |].
  destruct ((ky =? 0) || (kx =? 0)); lia.
Qed.

Lemma kernelSum_SF : Prim2SF kernelSum = canon false 1 4.
Proof. reflexivity. Qed.

Lemma addTap_holds c ky kx a r g b n :
  uint8s c -> holds a r g b ->
  0 <= r <= n -> 0 <= g <= n -> 0 <= b <= n -> n + 1020 < 2 ^ 53 ->
  holds (addTap c (kernel ky kx) a)
    (r + RGBA.R c * kernelWeight ky kx)
    (g + RGBA.G c * kernelWeight ky kx)
    (b + RGBA.B c * kernelWeight ky kx).
Proof.
  intros (HR & HG & HB & _) (Hr & Hg & Hb) Br Bg Bb Hn.
  pose proof (kernelWeight_range ky kx) as Hw.
  unfold holds, addTap. cbn [sumR sumG sumB].
  repeat split.
  - apply add_int; [exact Hr | | lia | nia | nia].
    apply mul_int; [apply of_int_SF; lia | apply kernel_SF | lia | lia | nia].
  - apply add_int; [exact Hg | | lia | nia | nia].
    apply mul_int; [apply of_int_SF; lia | apply kernel_SF | lia | lia | nia].
  - apply add_int; [exact Hb | | lia | nia | nia].
    apply mul_int; [apply of_int_SF; lia | apply kernel_SF | lia | lia | nia].
Qed.

Section Taps.
Variables (piece : RGBAImage) (mask : AlphaImage) (px py : Z).
Hypothesis Hwf : wellFormed piece.

Lemma uint8s_at x y : uint8s (RGBAAt piece x y).
Proof.
  unfold RGBAAt. destruct (In_ x y (Bounds piece)); [apply Hwf |].
  unfold uint8s. simpl. lia.
Qed.

Lemma stepZ_range channel a k :
  (forall c, uint8s c -> 0 <= channel c <= 255) ->
  a <= stepZ piece mask px py channel a k <= a + 255 * kernelWeight (snd k) (fst k).
Proof.
  intros Hc. unfold stepZ. cbv zeta.
  pose proof (kernelWeight_range (snd k) (fst k)) as Hw.
  destruct (AlphaAt mask _ _ >? 0); [| lia].
  pose proof (Hc _ (uint8s_at
    (clampCoord (GoInt.add px (fst k)) PuzzleWidth)
    (clampCoord (GoInt.add py (snd k)) PuzzleHeight))) as H.
  nia.
Qed.

Lemma taps_hold l a r g b n :
  holds a r g b ->
  0 <= r <= n -> 0 <= g <= n -> 0 <= b <= n ->
  n + 1020 * Z.of_nat (length l) < 2 ^ 53 ->
  holds (fold_left (stepF piece mask px py) l a)
    (fold_left (stepZ piece mask px py RGBA.R) l r)
    (fold_left (stepZ piece mask px py RGBA.G) l g)
    (fold_left (stepZ piece mask px py RGBA.B) l b).
Proof.
  revert a r g b n. induction l as [| k l IH]; intros a r g b n Ha Br Bg Bb Hn.
  - exact Ha.
  - cbn [fold_left]. cbn [length] in Hn.
    pose proof (kernelWeight_range (snd k) (fst k)) as Hw.
    assert (HcR : forall c, uint8s c -> 0 <= RGBA.R c <= 255)
      by (intros c Hc; apply Hc).
    assert (HcG : forall c, uint8s c -> 0 <= RGBA.G c <= 255)
      by (intros c Hc; apply Hc).
    assert (HcB : forall c, uint8s c -> 0 <= RGBA.B c <= 255)
      by (intros c Hc; apply Hc).
    pose proof (stepZ_range RGBA.R r k HcR) as SR.
    pose proof (stepZ_range RGBA.G g k HcG) as SG.
    pose proof (stepZ_range RGBA.B b k HcB) as SB.
    apply (IH _ _ _ _ (n + 1020)); try lia.
    unfold stepF, stepZ. cbv zeta.
    destruct (AlphaAt mask _ _ >? 0); [| exact Ha].
    apply (addTap_holds _ _ _ _ _ _ _ n); try assumption; [| lia].
    apply uint8s_at.
Qed.

Lemma pieceTaps_hold :
  holds (pieceTaps piece mask px py)
    (tapSum RGBA.R piece mask px py)
    (tapSum RGBA.G piece mask px py)
    (tapSum RGBA.B piece mask px py).
Proof.
  apply (taps_hold window3 sums0 0 0 0 0); try lia.
  - repeat split; reflexivity.
  - vm_compute. reflexivity.
Qed.

Lemma fold_stepZ_range channel l a :
  (forall c, uint8s c -> 0 <= channel c <= 255) ->
  a <= fold_left (stepZ piece mask px py channel) l a <= a + 255 * weights l.
Proof.
  intros Hc. revert a. induction l as [| k l IH]; intros a.
  - simpl. lia.
  - cbn [fold_left weights fold_right].
    pose proof (stepZ_range channel a k Hc) as S.
    specialize (IH (stepZ piece mask px py channel a k)). fold (weights l). lia.
Qed.

(** The weights of the nine taps add up to 16. *)
Lemma tapSum_range channel :
  (forall c, uint8s c -> 0 <= channel c <= 255) ->
  0 <= tapSum channel piece mask px py <= 4080.
Proof.
  intros Hc. pose proof (fold_stepZ_range channel window3 0 Hc) as H.
  change (weights window3) with 16 in H. exact H.
Qed.

End Taps.

Lemma channel_16 f n :
  Prim2SF f = SFofZ n -> 0 <= n <= 4080 ->
  Float64.to_uint8 (f / kernelSum)%float = n / 16.
Proof.
  intros Hf Hn. unfold Float64.to_uint8, GoInt.uint8.
  assert (E : Float64.to_int (f / kernelSum)%float = n / 16).
  { destruct n as [| p | p]; [| | lia].
    - unfold Float64.to_int. rewrite FloatAxioms.div_spec. unfold SF64div.
      rewrite Hf. reflexivity.
    - rewrite (to_int_canon _ p (-4)); [reflexivity | | lia | lia].
      rewrite FloatAxioms.div_spec. unfold SF64div.
      rewrite Hf, kernelSum_SF. cbn [SFofZ].
      rewrite <- (Pos.mul_1_r p) at 1.
      rewrite (div_canon false false p 1 0 4).
      + reflexivity.
      + rewrite Pos.mul_1_r. apply digits_le_53. lia.
      + lia. }
  rewrite E. apply Z.mod_small.
  split; [apply Z.div_pos; lia |].
  apply Z.div_lt_upper_bound; lia.
Qed.

(** The colour written by [applyGaussianBlurOnce], in integers. *)
Lemma blurColor_pieceTaps piece mask px py :
  wellFormed piece ->
  blurColor (pieceTaps piece mask px py)
  = RGBA.mk (tapSum RGBA.R piece mask px py / 16)
            (tapSum RGBA.G piece mask px py / 16)
            (tapSum RGBA.B piece mask px py / 16)
            255.
Proof.
  intros Hwf.
  destruct (pieceTaps_hold piece mask px py Hwf) as (HR & HG & HB).
  unfold blurColor. f_equal.
  - apply channel_16; [exact HR |].
    apply tapSum_range; [exact Hwf | intros c Hc; apply Hc].
  - apply channel_16; [exact HG |].
    apply tapSum_range; [exact Hwf | intros c Hc; apply Hc].
  - apply channel_16; [exact HB |].
    apply tapSum_range; [exact Hwf | intros c Hc; apply Hc].
Qed.

Lemma wellFormed_flatPiece : wellFormed Examples.flatPiece.
Proof. intros x y. unfold uint8s. simpl. lia. Qed.

(** C4, as the code has it: in one pass of the blur of the piece, a masked
    pixel of the frame gets, in each colour channel, the weighted sum of the
    taps that count divided by 16, the sum of the whole kernel, whatever the
    number of taps that count; its alpha is 255.  A tap counts when its
    coordinate, moved to the nearest pixel of the frame, is masked. *)
Theorem applyGaussianBlurOnce_divides_by_16 (piece : RGBAImage)
  (mask : AlphaImage) (px py : Z) :
  Bounds piece = mkRect 0 0 PuzzleWidth PuzzleHeight ->
  wellFormed piece ->
  inFrame px py = true -> AlphaAt mask px py > 0 ->
  RGBAAt (applyGaussianBlurOnce mask piece) px py
  = RGBA.mk (tapSum RGBA.R piece mask px py / 16)
            (tapSum RGBA.G piece mask px py / 16)
            (tapSum RGBA.B piece mask px py / 16)
            255.
Proof.
  intros Hb Hwf Hin Hm.
  destruct (applyGaussianBlurOnce_pixels mask piece Hb) as [_ Hp].
  rewrite Hp, Hin.
  replace (AlphaAt mask px py >? 0) with true
    by (symmetry; apply Z.gtb_lt; lia).
  apply blurColor_pieceTaps, Hwf.
Qed.

Lemma applyGaussianBlurOnce_divides_by_16_witness :
  RGBAAt (applyGaussianBlurOnce Examples.dotMask Examples.flatPiece) 10 10
  = RGBA.mk (tapSum RGBA.R Examples.flatPiece Examples.dotMask 10 10 / 16)
            (tapSum RGBA.G Examples.flatPiece Examples.dotMask 10 10 / 16)
            (tapSum RGBA.B Examples.flatPiece Examples.dotMask 10 10 / 16)
            255.
Proof.
  apply (applyGaussianBlurOnce_divides_by_16
           Examples.flatPiece Examples.dotMask 10 10).
  - reflexivity.
  - intros x y. unfold uint8s. simpl. lia.
  - reflexivity.
  - vm_compute. reflexivity.
Defined.

(** C4, the counterexample: on a piece of the one colour (160, 80, 40) and a
    mask whose only opaque pixel is (10, 10), eight of the nine taps are
    outside the mask.  The pass writes (40, 20, 10), the centre tap divided
    by 16; dividing by the weight 4 of the one tap that counts would give
    back (160, 80, 40). *)
Lemma applyGaussianBlurOnce_no_renormalization :
  RGBAAt (applyGaussianBlurOnce Examples.dotMask Examples.flatPiece) 10 10
  = RGBA.mk 40 20 10 255
  /\ renormalizedBlur Examples.flatPiece Examples.dotMask 10 10
     = RGBA.mk 160 80 40 255
  /\ RGBAAt (applyGaussianBlurOnce Examples.dotMask Examples.flatPiece) 10 10
     <> renormalizedBlur Examples.flatPiece Examples.dotMask 10 10.
Proof.
  destruct (applyGaussianBlurOnce_pixels Examples.dotMask Examples.flatPiece
              eq_refl) as [_ Hp].
  rewrite Hp.
  split; [vm_compute; reflexivity |].
  split; [vm_compute; reflexivity |].
  vm_compute. discriminate.
Qed.

End BlurFacts.

(* ===================================================================== *)
(** ** The session store *)

Module StoreFacts.
Import Store.

(** [Sub] between two readings of the clock. *)
Lemma Sub_small t u : 0 <= t - u -> Sub t u <= t - u.
Proof. unfold Sub, GoInt.minInt, GoInt.maxInt. lia. Qed.

Lemma Sub_mono t t' u : t <= t' -> Sub t u <= Sub t' u.
Proof. unfold Sub, GoInt.minInt, GoInt.maxInt. lia. Qed.

Lemma Sub_large t u d : d < t - u -> d < GoInt.maxInt -> d < Sub t u.
Proof. unfold Sub, GoInt.minInt, GoInt.maxInt. lia. Qed.

(** The entry that [Set] stores: the data with the time of the call. *)
Lemma data_Set m now id d :
  data (Set_ m now id d) !! id
  = Some (mkData (ID d) (PositionX d) (PositionY d) now).
Proof. unfold Set_. cbn [data]. apply lookup_insert_eq. Qed.

(** X1: an entry stored with [Set] at time [now] is returned by [Get] at
    every time [t] from [now] to [now + ttl]; the [CreatedAt] the caller
    gave is replaced by [now]. *)
Theorem Get_Set_within_ttl m now t id d :
  0 <= t - now <= ttl m ->
  Get (Set_ m now id d) t id
  = Some (mkData (ID d) (PositionX d) (PositionY d) now).
Proof.
  intros Ht. unfold Get. rewrite data_Set. cbn [CreatedAt].
  pose proof (Sub_small t now ltac:(lia)) as Hs.
  replace (ttl (Set_ m now id d)) with (ttl m) by reflexivity.
  destruct (Z.gtb_spec (Sub t now) (ttl m)); [lia | reflexivity].
Qed.

Lemma Get_Set_within_ttl_witness :
  Get (Set_ defaultStore 1000 "a" (mkData "a" 150 60 7)) (1000 + Minute) "a"
  = Some (mkData "a" 150 60 1000).
Proof.
  apply (Get_Set_within_ttl defaultStore 1000 (1000 + Minute) "a"
           (mkData "a" 150 60 7)).
  vm_compute. split; discriminate.
Defined.

(** X2: once more than the ttl has passed since [Set], [Get] no longer
    returns the entry, though it is still in the map. *)
Theorem Get_Set_expired m now t id d :
  ttl m < t - now -> ttl m < GoInt.maxInt ->
  Get (Set_ m now id d) t id = None
  /\ is_Some (data (Set_ m now id d) !! id).
Proof.
  intros Ht Hm. split; [| rewrite data_Set; eexists; reflexivity].
  unfold Get. rewrite data_Set. cbn [CreatedAt].
  pose proof (Sub_large t now (ttl m) Ht Hm) as Hs.
  replace (ttl (Set_ m now id d)) with (ttl m) by reflexivity.
  destruct (Z.gtb_spec (Sub t now) (ttl m)); [reflexivity | lia].
Qed.

Lemma Get_Set_expired_witness :
  Get (Set_ defaultStore 1000 "a" (mkData "a" 150 60 7))
      (1001 + 5 * Minute) "a" = None
  /\ is_Some (data (Set_ defaultStore 1000 "a" (mkData "a" 150 60 7)) !! "a").
Proof.
  apply (Get_Set_expired defaultStore 1000 (1001 + 5 * Minute) "a"
           (mkData "a" 150 60 7)); vm_compute; reflexivity.
Defined.

(** [Get] never returns an entry that is not in the map, nor one that
    is older than the ttl. *)
Lemma Get_sound m t id d :
  Get m t id = Some d ->
  data m !! id = Some d /\ Sub t (CreatedAt d) <= ttl m.
Proof.
  unfold Get. destruct (data m !! id) as [d' |]; [| discriminate].
  destruct (Z.gtb_spec (Sub t (CreatedAt d')) (ttl m)); [discriminate |].
  intros [= ->]. split; [reflexivity | lia].
Qed.

(** What [CleanExpired] keeps. *)
Lemma data_CleanExpired m now id :
  data (CleanExpired m now) !! id
  = match data m !! id with
    | Some d => if Sub now (CreatedAt d) >? ttl m then None else Some d
    | None => None
    end.
Proof.
  unfold CleanExpired. cbn [data].
  destruct (data m !! id) as [d |] eqn:E.
  - destruct (Sub now (CreatedAt d) >? ttl m) eqn:Hx.
    + apply map_lookup_filter_None. right. intros d' E'.
      rewrite E in E'. injection E' as <-. cbn [snd]. rewrite Hx.
      discriminate.
    + apply map_lookup_filter_Some. split; [exact E |].
      cbn [snd]. rewrite Hx. reflexivity.
  - apply map_lookup_filter_None. left. exact E.
Qed.

(** X4: the sweep is not observable through [Get]: at the time of
    [CleanExpired] and at every later time, [Get] returns for every id what
    it would have returned without the sweep. *)
Theorem Get_CleanExpired m now t id :
  now <= t ->
  Get (CleanExpired m now) t id = Get m t id.
Proof.
  intros Ht. unfold Get. rewrite data_CleanExpired.
  replace (ttl (CleanExpired m now)) with (ttl m) by reflexivity.
  destruct (data m !! id) as [d |]; [| reflexivity].
  destruct (Z.gtb_spec (Sub now (CreatedAt d)) (ttl m)) as [Hx |]; [| reflexivity].
  pose proof (Sub_mono now t (CreatedAt d) Ht).
  destruct (Z.gtb_spec (Sub t (CreatedAt d)) (ttl m)); [reflexivity | lia].
Qed.

Lemma Get_CleanExpired_witness :
  Get (CleanExpired Examples.oneSession (6 * Minute)) (7 * Minute) "s1"
  = Get Examples.oneSession (7 * Minute) "s1".
Proof.
  apply (Get_CleanExpired Examples.oneSession (6 * Minute) (7 * Minute) "s1").
  vm_compute. discriminate.
Defined.

End StoreFacts.

(* ===================================================================== *)
(** ** Sessions and their verification *)

Module SessionFacts.
Import Store Slider StoreFacts.

Lemma Verify_in_range_witness :
  fst (Verify Examples.oneSession 1 "s1" 156 5)
  = Returns (Z.abs (156 - PositionX (mkData "s1" 150 60 0)) <=? 5).
Proof.
  apply (SliderFacts.Verify_in_range Examples.oneSession 1 "s1"
           (mkData "s1" 150 60 0) 156 5).
  - vm_compute. reflexivity.
  - lia.
  - simpl. lia.
Defined.

(** The store after [Verify]: the session is deleted, or nothing changes. *)
Lemma Verify_store m now id userX tol :
  snd (Verify m now id userX tol) = m
  \/ (fst (Verify m now id userX tol) = Returns true
      /\ snd (Verify m now id userX tol) = Delete m id).
Proof.
  unfold Verify. destruct (Get m now id) as [d |]; [| left; reflexivity].
  cbn [fst snd].
  destruct (abs (GoInt.sub userX (PositionX d)) <=? tol);
    [right; split; reflexivity | left; reflexivity].
Qed.

Lemma Verify_true_store m now id userX tol :
  fst (Verify m now id userX tol) = Returns true ->
  snd (Verify m now id userX tol) = Delete m id.
Proof.
  unfold Verify. destruct (Get m now id) as [d |]; [| discriminate].
  cbn [fst snd].
  destruct (abs (GoInt.sub userX (PositionX d)) <=? tol);
    [reflexivity | discriminate].
Qed.



(** X7: an id that is not in the store, or whose entry is older than the
    ttl, cannot be verified, whatever the offset and the tolerance: [Verify]
    returns the error and leaves the store as it was (the expired entry is
    not removed). *)
Theorem Verify_missing_or_expired m now id userX tol :
  (data m !! id = None
   \/ exists d, data m !! id = Some d
                /\ ttl m < now - CreatedAt d /\ ttl m < GoInt.maxInt) ->
  Verify m now id userX tol = (Fails "captcha not found or expired", m).
Proof.
  intros H. unfold Verify.
  replace (Get m now id) with (@None CaptchaData); [reflexivity |].
  unfold Get. destruct H as [-> | (d & -> & Hage & Hm)]; [reflexivity |].
  pose proof (Sub_large now (CreatedAt d) (ttl m) Hage Hm).
  destruct (Z.gtb_spec (Sub now (CreatedAt d)) (ttl m)); [reflexivity | lia].
Qed.

Lemma Verify_missing_or_expired_witness :
  Verify Examples.oneSession (6 * Minute) "s1" 150 5
  = (Fails "captcha not found or expired", Examples.oneSession).
Proof.
  apply (Verify_missing_or_expired Examples.oneSession (6 * Minute) "s1" 150 5).
  right. exists (mkData "s1" 150 60 0).
  split; [vm_compute; reflexivity |].
  split; vm_compute; reflexivity.
Defined.

(** X8: [Verify] on one id never changes what [Get] returns for another. *)
Theorem Verify_other_ids m now id userX tol t id' :
  id <> id' ->
  Get (snd (Verify m now id userX tol)) t id' = Get m t id'.
Proof.
  intros Hne.
  destruct (Verify_store m now id userX tol) as [-> | [_ ->]]; [reflexivity |].
  unfold Get, Delete. cbn [data ttl].
  rewrite lookup_delete_ne by exact Hne. reflexivity.
Qed.

Lemma Verify_other_ids_witness :
  Get (snd (Verify Examples.oneSession 1 "s2" 150 5)) 2 "s1"
  = Get Examples.oneSession 2 "s1".
Proof.
  apply (Verify_other_ids Examples.oneSession 1 "s2" 150 5 2 "s1").
  discriminate.
Defined.

End SessionFacts.

(* ===================================================================== *)
(** ** Placement on pictures of ordinary size *)

Module WindowFacts.
Import Placement Window.

Lemma allSound_spec window lo n side :
  allSound window lo n = true -> lo <= side < lo + Z.of_N n ->
  sound side (window side) = true.
Proof.
  unfold allSound. revert side.
  induction n as [| n IH] using N.peano_ind; intros side Hall Hs; [lia |].
  rewrite N.iter_succ in Hall. cbn [fst snd] in Hall.
  apply andb_true_iff in Hall as [Hall Hlast].
  assert (Hfst : forall k,
            fst (N.iter k
                   (fun st : Z * bool =>
                      (fst st + 1, snd st && sound (fst st) (window (fst st))))
                   (lo, true)) = lo + Z.of_N k).
  { intros k. induction k as [| k IHk] using N.peano_ind; [simpl; lia |].
    rewrite N.iter_succ. cbn [fst]. rewrite IHk. lia. }
  rewrite Hfst in Hlast.
  destruct (Z.eq_dec side (lo + Z.of_N n)) as [-> | Hne]; [exact Hlast |].
  apply IH; [exact Hall | lia].
Qed.

(** Both windows, evaluated for every side up to 65535 pixels. *)
Lemma windowX_checked : allSound windowX 144 65392 = true.
Proof. vm_compute. reflexivity. Qed.

Lemma windowY_checked : allSound windowY 240 65296 = true.
Proof. vm_compute. reflexivity. Qed.

Lemma Intn_sound side lo hi draw :
  sound side (lo, hi) = true ->
  exists r, Intn (hi - lo) draw = Returns r /\ 0 <= r + lo <= side - 70.
Proof.
  unfold sound. cbn [fst snd]. intros H.
  apply andb_true_iff in H as [H H3]. apply andb_true_iff in H as [H1 H2].
  apply Z.leb_le in H1, H3. apply Z.ltb_lt in H2.
  unfold Intn. destruct (Z.leb_spec (hi - lo) 0); [lia |].
  eexists. split; [reflexivity |].
  pose proof (Z.mod_pos_bound draw (hi - lo) ltac:(lia)). lia.
Qed.

Lemma windows_sound imgWidth imgHeight :
  144 <= imgWidth <= 65535 -> 240 <= imgHeight <= 65535 ->
  sound imgWidth (windowX imgWidth) = true
  /\ sound imgHeight (windowY imgHeight) = true.
Proof.
  intros Hw Hh. split.
  - apply (allSound_spec windowX 144 65392 imgWidth windowX_checked). lia.
  - apply (allSound_spec windowY 240 65296 imgHeight windowY_checked). lia.
Qed.

Lemma choosePlacement_sound imgWidth imgHeight drawX drawY :
  sound imgWidth (windowX imgWidth) = true ->
  sound imgHeight (windowY imgHeight) = true ->
  exists x y,
    choosePlacement imgWidth imgHeight drawX drawY = Returns (x, y)
    /\ fits imgWidth imgHeight x y.
Proof.
  intros SX SY. unfold choosePlacement.
  destruct (windowX imgWidth) as [minX maxX].
  destruct (windowY imgHeight) as [minY maxY].
  destruct (Intn_sound imgWidth minX maxX drawX SX) as (rx & -> & Hx).
  destruct (Intn_sound imgHeight minY maxY drawY SY) as (ry & -> & Hy).
  exists (rx + minX), (ry + minY). split; [reflexivity |].
  unfold fits, PuzzleWidth, PuzzleHeight. lia.
Qed.

(** X10: on a picture at least 144 pixels wide and 240 pixels high, with
    sides of at most 65535 pixels, the placement step returns, whatever the
    random source yields, and the piece placed there lies inside the
    picture. *)
Theorem choosePlacement_fits imgWidth imgHeight drawX drawY :
  144 <= imgWidth <= 65535 -> 240 <= imgHeight <= 65535 ->
  exists x y,
    choosePlacement imgWidth imgHeight drawX drawY = Returns (x, y)
    /\ fits imgWidth imgHeight x y.
Proof.
  intros Hw Hh.
  destruct (windows_sound imgWidth imgHeight Hw Hh) as [SX SY].
  apply choosePlacement_sound; assumption.
Qed.

Lemma choosePlacement_fits_witness :
  exists x y,
    choosePlacement 1920 1080 12345 67890 = Returns (x, y)
    /\ fits 1920 1080 x y.
Proof.
  apply (choosePlacement_fits 1920 1080 12345 67890); lia.
Defined.

End WindowFacts.

(* ===================================================================== *)
(** ** Edge pixels *)

Module EdgeFacts.
Import Img Loop Hole Piece Mask ImgFacts LoopFacts HoleFacts PieceFacts.

(** The count never decreases along the list, and grows at a neighbour
    that is a transparent pixel of the frame. *)
Lemma count_fold x y mask l c :
  c <= fold_left
         (fun count d =>
            if inFrame (GoInt.add x (fst d)) (GoInt.add y (snd d))
               && (AlphaAt mask (GoInt.add x (fst d)) (GoInt.add y (snd d)) =? 0)
            then count + 1 else count) l c
  /\ forall d, In d l ->
       inFrame (GoInt.add x (fst d)) (GoInt.add y (snd d))
       && (AlphaAt mask (GoInt.add x (fst d)) (GoInt.add y (snd d)) =? 0) = true ->
       c < fold_left
             (fun count d =>
                if inFrame (GoInt.add x (fst d)) (GoInt.add y (snd d))
                   && (AlphaAt mask (GoInt.add x (fst d)) (GoInt.add y (snd d)) =? 0)
                then count + 1 else count) l c.
Proof.
  revert c. induction l as [| e l IH]; intros c.
  - split; [simpl; lia | intros d []].
  - cbn [fold_left].
    set (c' := if inFrame (GoInt.add x (fst e)) (GoInt.add y (snd e))
                  && (AlphaAt mask (GoInt.add x (fst e)) (GoInt.add y (snd e)) =? 0)
               then c + 1 else c).
    destruct (IH c') as [Hle Hlt].
    assert (Hc : c <= c') by (subst c'; destruct (_ && _); lia).
    split; [lia |].
    intros d [<- | Hin] Hd.
    + subst c'. rewrite Hd in *. lia.
    + specialize (Hlt d Hin Hd). lia.
Qed.

Lemma neighbour_small d : In d neighbours8 -> -1 <= fst d <= 1 /\ -1 <= snd d <= 1.
Proof.
  rewrite neighbours8_eq. simpl.
  intros H. repeat (destruct H as [<- | H]; [simpl; lia |]). destruct H.
Qed.

(** X11: [isEdgeSimple], and [isHoleEdge] which is the same test, hold at
    a pixel of the frame exactly when the pixel lies on the outer border of
    the frame or [countTransparentNeighbors] is positive there. *)
Theorem isEdgeSimple_border_or_count x y mask :
  inFrame x y = true ->
  isHoleEdge x y mask = isEdgeSimple x y mask
  /\ (isEdgeSimple x y mask = true
      <-> onFrameBorder x y = true
          \/ 0 < countTransparentNeighbors x y mask).
Proof.
  intros Hf. split; [reflexivity |].
  apply inFrame_true in Hf. split.
  - intros He.
    destruct (onFrameBorder x y) eqn:Hb; [left; reflexivity | right].
    unfold onFrameBorder, PuzzleWidth, PuzzleHeight in Hb.
    repeat (apply orb_false_iff in Hb as [Hb ?]). 
    assert (Hin : 1 <= x <= 68 /\ 1 <= y <= 68) by lia.
    unfold isEdgeSimple in He. apply existsb_exists in He as (d & Hd & Hc).
    destruct (neighbour_small d Hd) as [Hdx Hdy].
    assert (Hfd : inFrame (GoInt.add x (fst d)) (GoInt.add y (snd d)) = true).
    { rewrite !small_add by lia. apply inFrame_true. lia. }
    rewrite Hfd in Hc. cbn [negb orb] in Hc.
    unfold countTransparentNeighbors.
    apply (proj2 (count_fold x y mask neighbours8 0) d Hd).
    rewrite Hfd, Hc. reflexivity.
  - intros [Hb | Hc]; [| apply count_pos_edge, Hc].
    unfold onFrameBorder, PuzzleWidth, PuzzleHeight in Hb.
    unfold isEdgeSimple. apply existsb_exists.
    assert (Hout : forall a b, ~ (0 <= a < 70 /\ 0 <= b < 70) ->
                               negb (inFrame a b) = true).
    { intros a b Hn. destruct (inFrame a b) eqn:E; [| reflexivity].
      apply inFrame_true in E. contradiction. }
    repeat (apply orb_true_iff in Hb as [Hb | Hb]).
    + exists (-1, 0). split; [rewrite neighbours8_eq; simpl; tauto |].
      cbn [fst snd]. rewrite !small_add by lia. rewrite Hout by lia. reflexivity.
    + exists (1, 0). split; [rewrite neighbours8_eq; simpl; tauto |].
      cbn [fst snd]. rewrite !small_add by lia. rewrite Hout by lia. reflexivity.
    + exists (0, -1). split; [rewrite neighbours8_eq; simpl; tauto |].
      cbn [fst snd]. rewrite !small_add by lia. rewrite Hout by lia. reflexivity.
    + exists (0, 1). split; [rewrite neighbours8_eq; simpl; tauto |].
      cbn [fst snd]. rewrite !small_add by lia. rewrite Hout by lia. reflexivity.
Qed.

Lemma isEdgeSimple_border_or_count_witness :
  isHoleEdge 10 10 Examples.dotMask = isEdgeSimple 10 10 Examples.dotMask
  /\ (isEdgeSimple 10 10 Examples.dotMask = true
      <-> onFrameBorder 10 10 = true
          \/ 0 < countTransparentNeighbors 10 10 Examples.dotMask).
Proof.
  apply (isEdgeSimple_border_or_count 10 10 Examples.dotMask).
  reflexivity.
Defined.

End EdgeFacts.

(* ===================================================================== *)
(** ** The passes of the piece extractor *)

Module PassFacts.
Import Img Loop Hole Piece ImgFacts LoopFacts HoleFacts PieceFacts BlurFacts.

#[local] Arguments for_each : simpl never.
#[local] Arguments for_each_m : simpl never.
#[local] Arguments frame : simpl never.
#[local] Arguments interior : simpl never.

(** A loop whose body leaves the state alone leaves it alone. *)
Lemma for_each_id {S} l (body : Z -> Z -> S -> S) s :
  (forall px py, (px, py) ∈ l -> body px py s = s) ->
  for_each l body s = s.
Proof.
  induction l as [| [px py] l IH]; intros Hbody; [reflexivity |].
  rewrite for_each_cons. cbn [fst snd].
  rewrite Hbody by apply list_elem_of_here.
  apply IH. intros px' py' Hin. apply Hbody, list_elem_of_further, Hin.
Qed.

(** Two bodies that agree on the indices of the loop give the same loop. *)
Lemma for_each_agree {S} l (body1 body2 : Z -> Z -> S -> S) s :
  (forall px py s, (px, py) ∈ l -> body1 px py s = body2 px py s) ->
  for_each l body1 s = for_each l body2 s.
Proof.
  revert s. induction l as [| [px py] l IH]; intros s Hbody; [reflexivity |].
  rewrite !for_each_cons. cbn [fst snd].
  rewrite Hbody by apply list_elem_of_here.
  apply IH. intros px' py' s' Hin. apply Hbody, list_elem_of_further, Hin.
Qed.

Section WithMask.
Variable Pow : float -> float -> float.
Variable mask : AlphaImage.

(** [globalSmooth] skips white pixels: they keep their colour. *)
Lemma globalSmoothBody_white px py s qx qy :
  isWhite (RGBAAt s qx qy) = true ->
  RGBAAt (globalSmoothBody mask px py s) qx qy = RGBAAt s qx qy.
Proof.
  intros Hq. unfold globalSmoothBody.
  destruct (AlphaAt mask px py >? 0); [| reflexivity].
  destruct (isWhite (RGBAAt s px py)) eqn:Hw; [reflexivity |].
  destruct (gatherPlain s mask px py) as [[[sR sG] sB] count].
  destruct (count >? 0); [| reflexivity].
  rewrite RGBAAt_SetRGBA.
  destruct ((qx =? px) && (qy =? py)) eqn:E; [| reflexivity].
  apply andb_true_iff in E as [->%Z.eqb_eq ->%Z.eqb_eq].
  rewrite Hq in Hw. discriminate.
Qed.

Lemma globalSmooth_white p qx qy :
  isWhite (RGBAAt p qx qy) = true ->
  RGBAAt (globalSmooth mask p) qx qy = RGBAAt p qx qy.
Proof.
  unfold globalSmooth. generalize interior as l. intros l. revert p.
  induction l as [| [px py] l IH]; intros p Hq; [reflexivity |].
  rewrite for_each_cons. cbn [fst snd].
  rewrite IH; rewrite globalSmoothBody_white by exact Hq;
    [reflexivity | exact Hq].
Qed.

Lemma globalSmooth_edgesWhite p :
  edgesWhite mask p -> edgesWhite mask (globalSmooth mask p).
Proof.
  intros [Hb Hw]. split; [rewrite Bounds_globalSmooth; exact Hb |].
  intros px py Hf Ha He. specialize (Hw px py Hf Ha He).
  rewrite globalSmooth_white by exact Hw. exact Hw.
Qed.

(** The highlight treats only pixels with a transparent neighbour, and
    these are white. *)
Lemma add3DEffect_id p :
  edgesWhite mask p -> add3DEffect mask p = p.
Proof.
  intros [Hb Hw]. unfold add3DEffect. apply for_each_id.
  intros px py Hin. apply elem_of_frame in Hin. unfold add3DBody.
  destruct (AlphaAt mask px py >? 0) eqn:Ha; [| reflexivity].
  destruct (Z.gtb_spec (countTransparentNeighbors px py mask) 0) as [Hc | Hc];
    [| reflexivity].
  rewrite (Hw px py Hin Ha (count_pos_edge px py mask ltac:(lia))).
  reflexivity.
Qed.

(** X12: in the piece extractor the two edge passes of [antiAliasEdges]
    and the highlight [add3DEffect] never change a pixel: every pixel they
    would treat has been painted white by the border loop, and they skip
    white pixels.  For every canvas, placement and mask, and whatever
    [math.Pow] returns, the piece is the copy of the masked pixels, the white
    border, [globalSmooth] and the two blur iterations. *)
Theorem ExtractPuzzlePieceWithMask_passes bgImage x y :
  ExtractPuzzlePieceWithMask Pow bgImage x y mask
  = Returns
      (applyGaussianBlur mask
         (globalSmooth mask
            (for_each frame (borderBody mask)
               (for_each frame (copyBody bgImage mask x y)
                  (DrawTransparent
                     (NewRGBA (Rect 0 0 PuzzleWidth PuzzleHeight))))))).
Proof.
  unfold ExtractPuzzlePieceWithMask. cbv zeta.
  set (p0 := for_each frame (copyBody bgImage mask x y)
               (DrawTransparent (NewRGBA (Rect 0 0 PuzzleWidth PuzzleHeight)))).
  assert (Hb0 : Bounds p0 = frameRect)
    by (unfold p0; rewrite Bounds_copy; reflexivity).
  pose proof (border_edgesWhite mask p0 Hb0) as Hw.
  unfold addSimpleBorder. rewrite (antiAlias_passes Pow mask _ Hw).
  cbn [mbind outcome_bind].
  rewrite (add3DEffect_id _ (globalSmooth_edgesWhite _ Hw)).
  reflexivity.
Qed.

(** X13: the piece depends on the canvas only through its size and the
    pixels under the opaque part of the mask: two canvases of the same size
    that agree there give the same piece. *)
Theorem ExtractPuzzlePieceWithMask_local bg1 bg2 x y :
  Dx (Bounds bg1) = Dx (Bounds bg2) -> Dy (Bounds bg1) = Dy (Bounds bg2) ->
  (forall px py,
     inFrame px py = true -> AlphaAt mask px py > 0 ->
     RGBAAt bg1 (GoInt.add x px) (GoInt.add y py)
     = RGBAAt bg2 (GoInt.add x px) (GoInt.add y py)) ->
  ExtractPuzzlePieceWithMask Pow bg1 x y mask
  = ExtractPuzzlePieceWithMask Pow bg2 x y mask.
Proof.
  intros Hdx Hdy Hpix. unfold ExtractPuzzlePieceWithMask. cbv zeta.
  rewrite (for_each_agree frame (copyBody bg1 mask x y) (copyBody bg2 mask x y));
    [reflexivity |].
  intros px py s Hin. apply elem_of_frame in Hin. unfold copyBody. cbv zeta.
  destruct (Z.gtb_spec (AlphaAt mask px py) 0) as [Ha | Ha]; [| reflexivity].
  rewrite Hdx, Hdy, (Hpix px py Hin) by lia. reflexivity.
Qed.

End WithMask.

(** A canvas that differs from the plain one in its top-left pixel only. *)
Lemma ExtractPuzzlePieceWithMask_local_witness :
  ExtractPuzzlePieceWithMask (fun _ _ => 1%float) Examples.plainCanvas
    140 65 Examples.dotMask
  = ExtractPuzzlePieceWithMask (fun _ _ => 1%float)
      (SetRGBA Examples.plainCanvas 0 0 RGBA.white) 140 65 Examples.dotMask.
Proof.
  apply (ExtractPuzzlePieceWithMask_local (fun _ _ => 1%float) Examples.dotMask
           Examples.plainCanvas (SetRGBA Examples.plainCanvas 0 0 RGBA.white)
           140 65).
  - reflexivity.
  - reflexivity.
  - intros px py Hf Ha. apply inFrame_true in Hf.
    rewrite !GoIntAddFacts.add_small by lia.
    rewrite RGBAAt_SetRGBA.
    destruct (Z.eqb_spec (140 + px) 0) as [E | _]; [lia | reflexivity].
Defined.

(** The sum over taps that all count and all have the colour [c]. *)
Lemma fold_stepZ_flat piece mask px py channel c l a :
  (forall k, In k l ->
     AlphaAt mask (clampCoord (GoInt.add px (fst k)) PuzzleWidth)
                  (clampCoord (GoInt.add py (snd k)) PuzzleHeight) > 0
     /\ RGBAAt piece (clampCoord (GoInt.add px (fst k)) PuzzleWidth)
                     (clampCoord (GoInt.add py (snd k)) PuzzleHeight) = c) ->
  fold_left (stepZ piece mask px py channel) l a = a + channel c * weights l.
Proof.
  revert a. induction l as [| k l IH]; intros a H.
  - simpl. lia.
  - cbn [fold_left weights fold_right]. fold (weights l).
    rewrite IH by (intros k' Hk'; apply H; right; exact Hk').
    destruct (H k (or_introl eq_refl)) as [Ha Hc].
    unfold stepZ. cbv zeta. rewrite Hc.
    destruct (Z.gtb_spec
                (AlphaAt mask (clampCoord (GoInt.add px (fst k)) PuzzleWidth)
                   (clampCoord (GoInt.add py (snd k)) PuzzleHeight)) 0);
      lia.
Qed.

(** X14: a blur iteration keeps the colour of a pixel in a flat region:
    when the nine taps of a pixel of the frame, moved into the frame, all
    land on masked pixels of the one colour [c], the iteration writes the
    colour channels of [c] with alpha 255. *)
Theorem applyGaussianBlurOnce_flat piece mask px py c :
  Bounds piece = mkRect 0 0 PuzzleWidth PuzzleHeight ->
  wellFormed piece ->
  inFrame px py = true ->
  (forall k, In k window3 ->
     AlphaAt mask (clampCoord (GoInt.add px (fst k)) PuzzleWidth)
                  (clampCoord (GoInt.add py (snd k)) PuzzleHeight) > 0
     /\ RGBAAt piece (clampCoord (GoInt.add px (fst k)) PuzzleWidth)
                     (clampCoord (GoInt.add py (snd k)) PuzzleHeight) = c) ->
  RGBAAt (applyGaussianBlurOnce mask piece) px py
  = RGBA.mk (RGBA.R c) (RGBA.G c) (RGBA.B c) 255.
Proof.
  intros Hb Hwf Hf Htaps.
  destruct (applyGaussianBlurOnce_pixels mask piece Hb) as [_ Hp].
  rewrite Hp, Hf.
  assert (Hcentre : AlphaAt mask px py > 0).
  { destruct (Htaps (0, 0)) as [Ha _].
    { unfold window3. simpl. tauto. }
    cbn [fst snd] in Ha. apply inFrame_true in Hf.
    rewrite !small_add in Ha by lia. rewrite !Z.add_0_r in Ha.
    unfold clampCoord, PuzzleWidth, PuzzleHeight in Ha.
    destruct (Z.ltb_spec px 0); [lia |]. destruct (Z.ltb_spec py 0); [lia |].
    destruct (Z.geb_spec px 70); [lia |]. destruct (Z.geb_spec py 70); [lia |].
    exact Ha. }
  replace (AlphaAt mask px py >? 0) with true
    by (symmetry; apply Z.gtb_lt; lia).
  rewrite (blurColor_pieceTaps piece mask px py Hwf).
  assert (E : forall channel,
            tapSum channel piece mask px py / 16 = channel c).
  { intros channel.
    change (tapSum channel piece mask px py)
      with (fold_left (stepZ piece mask px py channel) window3 0).
    rewrite (fold_stepZ_flat piece mask px py channel c window3 0 Htaps).
    change (weights window3) with 16. rewrite Z.add_0_l.
    apply Z.div_mul. lia. }
  rewrite !E. reflexivity.
Qed.

Lemma applyGaussianBlurOnce_flat_witness :
  RGBAAt (applyGaussianBlurOnce Examples.trapezoidMask Examples.flatPiece) 35 35
  = RGBA.mk 160 80 40 255.
Proof.
  apply (applyGaussianBlurOnce_flat Examples.flatPiece Examples.trapezoidMask
           35 35 (RGBA.mk 160 80 40 255)).
  - reflexivity.
  - intros x y. unfold uint8s. simpl. lia.
  - reflexivity.
  - unfold window3. simpl.
    intros k H.
    repeat (destruct H as [<- | H]; [split; vm_compute; reflexivity |]).
    destruct H.
Defined.

End PassFacts.

(* ===================================================================== *)
(** ** The footprint of the hole *)

Module FootprintFacts.
Import Img Loop Hole ImgFacts LoopFacts HoleFacts HoleHeapFacts.

#[local] Arguments for_each : simpl never.
#[local] Arguments frame : simpl never.

Lemma inHole_In mask bnd x y tx ty :
  inHole mask bnd x y tx ty = true -> In_ tx ty bnd = true.
Proof. unfold inHole. intros H. apply andb_true_iff in H as [_ H]. exact H. Qed.

(** The passes, pixel by pixel: under the mask an opaque pixel is written,
    elsewhere the buffer is as it was. *)
Lemma cutHolePixels_footprint wash mask x y s tx ty :
  if inHole mask (Bounds s) x y tx ty
  then RGBA.A (RGBAAt (cutHolePixels wash mask x y s) tx ty) = 255
  else RGBAAt (cutHolePixels wash mask x y s) tx ty = RGBAAt s tx ty.
Proof.
  unfold cutHolePixels.
  destruct (inHole mask (Bounds s) x y tx ty) eqn:E.
  - unfold blurredOnce at 1. rewrite RGBAAt_mk.
    rewrite !Bounds_blurredOnce, Bounds_bordered, Bounds_washed.
    rewrite E, (inHole_In _ _ _ _ _ _ E). reflexivity.
  - unfold blurredOnce, bordered, washed.
    repeat (rewrite RGBAAt_mk; simpl Bounds; rewrite E; simpl andb; cbv iota).
    rewrite !RGBAAt_eta. reflexivity.
Qed.

(** X15: on a canvas whose bounds start at the origin, the image returned
    by [CreatePuzzleHoleWithMask] differs from the canvas at most under the
    opaque pixels of the placed mask; there every pixel of the result has
    alpha 255, and everywhere else, inside the 70x70 window too, the
    result repeats the canvas. *)
Theorem CreatePuzzleHoleWithMask_footprint (h : heap) (bgImage : loc)
  (canvas : RGBAImage) (w hh x y : Z) (mask : AlphaImage) :
  h !! bgImage = Some canvas ->
  atOrigin w hh canvas ->
  GoInt.in_int x -> GoInt.in_int y ->
  exists result h' res,
    CreatePuzzleHoleWithMask bgImage x y mask h = Returns (result, h')
    /\ h' !! result = Some res
    /\ forall tx ty,
         if inHole mask (Bounds canvas) x y tx ty
         then RGBA.A (RGBAAt res tx ty) = 255
         else RGBAAt res tx ty = RGBAAt canvas tx ty.
Proof.
  intros Hbg (Hb & Hw & Hh) Hx Hy.
  destruct (hole_heap (cutHole washPixel mask x y) h bgImage canvas Hbg)
    as (_ & _ & _ & _ & Hres).
  eexists _, _, _. split.
  { apply (CreatePuzzleHoleWithMask_eq _ _ _ _ _ _ Hbg). }
  split; [exact Hres |].
  set (s0 := DrawSrc (NewRGBA (Bounds canvas)) canvas).
  assert (Hb0 : Bounds s0 = mkRect 0 0 w hh) by exact Hb.
  destruct (cutHole_pixels w hh x y mask Hw Hh Hx Hy washPixel s0 Hb0)
    as [_ Hpc].
  intros tx ty. rewrite Hpc.
  pose proof (cutHolePixels_footprint washPixel mask x y s0 tx ty) as Hf.
  replace (Bounds s0) with (Bounds canvas) in Hf by reflexivity.
  destruct (inHole mask (Bounds canvas) x y tx ty); [exact Hf |].
  rewrite Hf. apply (RGBAAt_DrawSrc_origin _ _ w hh); [exact Hb | exact Hb].
Qed.

Lemma CreatePuzzleHoleWithMask_footprint_witness :
  exists result h' res,
    CreatePuzzleHoleWithMask 1%positive 140 65 Examples.trapezoidMask
      Examples.canvasHeap = Returns (result, h')
    /\ h' !! result = Some res
    /\ forall tx ty,
         if inHole Examples.trapezoidMask (Bounds Examples.plainCanvas)
                   140 65 tx ty
         then RGBA.A (RGBAAt res tx ty) = 255
         else RGBAAt res tx ty = RGBAAt Examples.plainCanvas tx ty.
Proof.
  apply (CreatePuzzleHoleWithMask_footprint Examples.canvasHeap 1%positive
           Examples.plainCanvas 350 200 140 65 Examples.trapezoidMask).
  - reflexivity.
  - split; [reflexivity |].
    unfold GoInt.maxInt. split; split; (reflexivity || discriminate).
  - unfold GoInt.in_int, GoInt.minInt, GoInt.maxInt.
    split; discriminate.
  - unfold GoInt.in_int, GoInt.minInt, GoInt.maxInt.
    split; discriminate.
Defined.

Lemma CreatePuzzleHole_frame_witness :
  exists result h' res,
    Shape.CreatePuzzleHole (fun _ => None) 1%positive 140 65
      (Mask.mkShape Mask.PuzzleTypeTrapezoid) Examples.canvasHeap
    = Returns (result, h')
    /\ Examples.canvasHeap !! result = None
    /\ h' !! 1%positive = Some Examples.plainCanvas
    /\ (forall l, l <> result -> h' !! l = Examples.canvasHeap !! l)
    /\ h' !! result = Some res
    /\ Bounds res = Bounds Examples.plainCanvas
    /\ forall tx ty,
         ~ (140 <= tx < 140 + PuzzleWidth /\ 65 <= ty < 65 + PuzzleHeight) ->
         RGBAAt res tx ty = RGBAAt Examples.plainCanvas tx ty.
Proof.
  apply (CreatePuzzleHole_frame (fun _ => None) Examples.canvasHeap 1%positive
           Examples.plainCanvas 350 200 140 65
           (Mask.mkShape Mask.PuzzleTypeTrapezoid)).
  - reflexivity.
  - split; [reflexivity |].
    unfold GoInt.maxInt. split; split; (reflexivity || discriminate).
  - unfold GoInt.in_int, GoInt.minInt, GoInt.maxInt.
    split; discriminate.
  - unfold GoInt.in_int, GoInt.minInt, GoInt.maxInt.
    split; discriminate.
Defined.

End FootprintFacts.

(* ===================================================================== *)
(** ** Masks from files and drawn masks *)

Module MaskFileFacts.
Import Img Loop Hole Resize Mask.
Import ImgFacts LoopFacts HoleFacts MaskFacts ResizeFacts PassFacts Mirror.

#[local] Arguments for_each : simpl never.
#[local] Arguments frame : simpl never.

Lemma for_each_ABounds l (body : Z -> Z -> AlphaImage -> AlphaImage) m :
  (forall px py m, ABounds (body px py m) = ABounds m) ->
  ABounds (for_each l body m) = ABounds m.
Proof.
  intros Hbody. revert m. induction l as [| p l IH]; intros m; [reflexivity |].
  rewrite for_each_cons, IH. apply Hbody.
Qed.

Lemma uint8_range v : 0 <= GoInt.uint8 v <= 255.
Proof.
  unfold GoInt.uint8. pose proof (Z.mod_pos_bound v (2 ^ 8) ltac:(lia)). lia.
Qed.

(** The alpha channel of a resized picture is a uint8. *)
Lemma ResizeImage_alpha src w h x y :
  0 <= w -> 0 <= h ->
  0 <= RGBA.A (RGBAAt (ResizeImage src w h) x y) <= 255.
Proof.
  intros Hw Hh. rewrite ResizeImage_pixels by assumption.
  destruct (In_ x y (mkRect 0 0 w h)); [| simpl; lia].
  unfold resizeColor. cbv zeta.
  destruct (AtRGBA src _ _) as [[[r00 g00] b00] a00].
  destruct (AtRGBA src _ _) as [[[r01 g01] b01] a01].
  destruct (AtRGBA src _ _) as [[[r10 g10] b10] a10].
  destruct (AtRGBA src _ _) as [[[r11 g11] b11] a11].
  cbn [RGBA.A]. apply uint8_range.
Qed.

Section WithFiles.
Variable decodeFile : string -> option Image.

(** The loop of [loadMaskFromFile], pixel by pixel. *)
Lemma loadMask_pixels img x y :
  AlphaAt
    (for_each frame
       (fun x y mask =>
          let '(_, _, _, a) :=
            AtRGBA (ofRGBA (ResizeImage img PuzzleWidth PuzzleHeight)) x y in
          let alpha8 := GoInt.uint8 (Z.shiftr a 8) in
          SetAlpha mask x y alpha8)
       (NewAlpha (Rect 0 0 PuzzleWidth PuzzleHeight))) x y
  = RGBA.A (RGBAAt (ResizeImage img PuzzleWidth PuzzleHeight) x y).
Proof.
  rewrite (for_each_agree frame _
             (fun x y mask =>
                SetAlpha mask x y
                  (RGBA.A (RGBAAt (ResizeImage img PuzzleWidth PuzzleHeight) x y)))).
  2:{ intros px py m _. unfold ofRGBA, AtRGBA, RGBA16. cbv zeta.
      rewrite channel_back; [reflexivity |].
      apply ResizeImage_alpha; unfold PuzzleWidth, PuzzleHeight; lia. }
  rewrite for_each_SetAlpha by apply NoDup_grid.
  rewrite bool_decide_frame.
  change (In_ x y (ABounds (NewAlpha (Rect 0 0 PuzzleWidth PuzzleHeight))))
    with (inFrame x y).
  destruct (inFrame x y) eqn:Hf; [reflexivity |].
  cbn [andb].
  rewrite ResizeImage_pixels by (unfold PuzzleWidth, PuzzleHeight; lia).
  change (In_ x y (mkRect 0 0 PuzzleWidth PuzzleHeight)) with (inFrame x y).
  rewrite Hf. unfold AlphaAt, NewAlpha; cbn [ABounds APix].
  destruct (In_ x y (Rect 0 0 PuzzleWidth PuzzleHeight)); reflexivity.
Qed.

(** X18: a mask loaded from a file is the alpha channel of the picture
    resized to 70x70: at every point, [AlphaAt] of the mask is the alpha of
    the resized picture there (and 0 outside the frame). *)
Theorem loadMaskFromFile_alpha filename img :
  decodeFile filename = Some img ->
  exists mask,
    loadMaskFromFile decodeFile filename = Some mask
    /\ ABounds mask = mkRect 0 0 PuzzleWidth PuzzleHeight
    /\ forall x y,
         AlphaAt mask x y
         = RGBA.A (RGBAAt (ResizeImage img PuzzleWidth PuzzleHeight) x y).
Proof.
  intros Hd. unfold loadMaskFromFile. rewrite Hd. cbv zeta.
  eexists. split; [reflexivity |]. split.
  - rewrite for_each_ABounds; [reflexivity |].
    intros px py m.
    destruct (AtRGBA _ px py) as [[[r g] b] a]. apply ABounds_SetAlpha.
  - intros x y. apply loadMask_pixels.
Qed.

(** X19: whichever way it is made, from the file of the shape or drawn,
    and whatever the size of the picture in the file, the mask of
    [GeneratePuzzleMask] has the bounds of the 70x70 frame, and its values
    are those of a uint8. *)
Theorem GeneratePuzzleMask_frame shape :
  ABounds (GeneratePuzzleMask decodeFile shape)
  = mkRect 0 0 PuzzleWidth PuzzleHeight
  /\ forall x y, 0 <= AlphaAt (GeneratePuzzleMask decodeFile shape) x y <= 255.
Proof.
  assert (Hproc : ABounds (proceduralMask shape)
                  = mkRect 0 0 PuzzleWidth PuzzleHeight
                  /\ forall x y, 0 <= AlphaAt (proceduralMask shape) x y <= 255).
  { split.
    - unfold proceduralMask. rewrite for_each_ABounds; [reflexivity |].
      intros px py m. destruct (isInsidePuzzle px py shape); apply ABounds_SetAlpha.
    - intros x y. rewrite proceduralMask_pixels.
      destruct (inFrame x y); [| lia].
      destruct (isInsidePuzzle x y shape); lia. }
  unfold GeneratePuzzleMask. cbv zeta.
  destruct (negb (getMaskFile (Type_ shape) =? "")%string); [| exact Hproc].
  destruct (decodeFile (getMaskFile (Type_ shape))) as [img |] eqn:Hd.
  - destruct (loadMaskFromFile_alpha _ img Hd) as (mask & -> & Hb & Hp).
    split; [exact Hb |]. intros x y. rewrite Hp.
    apply ResizeImage_alpha; unfold PuzzleWidth, PuzzleHeight; lia.
  - unfold loadMaskFromFile. rewrite Hd. exact Hproc.
Qed.

End WithFiles.

Lemma loadMaskFromFile_alpha_witness :
  exists mask,
    loadMaskFromFile (fun _ => Some (ofRGBA Examples.plainCanvas))
      "mask/star.png" = Some mask
    /\ ABounds mask = mkRect 0 0 PuzzleWidth PuzzleHeight
    /\ forall x y,
         AlphaAt mask x y
         = RGBA.A (RGBAAt (ResizeImage (ofRGBA Examples.plainCanvas)
                             PuzzleWidth PuzzleHeight) x y).
Proof.
  apply (loadMaskFromFile_alpha (fun _ => Some (ofRGBA Examples.plainCanvas))
           "mask/star.png" (ofRGBA Examples.plainCanvas)).
  reflexivity.
Defined.

(** The three shapes computed in binary64, checked on the frame. *)
Lemma mirrored_spec f x y :
  mirrored f = true -> inFrame x y = true -> 1 <= x ->
  f x y = f (70 - x) y.
Proof.
  unfold mirrored. intros Hm Hf Hx. rewrite forallb_forall in Hm.
  specialize (Hm (x, y)). cbn [fst snd] in Hm.
  destruct (Z.eqb_spec x 0) as [E | _]; [lia |]. cbn [orb] in Hm.
  apply eqb_prop, Hm. apply list_elem_of_In, elem_of_frame, Hf.
Qed.

Lemma triangle_mirrored : mirrored isInsideTriangle = true.
Proof. vm_compute. reflexivity. Qed.

Lemma hexagon_mirrored : mirrored isInsideHexagon = true.
Proof. vm_compute. reflexivity. Qed.

Lemma trapezoid_mirrored : mirrored isInsideTrapezoid = true.
Proof. vm_compute. reflexivity. Qed.

(** X20: the drawn masks of the triangle, the hexagon and the trapezoid
    are symmetric about the column 35: the pixels [(x, y)] and
    [(70 - x, y)] have the same alpha, for every column from 1 to 69. *)
Theorem proceduralMask_mirrored shapeType x y :
  shapeType = PuzzleTypeTriangle \/ shapeType = PuzzleTypeHexagon
  \/ shapeType = PuzzleTypeTrapezoid ->
  1 <= x <= 69 ->
  AlphaAt (proceduralMask (mkShape shapeType)) x y
  = AlphaAt (proceduralMask (mkShape shapeType)) (70 - x) y.
Proof.
  intros Hs Hx. rewrite !proceduralMask_pixels.
  assert (Hfm : inFrame (70 - x) y = inFrame x y).
  { unfold inFrame, PuzzleWidth, PuzzleHeight.
    destruct (Z.leb_spec 0 x), (Z.ltb_spec x 70), (Z.leb_spec 0 (70 - x)),
             (Z.ltb_spec (70 - x) 70); try lia; reflexivity. }
  rewrite Hfm. destruct (inFrame x y) eqn:Hf; [| reflexivity].
  rewrite !isInsidePuzzle_kind.
  destruct Hs as [-> | [-> | ->]]; cbn [Z.eqb PuzzleTypeTriangle
    PuzzleTypeHexagon PuzzleTypeTrapezoid Pos.eqb].
  - rewrite (mirrored_spec _ x y triangle_mirrored Hf) by lia. reflexivity.
  - rewrite (mirrored_spec _ x y hexagon_mirrored Hf) by lia. reflexivity.
  - rewrite (mirrored_spec _ x y trapezoid_mirrored Hf) by lia. reflexivity.
Qed.

Lemma proceduralMask_mirrored_witness :
  AlphaAt (proceduralMask (mkShape PuzzleTypeHexagon)) 20 30
  = AlphaAt (proceduralMask (mkShape PuzzleTypeHexagon)) (70 - 20) 30.
Proof.
  apply (proceduralMask_mirrored PuzzleTypeHexagon 20 30).
  - right. left. reflexivity.
  - lia.
Defined.

End MaskFileFacts.

(* ===================================================================== *)
(** ** The service: initialisation and generation *)

Module GenerateFacts.
Import Img Loop Hole Piece Resize Mask Store Slider Placement Service.
Import ServiceState.
Import StoreFacts SessionFacts WindowFacts HoleHeapFacts PieceFacts.

Section WithWorld.
Variable DownloadImage : string -> outcome Image.
Variable BackgroundURLs : list string.
Variable decodeFile : string -> option Image.
Variable Pow : float -> float -> float.
Variable ImageToBase64 : RGBAImage -> string -> outcome string.

(** The pictures of a list of URLs that all load. *)
Lemma loadBackgroundImages_returns urls s s' :
  loadBackgroundImages DownloadImage urls s = (Returns tt, s') ->
  exists imgs,
    Forall2 (fun url img => DownloadImage url = Returns img) urls imgs
    /\ s' = mkService (backgroundImages s ++ imgs) (puzzleMasks s)
                      (backgroundURLs s) (initialized s).
Proof.
  revert s. induction urls as [| u urls IH]; intros s; simpl.
  - intros [= <-]. exists []. split; [constructor |].
    rewrite app_nil_r. destruct s; reflexivity.
  - destruct (DownloadImage u) as [img | e |] eqn:Hu; [| discriminate..].
    intros H. destruct (IH _ H) as (imgs & Hall & ->). cbn.
    exists (img :: imgs). split; [constructor; assumption |].
    rewrite <- app_assoc. reflexivity.
Qed.

(** X21: when [Init] returns without an error on a service that was not
    initialised, the flag is set, every URL of the list has been loaded,
    in order, after the pictures the service held, and each of the four
    shape types has the mask of [GeneratePuzzleMask]. *)
Theorem Init_loads_everything s s' :
  initialized s = false ->
  Init DownloadImage BackgroundURLs decodeFile s = (Returns tt, s') ->
  initialized s' = true
  /\ (exists imgs,
        backgroundImages s' = backgroundImages s ++ imgs
        /\ Forall2 (fun url img => DownloadImage url = Returns img)
                   (effectiveURLs BackgroundURLs s) imgs)
  /\ forall shapeType, 0 <= shapeType <= 3 ->
       GetPuzzleMask s' shapeType
       = Some (GeneratePuzzleMask decodeFile (mkShape shapeType)).
Proof.
  intros Hs. unfold Init. rewrite Hs.
  set (s1 := if (length (backgroundURLs s) =? 0)%nat then _ else s).
  assert (Hu : backgroundURLs s1 = effectiveURLs BackgroundURLs s).
  { unfold s1, effectiveURLs.
    destruct (length (backgroundURLs s) =? 0)%nat; reflexivity. }
  assert (Hi : backgroundImages s1 = backgroundImages s).
  { unfold s1. destruct (length (backgroundURLs s) =? 0)%nat; reflexivity. }
  destruct (loadBackgroundImages DownloadImage (backgroundURLs s1) s1)
    as [[[] | e |] s2] eqn:Hl; [| discriminate..].
  intros [= <-]. cbn [initialized backgroundImages].
  destruct (loadBackgroundImages_returns _ _ _ Hl) as (imgs & Hall & ->).
  split; [reflexivity |]. split.
  - exists imgs. rewrite <- Hi, <- Hu. split; [reflexivity | exact Hall].
  - intros shapeType Ht. unfold GetPuzzleMask, generatePuzzleMasks.
    cbn [fold_left puzzleMasks backgroundImages backgroundURLs initialized].
    unfold PuzzleTypeTriangle, PuzzleTypeHexagon, PuzzleTypeTrapezoid,
      PuzzleTypeStar.
    assert (Hc : shapeType = 0 \/ shapeType = 1 \/ shapeType = 2
                 \/ shapeType = 3) by lia.
    destruct Hc as [-> | [-> | [-> | ->]]].
    + rewrite !lookup_insert_ne by discriminate.
      rewrite lookup_insert_eq. reflexivity.
    + rewrite !lookup_insert_ne by discriminate.
      rewrite lookup_insert_eq. reflexivity.
    + rewrite !lookup_insert_ne by discriminate.
      rewrite lookup_insert_eq. reflexivity.
    + rewrite lookup_insert_eq. reflexivity.
Qed.

(** X22: [Init] is idempotent once it has succeeded: a second call returns
    without an error and leaves the service, its pictures and its masks as
    they are; nothing is loaded twice. *)
Theorem Init_idempotent s s' :
  Init DownloadImage BackgroundURLs decodeFile s = (Returns tt, s') ->
  Init DownloadImage BackgroundURLs decodeFile s' = (Returns tt, s').
Proof.
  intros H.
  assert (Hf : initialized s' = true).
  { destruct (initialized s) eqn:Hs.
    - unfold Init in H. rewrite Hs in H. injection H as <-. exact Hs.
    - apply (ServiceFacts.Init_flag DownloadImage BackgroundURLs decodeFile
               s (Returns tt) s' Hs H). }
  unfold Init. rewrite Hf. reflexivity.
Qed.

(** What [Generate] does to the store: one [Set] when it returns a captcha,
    nothing otherwise. *)
Lemma Generate_cases s env store :
  (exists c positionX,
     Generate Pow ImageToBase64 s env store
     = (Returns c,
        Set_ store (now env) (newID env)
             (mkData (newID env) positionX (CaptchaPositionY c) 0))
     /\ CaptchaID c = newID env)
  \/ (snd (Generate Pow ImageToBase64 s env store) = store
      /\ forall c, fst (Generate Pow ImageToBase64 s env store) <> Returns c).
Proof.
  unfold Generate.
  destruct (negb (initialized s)); [right; split; [reflexivity | discriminate] |].
  destruct (GetRandomBackground s (drawBackground env)) as [bgImage |];
    [| right; split; [reflexivity | discriminate]].
  destruct (choosePlacement _ _ _ _) as [[positionX positionY] | e |];
    [| right; split; [reflexivity | discriminate]..].
  destruct (Intn 4 (drawShape env)) as [shapeType | e |];
    [| right; split; [reflexivity | discriminate]..].
  destruct (GetPuzzleMask s shapeType) as [mask |];
    [| right; split; [reflexivity | discriminate]].
  destruct (GenerateCaptchaImagesWithMask Pow ImageToBase64 bgImage
              positionX positionY mask) as [[bgWithHole sliderPiece] | e |];
    [| right; split; [reflexivity | discriminate]..].
  left.
  exists (mkCaptcha (newID env) bgWithHole sliderPiece
            (scaled 200 (Dy (IBounds bgImage)) positionY)),
         (scaled 350 (Dx (IBounds bgImage)) positionX).
  split; reflexivity.
Qed.

(** X23: when [Generate] returns a captcha, the session is in the store
    under the id of the captcha, with the vertical position the client was
    given; the offset stored with it verifies at once, within the default
    tolerance; and no other session is touched. *)
Theorem Generate_session s env store c store' :
  0 <= ttl store ->
  Generate Pow ImageToBase64 s env store = (Returns c, store') ->
  CaptchaID c = newID env
  /\ exists positionX,
       Get store' (now env) (CaptchaID c)
       = Some (mkData (CaptchaID c) positionX (CaptchaPositionY c) (now env))
       /\ fst (VerifyWithTolerance store' (now env) (CaptchaID c) positionX)
          = Returns true
       /\ forall t id', id' <> CaptchaID c ->
            Get store' t id' = Get store t id'.
Proof.
  intros Httl HG.
  destruct (Generate_cases s env store) as [(c0 & px & E & Hid) | [_ Hn]].
  2:{ exfalso. apply (Hn c). rewrite HG. reflexivity. }
  rewrite HG in E. injection E as -> ->.
  split; [exact Hid |]. exists px. rewrite Hid.
  assert (HGet : Get (Set_ store (now env) (newID env)
                        (mkData (newID env) px (CaptchaPositionY c0) 0))
                     (now env) (newID env)
                 = Some (mkData (newID env) px (CaptchaPositionY c0) (now env))).
  { unfold Get. rewrite data_Set. cbn [CreatedAt ID PositionX PositionY ttl Set_].
    pose proof (Sub_small (now env) (now env) ltac:(lia)).
    destruct (Z.gtb_spec (Sub (now env) (now env)) (ttl store)); [lia |].
    reflexivity. }
  split; [exact HGet |]. split.
  - unfold VerifyWithTolerance, Verify. rewrite HGet. cbn [PositionX fst].
    unfold GoInt.sub. rewrite Z.sub_diag. reflexivity.
  - intros t id' Hne. unfold Get, Set_. cbn [data ttl].
    rewrite lookup_insert_ne by congruence. reflexivity.
Qed.

(** X25: when [Generate] does not return a captcha (it returns an error,
    or panics on the way), the store is as it was: no session is created. *)
Theorem Generate_failure_keeps_store s env store :
  (forall c, fst (Generate Pow ImageToBase64 s env store) <> Returns c) ->
  snd (Generate Pow ImageToBase64 s env store) = store.
Proof.
  intros Hn.
  destruct (Generate_cases s env store) as [(c0 & px & E & _) | [E _]];
    [| exact E].
  exfalso. apply (Hn c0). rewrite E. reflexivity.
Qed.

Lemma CreatePuzzleHoleWithMask_returns (h : heap) bgImage canvas x y mask :
  h !! bgImage = Some canvas ->
  exists result h' res,
    CreatePuzzleHoleWithMask bgImage x y mask h = Returns (result, h')
    /\ h' !! result = Some res.
Proof.
  intros Hbg.
  destruct (hole_heap (cutHole washPixel mask x y) h bgImage canvas Hbg)
    as (_ & _ & _ & _ & Hres).
  eexists _, _, _. split.
  - apply (CreatePuzzleHoleWithMask_eq _ _ _ _ _ _ Hbg).
  - exact Hres.
Qed.

Lemma GenerateCaptchaImagesWithMask_returns bgImage x y mask :
  (forall img format, exists str, ImageToBase64 img format = Returns str) ->
  exists r,
    GenerateCaptchaImagesWithMask Pow ImageToBase64 bgImage x y mask
    = Returns r.
Proof.
  intros Henc. unfold GenerateCaptchaImagesWithMask. cbv zeta.
  destruct (alloc ∅ (ResizeImage bgImage 350 200)) as [resized h] eqn:Ea.
  assert (Hl : h !! resized = Some (ResizeImage bgImage 350 200)).
  { unfold alloc in Ea. injection Ea as <- <-. unfold heap, loc.
    apply lookup_insert_eq. }
  destruct (CreatePuzzleHoleWithMask_returns h resized _
              (scaled 350 (Dx (IBounds bgImage)) x)
              (scaled 200 (Dy (IBounds bgImage)) y) mask Hl)
    as (result & h' & res & -> & Hres).
  cbn [mbind outcome_bind fst snd].
  rewrite Hres.
  destruct (ExtractPuzzlePieceWithMask_returns Pow mask
              (ResizeImage bgImage 350 200)
              (scaled 350 (Dx (IBounds bgImage)) x)
              (scaled 200 (Dy (IBounds bgImage)) y)) as (p & _ & ->).
  cbn [mbind outcome_bind].
  destruct (Henc res "png") as [s1 ->].
  destruct (Henc (applyGaussianBlurOnce mask p) "png") as [s2 ->].
  eexists. reflexivity.
Qed.

Lemma CreatePuzzleHoleWithMask_result (h : heap) bgImage canvas x y mask :
  h !! bgImage = Some canvas ->
  exists result h',
    CreatePuzzleHoleWithMask bgImage x y mask h = Returns (result, h')
    /\ h' !! result
       = Some (cutHole washPixel mask x y
                 (DrawSrc (NewRGBA (Bounds canvas)) canvas)).
Proof.
  intros Hbg.
  destruct (hole_heap (cutHole washPixel mask x y) h bgImage canvas Hbg)
    as (_ & _ & _ & _ & Hres).
  eexists _, _. split.
  - apply (CreatePuzzleHoleWithMask_eq _ _ _ _ _ _ Hbg).
  - exact Hres.
Qed.

(** What [GenerateCaptchaImagesWithMask] encodes. *)
Lemma GenerateCaptchaImagesWithMask_inv bgImage x y mask bg sl :
  GenerateCaptchaImagesWithMask Pow ImageToBase64 bgImage x y mask
  = Returns (bg, sl) ->
  let resized := ResizeImage bgImage 350 200 in
  let sx := scaled 350 (Dx (IBounds bgImage)) x in
  let sy := scaled 200 (Dy (IBounds bgImage)) y in
  ImageToBase64
    (cutHole washPixel mask sx sy (DrawSrc (NewRGBA (Bounds resized)) resized))
    "png" = Returns bg
  /\ exists pieceImage,
       ExtractPuzzlePieceWithMask Pow resized sx sy mask = Returns pieceImage
       /\ ImageToBase64 pieceImage "png" = Returns sl.
Proof.
  unfold GenerateCaptchaImagesWithMask. cbv zeta.
  destruct (alloc ∅ (ResizeImage bgImage 350 200)) as [resized h] eqn:Ea.
  assert (Hl : h !! resized = Some (ResizeImage bgImage 350 200)).
  { unfold alloc in Ea. injection Ea as <- <-. unfold heap, loc.
    apply lookup_insert_eq. }
  destruct (CreatePuzzleHoleWithMask_result h resized _
              (scaled 350 (Dx (IBounds bgImage)) x)
              (scaled 200 (Dy (IBounds bgImage)) y) mask Hl)
    as (result & h' & -> & Hres).
  cbn [mbind outcome_bind fst snd]. rewrite Hres.
  destruct (ExtractPuzzlePieceWithMask Pow (ResizeImage bgImage 350 200)
              (scaled 350 (Dx (IBounds bgImage)) x)
              (scaled 200 (Dy (IBounds bgImage)) y) mask)
    as [pieceImage | e |]; cbn [mbind outcome_bind]; [| discriminate..].
  destruct (ImageToBase64 _ "png") as [s1 | e |] eqn:E1; [| discriminate..].
  destruct (ImageToBase64 pieceImage "png") as [s2 | e |] eqn:E2;
    [| discriminate..].
  intros [= <- <-]. split; [reflexivity |].
  exists pieceImage. split; [reflexivity | exact E2].
Qed.

(** X24: the session that [Generate] stores holds the position at which the
    pictures it returns were cut: when [Generate] returns a captcha, its
    background is the encoding of the hole cut, with one of the masks of
    the service, into one of its pictures resized to 350x200, at the
    position [(PositionX, PositionY)] of the stored session; its slider is
    the encoding of the piece extracted at that position with that mask;
    and the [PositionY] of the captcha is the one stored. *)
Theorem Generate_cut_at_stored_position s env store c store' :
  Generate Pow ImageToBase64 s env store = (Returns c, store') ->
  exists bgImage shapeType mask d pieceImage,
    bgImage ∈ backgroundImages s
    /\ GetPuzzleMask s shapeType = Some mask
    /\ data store' !! CaptchaID c = Some d
    /\ PositionY d = CaptchaPositionY c
    /\ ImageToBase64
         (cutHole washPixel mask (PositionX d) (PositionY d)
            (DrawSrc (NewRGBA (Bounds (ResizeImage bgImage 350 200)))
                     (ResizeImage bgImage 350 200)))
         "png" = Returns (Background c)
    /\ ExtractPuzzlePieceWithMask Pow (ResizeImage bgImage 350 200)
         (PositionX d) (PositionY d) mask = Returns pieceImage
    /\ ImageToBase64 pieceImage "png" = Returns (Slider c).
Proof.
  unfold Generate.
  destruct (negb (initialized s)); [discriminate |].
  destruct (GetRandomBackground s (drawBackground env)) as [bgImage |] eqn:Eb;
    [| discriminate].
  destruct (choosePlacement _ _ _ _) as [[positionX positionY] | e |];
    [| discriminate..].
  destruct (Intn 4 (drawShape env)) as [shapeType | e |]; [| discriminate..].
  destruct (GetPuzzleMask s shapeType) as [mask |] eqn:Em; [| discriminate].
  destruct (GenerateCaptchaImagesWithMask Pow ImageToBase64 bgImage
              positionX positionY mask) as [[bgWithHole sliderPiece] | e |]
    eqn:Eg; [| discriminate..].
  intros [= <- <-]. cbn [CaptchaID Background Slider CaptchaPositionY].
  destruct (GenerateCaptchaImagesWithMask_inv _ _ _ _ _ _ Eg)
    as (E1 & pieceImage & E2 & E3).
  exists bgImage, shapeType, mask,
    (mkData (newID env) (scaled 350 (Dx (IBounds bgImage)) positionX)
            (scaled 200 (Dy (IBounds bgImage)) positionY) (now env)),
    pieceImage.
  split.
  { unfold GetRandomBackground in Eb.
    destruct (length (backgroundImages s) =? 0)%nat; [discriminate |].
    destruct (Intn _ _) as [index | |]; [| discriminate..].
    eapply list_elem_of_lookup_2, Eb. }
  split; [exact Em |].
  split; [apply data_Set |].
  cbn [PositionX PositionY].
  split; [reflexivity |]. split; [exact E1 |]. split; [exact E2 | exact E3].
Qed.

(** On a service that is ready, [Generate] goes through. *)
Lemma Generate_ready s env store :
  ready s ->
  (forall img format, exists str, ImageToBase64 img format = Returns str) ->
  exists c store',
    Generate Pow ImageToBase64 s env store = (Returns c, store').
Proof.
  intros (Hinit & Hne & Hsize & Hmask) Henc. unfold Generate.
  rewrite Hinit. cbn [negb].
  assert (Hbg : exists bgImage,
            GetRandomBackground s (drawBackground env) = Some bgImage
            /\ bgImage ∈ backgroundImages s).
  { unfold GetRandomBackground.
    destruct (backgroundImages s) as [| i0 rest] eqn:Ei; [contradiction |].
    cbn [length Nat.eqb]. unfold Intn.
    destruct (Z.leb_spec (Z.of_nat (S (length rest))) 0) as [H0 | H0]; [lia |].
    pose proof (Z.mod_pos_bound (drawBackground env)
                  (Z.of_nat (S (length rest))) H0) as Hm.
    destruct (lookup_lt_is_Some_2 (i0 :: rest)
                (Z.to_nat (drawBackground env mod Z.of_nat (S (length rest)))))
      as [img Himg].
    { cbn [length]. lia. }
    exists img. split; [exact Himg |]. eapply list_elem_of_lookup_2, Himg. }
  destruct Hbg as (bgImage & -> & Hin).
  rewrite Forall_forall in Hsize. destruct (Hsize bgImage Hin) as [Hw Hh].
  destruct (windows_sound _ _ Hw Hh) as [SX SY].
  destruct (choosePlacement_sound _ _ (drawX env) (drawY env) SX SY)
    as (px & py & -> & _).
  change (Intn 4 (drawShape env)) with (Returns (drawShape env mod 4)).
  cbv iota.
  pose proof (Z.mod_pos_bound (drawShape env) 4 ltac:(lia)) as Hm4.
  destruct (Hmask (drawShape env mod 4) ltac:(lia)) as [mask ->].
  destruct (GenerateCaptchaImagesWithMask_returns bgImage px py mask Henc)
    as [[bgWithHole sliderPiece] ->].
  eexists _, _. reflexivity.
Qed.

(** X26: on a service that is initialised, holds at least one picture,
    only pictures from 144x240 to 65535x65535, and a mask for each of the
    four shape types, [Generate] returns a captcha, whatever the random
    source yields, provided the encoder returns: it neither fails nor
    panics. *)
Theorem Generate_returns s env store :
  ready s ->
  (forall img format, exists str, ImageToBase64 img format = Returns str) ->
  exists c, fst (Generate Pow ImageToBase64 s env store) = Returns c.
Proof.
  intros Hr Henc.
  destruct (Generate_ready s env store Hr Henc) as (c & store' & ->).
  exists c. reflexivity.
Qed.

End WithWorld.

Lemma ready_readyService : ready Scenario.readyService.
Proof.
  split; [reflexivity |]. split; [discriminate |]. split.
  - constructor; [| constructor].
    change (144 <= 640 <= 65535 /\ 240 <= 480 <= 65535). lia.
  - intros shapeType Ht.
    assert (Hc : shapeType = 0 \/ shapeType = 1 \/ shapeType = 2
                 \/ shapeType = 3) by lia.
    destruct Hc as [-> | [-> | [-> | ->]]]; eexists; reflexivity.
Qed.

Lemma encoder_returns img format :
  exists str, Scenario.encoder img format = Returns str.
Proof. eexists. reflexivity. Qed.

Lemma Init_loads_everything_witness :
  let s' := snd (Init Scenario.online ["images/image1.jpg"] Scenario.noFiles
                   NewCaptchaService) in
  initialized s' = true
  /\ (exists imgs,
        backgroundImages s' = backgroundImages NewCaptchaService ++ imgs
        /\ Forall2 (fun url img => Scenario.online url = Returns img)
                   (effectiveURLs ["images/image1.jpg"] NewCaptchaService)
                   imgs)
  /\ forall shapeType, 0 <= shapeType <= 3 ->
       GetPuzzleMask s' shapeType
       = Some (GeneratePuzzleMask Scenario.noFiles (mkShape shapeType)).
Proof.
  intros s'.
  apply (Init_loads_everything Scenario.online ["images/image1.jpg"]
           Scenario.noFiles NewCaptchaService s').
  - reflexivity.
  - reflexivity.
Defined.

Lemma Init_idempotent_witness :
  let s' := snd (Init Scenario.online ["images/image1.jpg"] Scenario.noFiles
                   NewCaptchaService) in
  Init Scenario.online ["images/image1.jpg"] Scenario.noFiles s'
  = (Returns tt, s').
Proof.
  intros s'.
  apply (Init_idempotent Scenario.online ["images/image1.jpg"]
           Scenario.noFiles NewCaptchaService s').
  reflexivity.
Defined.

Lemma Generate_session_witness :
  exists c store',
    Generate Scenario.pow Scenario.encoder Scenario.readyService
      Scenario.env defaultStore = (Returns c, store')
    /\ CaptchaID c = newID Scenario.env
    /\ exists positionX,
         Get store' (now Scenario.env) (CaptchaID c)
         = Some (mkData (CaptchaID c) positionX (CaptchaPositionY c)
                        (now Scenario.env))
         /\ fst (VerifyWithTolerance store' (now Scenario.env) (CaptchaID c)
                    positionX) = Returns true
         /\ forall t id', id' <> CaptchaID c ->
              Get store' t id' = Get defaultStore t id'.
Proof.
  destruct (Generate_ready Scenario.pow Scenario.encoder Scenario.readyService
              Scenario.env defaultStore ready_readyService encoder_returns)
    as (c & store' & HG).
  exists c, store'. split; [exact HG |].
  apply (Generate_session Scenario.pow Scenario.encoder Scenario.readyService
           Scenario.env defaultStore c store').
  - vm_compute. discriminate.
  - exact HG.
Defined.

Lemma Generate_cut_at_stored_position_witness :
  exists c store',
    Generate Scenario.pow Scenario.encoder Scenario.readyService
      Scenario.env defaultStore = (Returns c, store')
    /\ exists bgImage shapeType mask d pieceImage,
         bgImage ∈ backgroundImages Scenario.readyService
         /\ GetPuzzleMask Scenario.readyService shapeType = Some mask
         /\ data store' !! CaptchaID c = Some d
         /\ PositionY d = CaptchaPositionY c
         /\ Scenario.encoder
              (cutHole washPixel mask (PositionX d) (PositionY d)
                 (DrawSrc (NewRGBA (Bounds (ResizeImage bgImage 350 200)))
                          (ResizeImage bgImage 350 200)))
              "png" = Returns (Background c)
         /\ ExtractPuzzlePieceWithMask Scenario.pow
              (ResizeImage bgImage 350 200) (PositionX d) (PositionY d) mask
            = Returns pieceImage
         /\ Scenario.encoder pieceImage "png" = Returns (Slider c).
Proof.
  destruct (Generate_ready Scenario.pow Scenario.encoder Scenario.readyService
              Scenario.env defaultStore ready_readyService encoder_returns)
    as (c & store' & HG).
  exists c, store'. split; [exact HG |].
  apply (Generate_cut_at_stored_position Scenario.pow Scenario.encoder
           Scenario.readyService Scenario.env defaultStore c store' HG).
Defined.

Lemma Generate_failure_keeps_store_witness :
  snd (Generate Scenario.pow Scenario.encoder Scenario.emptyService
         Scenario.env Examples.oneSession) = Examples.oneSession.
Proof.
  apply (Generate_failure_keeps_store Scenario.pow Scenario.encoder
           Scenario.emptyService Scenario.env Examples.oneSession).
  intros c. discriminate.
Defined.

Lemma Generate_returns_witness :
  exists c,
    fst (Generate Scenario.pow Scenario.encoder Scenario.readyService
           Scenario.env defaultStore) = Returns c.
Proof.
  apply (Generate_returns Scenario.pow Scenario.encoder Scenario.readyService
           Scenario.env defaultStore).
  - split; [reflexivity |]. split; [discriminate |]. split.
    + constructor; [| constructor].
      change (144 <= 640 <= 65535 /\ 240 <= 480 <= 65535). lia.
    + intros shapeType Ht.
      assert (Hc : shapeType = 0 \/ shapeType = 1 \/ shapeType = 2
                   \/ shapeType = 3) by lia.
      destruct Hc as [-> | [-> | [-> | ->]]]; eexists; reflexivity.
  - intros img format. eexists. reflexivity.
Defined.

End GenerateFacts.

(* ===================================================================== *)
(** ** Encoding *)

Module EncodeFacts.
Import Img Encode.

Section WithCodecs.
Variable pngEncoder : RGBAImage -> list (list Byte.byte) * option string.
Variable jpegEncoder : RGBAImage -> list (list Byte.byte) * option string.
Variable EncodeToString : list Byte.byte -> string.

(** The buffer after a sequence of [Write]s holds the chunks in order. *)
Lemma Write_all chunks buf :
  fold_left (fun buf p => fst (Write buf p)) chunks buf
  = buf ++ concat chunks.
Proof.
  revert buf. induction chunks as [| p chunks IH]; intros buf; simpl.
  - rewrite app_nil_r. reflexivity.
  - rewrite IH, app_assoc. reflexivity.
Qed.

(** X27: every format other than "jpeg" and "jpg", known or not, is
    encoded as PNG: [ImageToBase64] returns the error of the PNG encoder,
    or the data URL ["data:image/png;base64,"] followed by the base64 text
    of all the bytes the encoder wrote, in the order it wrote them. *)
Theorem ImageToBase64_png img format :
  format <> "jpeg"%string -> format <> "jpg"%string ->
  ImageToBase64 pngEncoder jpegEncoder EncodeToString img format
  = match snd (pngEncoder img) with
    | Some e => Fails e
    | None =>
        Returns ("data:image/png;base64,"
                 +:+ EncodeToString (concat (fst (pngEncoder img))))
    end.
Proof.
  intros Hj1 Hj2. unfold ImageToBase64, encodePNG.
  rewrite Write_all. cbn [app].
  apply String.eqb_neq in Hj1. apply String.eqb_neq in Hj2.
  destruct (String.eqb format "png") eqn:Hp.
  - apply String.eqb_eq in Hp. subst format.
    destruct (snd (pngEncoder img)); reflexivity.
  - rewrite Hj1, Hj2. cbn [orb].
    destruct (snd (pngEncoder img)); reflexivity.
Qed.

End WithCodecs.

Lemma ImageToBase64_png_witness :
  ImageToBase64 (fun _ => ([[Byte.x89]; [Byte.x50; Byte.x4e]], None))
    (fun _ => ([], Some "unsupported")) (fun _ => "iVBO")
    Examples.flatPiece "gif"
  = Returns ("data:image/png;base64," +:+ "iVBO").
Proof.
  apply (ImageToBase64_png
           (fun _ => ([[Byte.x89]; [Byte.x50; Byte.x4e]], None))
           (fun _ => ([], Some "unsupported")) (fun _ => "iVBO")
           Examples.flatPiece "gif"); discriminate.
Defined.

End EncodeFacts.

(* ===================================================================== *)
(** ** The package-level Generate and the handlers *)

Module LegacyFacts.
Import Img Loop Hole Piece Resize Mask Shape Store Slider Placement Service.
Import Legacy ServiceState.
Import StoreFacts SessionFacts WindowFacts HoleHeapFacts PieceFacts
       GenerateFacts.

Section WithWorld.
Variable DownloadImage : string -> outcome Image.
Variable BackgroundURLs : list string.
Variable decodeFile : string -> option Image.
Variable Pow : float -> float -> float.
Variable ImageToBase64 : RGBAImage -> string -> outcome string.

#[local] Abbreviation Generate_ :=
  (Generate DownloadImage BackgroundURLs decodeFile Pow ImageToBase64).

(** X28: the package-level [Generate] touches the store only when it
    returns a captcha, and then by the one [Set] of the session of that
    captcha, stored under its id with the vertical position the client is
    given; when it fails or panics the store is as it was. *)
Theorem Generate_store env store :
  match Generate_ env store with
  | (Returns c, store') =>
      CaptchaID c = newID env
      /\ exists positionX,
           store' = Set_ store (now env) (newID env)
                      (mkData (newID env) positionX (CaptchaPositionY c) 0)
  | (_, store') => store' = store
  end.
Proof.
  unfold Generate.
  destruct (Intn _ (drawBackground env)) as [bgIndex | e |]; [| reflexivity..].
  destruct (BackgroundURLs !! Z.to_nat bgIndex) as [bgURL |]; [| reflexivity].
  destruct (DownloadImage bgURL) as [bgImage | e |]; [| reflexivity..].
  cbv zeta.
  destruct (choosePlacement _ _ _ _) as [[positionX positionY] | e |];
    [| reflexivity..].
  destruct (GenerateRandomPuzzleShape (drawShape env)) as [shape | e |];
    [| reflexivity..].
  destruct (GenerateCaptchaImages decodeFile Pow ImageToBase64 bgImage
              positionX positionY shape) as [[bgWithHole sliderPiece] | e |];
    [| reflexivity..].
  split; [reflexivity |]. eexists. reflexivity.
Qed.

Lemma CreatePuzzleHole_returns (h : heap) bgImage canvas x y shape :
  h !! bgImage = Some canvas ->
  exists result h' res,
    CreatePuzzleHole decodeFile bgImage x y shape h = Returns (result, h')
    /\ h' !! result = Some res.
Proof.
  intros Hbg.
  destruct (hole_heap (cutHole washPixelShape
                         (GeneratePuzzleMask decodeFile shape) x y)
              h bgImage canvas Hbg) as (_ & _ & _ & _ & Hres).
  eexists _, _, _. split; [| exact Hres].
  unfold CreatePuzzleHole. rewrite Hbg. unfold alloc. reflexivity.
Qed.

Lemma GenerateCaptchaImages_returns bgImage x y shape :
  (forall img format, exists str, ImageToBase64 img format = Returns str) ->
  exists r,
    GenerateCaptchaImages decodeFile Pow ImageToBase64 bgImage x y shape
    = Returns r.
Proof.
  intros Henc. unfold GenerateCaptchaImages. cbv zeta.
  destruct (alloc ∅ (ResizeImage bgImage 350 200)) as [resized h] eqn:Ea.
  assert (Hl : h !! resized = Some (ResizeImage bgImage 350 200)).
  { unfold alloc in Ea. injection Ea as <- <-. unfold heap, loc.
    apply lookup_insert_eq. }
  destruct (CreatePuzzleHole_returns h resized _
              (scaled 350 (Dx (IBounds bgImage)) x)
              (scaled 200 (Dy (IBounds bgImage)) y) shape Hl)
    as (result & h' & res & -> & Hres).
  cbn [mbind outcome_bind fst snd].
  rewrite Hres. unfold ExtractPuzzlePiece.
  destruct (ExtractPuzzlePieceWithMask_returns Pow
              (GeneratePuzzleMask decodeFile shape)
              (ResizeImage bgImage 350 200)
              (scaled 350 (Dx (IBounds bgImage)) x)
              (scaled 200 (Dy (IBounds bgImage)) y)) as (p & _ & ->).
  cbn [mbind outcome_bind].
  destruct (Henc res "png") as [s1 ->].
  destruct (Henc (applyGaussianBlurOnce
                    (GeneratePuzzleMask decodeFile shape) p) "png")
    as [s2 ->].
  eexists. reflexivity.
Qed.

(** X29: when the list of URLs is not empty, every URL of it yields a
    picture from 144x240 to 65535x65535, and the encoder returns, the
    package-level [Generate] returns a captcha, whatever the random source
    yields: it neither fails nor panics. *)
Theorem Generate_returns_captcha env store :
  BackgroundURLs <> [] ->
  (forall url, url ∈ BackgroundURLs ->
     exists img,
       DownloadImage url = Returns img
       /\ 144 <= Dx (IBounds img) <= 65535
       /\ 240 <= Dy (IBounds img) <= 65535) ->
  (forall img format, exists str, ImageToBase64 img format = Returns str) ->
  exists c, fst (Generate_ env store) = Returns c.
Proof.
  intros Hne Hload Henc. unfold Generate.
  destruct BackgroundURLs as [| u0 rest] eqn:Eu; [contradiction |].
  unfold Intn.
  destruct (Z.leb_spec (Z.of_nat (length (u0 :: rest))) 0) as [H0 | H0];
    [cbn [length] in H0; lia |].
  pose proof (Z.mod_pos_bound (drawBackground env)
                (Z.of_nat (length (u0 :: rest))) H0) as Hm.
  destruct (lookup_lt_is_Some_2 (u0 :: rest)
              (Z.to_nat (drawBackground env mod Z.of_nat (length (u0 :: rest)))))
    as [bgURL Hurl]; [lia |].
  rewrite Hurl.
  destruct (Hload bgURL (list_elem_of_lookup_2 _ _ _ Hurl))
    as (bgImage & -> & Hw & Hh).
  cbv zeta.
  destruct (windows_sound _ _ Hw Hh) as [SX SY].
  destruct (choosePlacement_sound _ _ (drawX env) (drawY env) SX SY)
    as (px & py & -> & _).
  change (GenerateRandomPuzzleShape (drawShape env))
    with (Returns (mkShape (drawShape env mod 4))).
  cbv iota.
  destruct (GenerateCaptchaImages_returns bgImage px py
              (mkShape (drawShape env mod 4)) Henc)
    as [[bgWithHole sliderPiece] ->].
  eexists. reflexivity.
Qed.

End WithWorld.

Lemma Generate_returns_captcha_witness :
  exists c,
    fst (Generate Scenario.online ["images/image1.jpg"] Scenario.noFiles
           Scenario.pow Scenario.encoder Scenario.env defaultStore)
    = Returns c.
Proof.
  apply (Generate_returns_captcha Scenario.online ["images/image1.jpg"]
           Scenario.noFiles Scenario.pow Scenario.encoder Scenario.env
           defaultStore).
  - discriminate.
  - intros url _. exists (ofRGBA Scenario.photo).
    split; [reflexivity |].
    change (144 <= 640 <= 65535 /\ 240 <= 480 <= 65535). lia.
  - intros img format. eexists. reflexivity.
Defined.

End LegacyFacts.

Module HandlerFacts.
Import Store Slider Service Handler StoreFacts SessionFacts.

Section WithGin.
Variable ShouldBindJSON : string -> outcome VerifyCaptchaRequest.
Variable Atoi : string -> outcome Z.


End WithGin.


End HandlerFacts.

(* ===================================================================== *)
(** ** The white wash *)

Module WashFacts.
Import Img Hole WashCheck.

Lemma towardsWhite_spec f v :
  towardsWhite f = true -> 0 <= v <= 255 -> v <= f v <= 255.
Proof.
  unfold towardsWhite. intros H Hv. rewrite forallb_forall in H.
  specialize (H v). rewrite andb_true_iff, Z.leb_le, Z.leb_le in H.
  apply H. apply list_elem_of_In, elem_of_seqZ. lia.
Qed.

Lemma washPixel_checked :
  towardsWhite (channelR washPixel) = true
  /\ towardsWhite (channelG washPixel) = true
  /\ towardsWhite (channelB washPixel) = true.
Proof. repeat split; vm_compute; reflexivity. Qed.

Lemma washPixelShape_checked :
  towardsWhite (channelR washPixelShape) = true
  /\ towardsWhite (channelG washPixelShape) = true
  /\ towardsWhite (channelB washPixelShape) = true.
Proof. repeat split; vm_compute; reflexivity. Qed.

(** X17: the white wash of the hole, in [CreatePuzzleHoleWithMask] and in
    the older [CreatePuzzleHole], never darkens: each colour channel of the
    washed pixel lies between the channel of the pixel and 255, and the
    alpha is 255. *)
Theorem wash_towards_white c :
  uint8s c ->
  (RGBA.R c <= RGBA.R (washPixel c) <= 255
   /\ RGBA.G c <= RGBA.G (washPixel c) <= 255
   /\ RGBA.B c <= RGBA.B (washPixel c) <= 255
   /\ RGBA.A (washPixel c) = 255)
  /\ (RGBA.R c <= RGBA.R (washPixelShape c) <= 255
      /\ RGBA.G c <= RGBA.G (washPixelShape c) <= 255
      /\ RGBA.B c <= RGBA.B (washPixelShape c) <= 255
      /\ RGBA.A (washPixelShape c) = 255).
Proof.
  intros (HR & HG & HB & _).
  destruct washPixel_checked as (R1 & G1 & B1).
  destruct washPixelShape_checked as (R2 & G2 & B2).
  split.
  - split; [exact (towardsWhite_spec _ _ R1 HR) |].
    split; [exact (towardsWhite_spec _ _ G1 HG) |].
    split; [exact (towardsWhite_spec _ _ B1 HB) | reflexivity].
  - split; [exact (towardsWhite_spec _ _ R2 HR) |].
    split; [exact (towardsWhite_spec _ _ G2 HG) |].
    split; [exact (towardsWhite_spec _ _ B2 HB) | reflexivity].
Qed.

Lemma wash_towards_white_witness :
  (200 <= RGBA.R (washPixel (RGBA.mk 200 120 40 255)) <= 255
   /\ 120 <= RGBA.G (washPixel (RGBA.mk 200 120 40 255)) <= 255
   /\ 40 <= RGBA.B (washPixel (RGBA.mk 200 120 40 255)) <= 255
   /\ RGBA.A (washPixel (RGBA.mk 200 120 40 255)) = 255)
  /\ (200 <= RGBA.R (washPixelShape (RGBA.mk 200 120 40 255)) <= 255
      /\ 120 <= RGBA.G (washPixelShape (RGBA.mk 200 120 40 255)) <= 255
      /\ 40 <= RGBA.B (washPixelShape (RGBA.mk 200 120 40 255)) <= 255
      /\ RGBA.A (washPixelShape (RGBA.mk 200 120 40 255)) = 255).
Proof.
  apply (wash_towards_white (RGBA.mk 200 120 40 255)).
  unfold uint8s. simpl. lia.
Defined.

End WashFacts.

(* ===================================================================== *)
(** ** The session store and its pointers *)

Module PointerStoreFacts.
Import PointerStore.

Lemma Get_Delete_ne m t id id' h :
  id' <> id -> Get (Delete m id) t id' h = Get m t id' h.
Proof.
  intros Hne. unfold Get, Delete. cbn [data ttl].
  rewrite lookup_delete_ne by congruence. reflexivity.
Qed.

(** X3: [Set] and [Delete] under one id leave the entry of every other id
    as it was, unless the record given to [Set] is the one stored under
    that other id.  [Delete] never touches another id, and the id itself
    is not found afterwards; [Set] writes the time through the pointer it
    is given, so an id that holds another record keeps its pointer and its
    record, and an id that holds the same record is stamped anew: [Get]
    returns it for another [ttl], even if it had expired. *)
Theorem Set_Delete_other_records (h : gmap positive Store.CaptchaData)
  m now t id id' p d :
  id' <> id -> h !! p = Some d ->
  Get (Delete m id) t id' h = Get m t id' h
  /\ Get (Delete m id) t id h = Returns None
  /\ exists h' m',
       Set_ m now id p h = Returns (h', m')
       /\ data m' !! id' = data m !! id'
       /\ (data m !! id' <> Some p ->
           Get m' t id' h' = Get m t id' h
           /\ forall q, data m !! id' = Some q -> h' !! q = h !! q)
       /\ (data m !! id' = Some p ->
           h' !! p = Some (stamp d now)
           /\ Get m' t id' h'
              = Returns (if Store.Sub t now >? ttl m then None else Some p)).
Proof.
  intros Hne Hp. split; [apply Get_Delete_ne, Hne |].
  split.
  { unfold Get, Delete. cbn [data]. rewrite lookup_delete_eq. reflexivity. }
  unfold Set_, Get. rewrite Hp.
  eexists _, _. split; [reflexivity |]. cbn [data ttl].
  rewrite lookup_insert_ne by congruence.
  split; [reflexivity |].
  split.
  - intros Hother.
    destruct (data m !! id') as [q |] eqn:Eq; [| split; [reflexivity | discriminate]].
    assert (q <> p) by congruence.
    rewrite lookup_insert_ne by congruence.
    split; [reflexivity |].
    intros q' [= <-]. apply lookup_insert_ne. congruence.
  - intros Hsame. split; [apply lookup_insert_eq |].
    rewrite Hsame, lookup_insert_eq. reflexivity.
Qed.

Lemma Set_Delete_other_records_witness :
  let h : gmap positive Store.CaptchaData := {[ 1%positive := Store.mkData "a" 150 60 0 ]} in
  let m := mkStore {[ "a" := 1%positive ]} (5 * Store.Minute) in
  Get (Delete m "b") (10 * Store.Minute) "a" h = Get m (10 * Store.Minute) "a" h
  /\ Get (Delete m "b") (10 * Store.Minute) "b" h = Returns None
  /\ exists h' m',
       Set_ m (10 * Store.Minute) "b" 1%positive h = Returns (h', m')
       /\ data m' !! "a" = data m !! "a"
       /\ (data m !! "a" <> Some 1%positive ->
           Get m' (10 * Store.Minute) "a" h' = Get m (10 * Store.Minute) "a" h
           /\ forall q, data m !! "a" = Some q -> h' !! q = h !! q)
       /\ (data m !! "a" = Some 1%positive ->
           h' !! 1%positive
           = Some (stamp (Store.mkData "a" 150 60 0) (10 * Store.Minute))
           /\ Get m' (10 * Store.Minute) "a" h'
              = Returns (if Store.Sub (10 * Store.Minute) (10 * Store.Minute)
                            >? ttl m
                         then None else Some 1%positive)).
Proof.
  cbv zeta.
  apply (Set_Delete_other_records
           {[ 1%positive := Store.mkData "a" 150 60 0 ]}
           (mkStore {[ "a" := 1%positive ]} (5 * Store.Minute))
           (10 * Store.Minute) (10 * Store.Minute) "b" "a" 1%positive
           (Store.mkData "a" 150 60 0)).
  - discriminate.
  - reflexivity.
Defined.

Lemma view_unused (h : gmap positive Store.CaptchaData) m p d :
  unused m p ->
  omap (fun q => <[p:=d]> h !! q) (data m) = omap (fun q => h !! q) (data m).
Proof.
  intros Hun.
  apply map_eq. intros i. rewrite !lookup_omap.
  destruct (data m !! i) as [q |] eqn:Eq; [| reflexivity]. cbn.
  apply lookup_insert_ne. intros ->. exact (Hun i Eq).
Qed.

(** X31: as long as no record is stored twice, the store with pointers
    and the store that keeps the records by value agree.  [Set] with a
    record that no id holds yet (as [Generate] calls it, with a record it
    has just allocated), [Delete] and [Get] are, seen through [view], the
    operations of [Store]. *)
Theorem view_simulation (h : gmap positive Store.CaptchaData) m now t id p d :
  h !! p = Some d -> unused m p ->
  (exists h' m',
     Set_ m now id p h = Returns (h', m')
     /\ view h' m' = Store.Set_ (view h m) now id d
     /\ forall q, q <> p -> h' !! q = h !! q)
  /\ view h (Delete m id) = Store.Delete (view h m) id
  /\ match Get m t id h with
     | Returns r => Store.Get (view h m) t id = (q ← r; h !! q)
     | _ => exists q, data m !! id = Some q /\ h !! q = None
     end.
Proof.
  intros Hp Hun. split; [| split].
  - unfold Set_. rewrite Hp. eexists _, _. split; [reflexivity |].
    split.
    + unfold view, Store.Set_. cbn [data ttl Store.data Store.ttl].
      f_equal.
      rewrite (omap_insert_Some _ _ _ _ (stamp d now))
        by (cbn; apply lookup_insert_eq).
      rewrite view_unused by exact Hun. reflexivity.
    + intros q Hq. apply lookup_insert_ne. congruence.
  - unfold view, Delete, Store.Delete. cbn [data ttl Store.data Store.ttl].
    f_equal. apply omap_delete.
  - unfold Get, Store.Get, view. cbn [Store.data Store.ttl].
    rewrite lookup_omap.
    destruct (data m !! id) as [q |] eqn:Eq; [| reflexivity]. cbn.
    destruct (h !! q) as [dq |] eqn:Ehq; [| exists q; split; [reflexivity | exact Ehq]].
    destruct (Store.Sub t (Store.CreatedAt dq) >? ttl m); [reflexivity |].
    cbn. symmetry. exact Ehq.
Qed.

Lemma view_simulation_witness :
  let h : gmap positive Store.CaptchaData := {[ 1%positive := Store.mkData "a" 150 60 0;
                        2%positive := Store.mkData "b" 90 40 0 ]} in
  let m := mkStore {[ "a" := 1%positive ]} (5 * Store.Minute) in
  (exists h' m',
     Set_ m 1000 "b" 2%positive h = Returns (h', m')
     /\ view h' m' = Store.Set_ (view h m) 1000 "b" (Store.mkData "b" 90 40 0)
     /\ forall q, q <> 2%positive -> h' !! q = h !! q)
  /\ view h (Delete m "b") = Store.Delete (view h m) "b"
  /\ match Get m 2000 "b" h with
     | Returns r => Store.Get (view h m) 2000 "b" = (q ← r; h !! q)
     | _ => exists q, data m !! "b" = Some q /\ h !! q = None
     end.
Proof.
  cbv zeta.
  apply (view_simulation
           {[ 1%positive := Store.mkData "a" 150 60 0;
              2%positive := Store.mkData "b" 90 40 0 ]}
           (mkStore {[ "a" := 1%positive ]} (5 * Store.Minute))
           1000 2000 "b" 2%positive (Store.mkData "b" 90 40 0)).
  - reflexivity.
  - intros i. cbn [data]. destruct (decide (i = "a")) as [-> | Hne].
    + rewrite lookup_singleton_eq. discriminate.
    + rewrite lookup_singleton_ne by congruence. discriminate.
Defined.

End PointerStoreFacts.
